(** * Verification of [animate.py]

    A shallow embedding of the batch animation script: discovery of the
    reference image and of the pending videos on the remote drive, endpoint
    resolution, the retry loop around the generation call with the
    normalisation of its result, and the per-item upload / rename pipeline.

    Conventions of the embedding.
    - A Python [str] is a [string]; text is read as its UTF-8 bytes, which
      preserves substring tests, prefix tests, lexicographic order and the
      effect of the character class used by [safe_filename].
    - A Drive file resource (a [dict] read with [f.get(k)] and [f[k]]) is a
      record of optional fields.
    - Values of unknown shape coming back from the generation service are
      [pyval]s.
    - Every call that leaves the process (Drive, the Space, the clock) is
      answered by an oracle of the environment [Env]; an oracle sees the
      whole history of earlier calls, so the environment is arbitrary.  The
      history is the list of events, newest first.
    - A loop that waits for the drive (the pages of a listing, the chunks of
      a download) takes a bound [fuel] on its rounds; the run diverges when
      the bound is reached.
    - Console output is not modelled. *)

From Stdlib Require Import String Ascii List ZArith QArith Lia Bool.
From Stdlib Require Import Permutation Sorted.
Import ListNotations.
Local Open Scope string_scope.
Local Open Scope Z_scope.

(** ** Python strings *)

Module PyStr.

(** [needle in hay] *)
Fixpoint contains (needle hay : string) : bool :=
  String.prefix needle hay ||
  match hay with
  | EmptyString => false
  | String _ t => contains needle t
  end.

(** [s.startswith(p)] *)
Definition startswith (p s : string) : bool := String.prefix p s.

(** [s.endswith(c)] for a one-character suffix *)
Fixpoint endswith_char (c : ascii) (s : string) : bool :=
  match s with
  | EmptyString => false
  | String a EmptyString => Ascii.eqb a c
  | String _ t => endswith_char c t
  end.

(** [s.replace(c, by)] for a one-character pattern *)
Fixpoint replace_char (c : ascii) (by_ : string) (s : string) : string :=
  match s with
  | EmptyString => EmptyString
  | String a t =>
      if Ascii.eqb a c then by_ ++ replace_char c by_ t
      else String a (replace_char c by_ t)
  end.

(** [s.lstrip(chars)], [s.rstrip(chars)] and [s.strip(chars)]; the set of
    characters to remove is given by its membership test *)
Fixpoint lstrip (chars : ascii -> bool) (s : string) : string :=
  match s with
  | EmptyString => EmptyString
  | String a t => if chars a then lstrip chars t else s
  end.

Fixpoint rstrip (chars : ascii -> bool) (s : string) : string :=
  match s with
  | EmptyString => EmptyString
  | String a t =>
      match rstrip chars t with
      | EmptyString => if chars a then EmptyString else String a EmptyString
      | t' => String a t'
      end
  end.

Definition strip (chars : ascii -> bool) (s : string) : string :=
  rstrip chars (lstrip chars s).

(** [s.rfind(c)]: the last index of [c], or -1; [i] is the index of the head *)
Fixpoint rfind_from (c : ascii) (s : string) (i : Z) : Z :=
  match s with
  | EmptyString => -1
  | String a t =>
      let r := rfind_from c t (i + 1) in
      if 0 <=? r then r else if Ascii.eqb a c then i else -1
  end.

Definition rfind (c : ascii) (s : string) : Z := rfind_from c s 0.

(** [s[:i]] and [s[i:]] for [0 <= i] *)
Definition take (i : Z) (s : string) : string := String.substring 0 (Z.to_nat i) s.
Definition drop (i : Z) (s : string) : string :=
  String.substring (Z.to_nat i) (String.length s - Z.to_nat i) s.

Definition truthy (s : option string) : bool :=
  match s with
  | None | Some EmptyString => false
  | Some _ => true
  end.

(** [a or b] on values that are a string or [None] *)
Definition or_ (a b : option string) : option string :=
  if truthy a then a else b.

(** [f.get(k, "")] *)
Definition get_default (a : option string) : string :=
  match a with Some s => s | None => EmptyString end.

End PyStr.

(** ** [os.path] (POSIX flavour) *)

Module OsPath.

(** The scan of [genericpath._splitext] over the leading dots of the last
    component: some character in [filenameIndex, filenameIndex + n) is not a dot. *)
Fixpoint has_non_dot (p : string) (filenameIndex : nat) (n : nat) : bool :=
  match n with
  | O => false
  | S n' =>
      match String.get filenameIndex p with
      | Some "."%char => has_non_dot p (S filenameIndex) n'
      | _ => true
      end
  end.

Definition splitext (p : string) : string * string :=
  let sepIndex := PyStr.rfind "/"%char p in
  let dotIndex := PyStr.rfind "."%char p in
  if (sepIndex <? dotIndex) &&
     has_non_dot p (Z.to_nat (sepIndex + 1)) (Z.to_nat (dotIndex - (sepIndex + 1)))
  then (PyStr.take dotIndex p, PyStr.drop dotIndex p)
  else (p, EmptyString).

(** [os.path.join(a, b)] *)
Definition join (a b : string) : string :=
  if PyStr.startswith "/" b then b
  else if (a =? "")%string || PyStr.endswith_char "/"%char a then a ++ b
  else a ++ "/" ++ b.

End OsPath.

(** ** Constants of the script *)

Definition SPACE_ID : string := "Wan-AI/Wan2.2-Animate".
Definition WAN_MODE : string := "wan2.2-animate-mix".
Definition WAN_QUALITY : string := "wan-pro".
Definition PROCESSED_TAG : string := "__PROCESSED".
Definition MAX_VIDEO_MB : Z := 200.

(** ** Values and exceptions *)

(** Values returned by the generation client.  Dictionaries keep insertion
    order; their keys are strings, as in decoded JSON. *)
#[warnings="-register-all"]
Inductive pyval : Type :=
| PyNone
| PyBool (b : bool)
| PyInt (z : Z)
| PyStr (s : string)
| PyList (l : list pyval)
| PyTuple (l : list pyval)
| PyDict (d : list (string * pyval)).

(** The exceptions that occur; all are subclasses of [Exception]. *)
#[warnings="-register-all"]
Inductive exn : Type :=
| MissingEnvVar (name : string)              (* RuntimeError("Missing env var: ...") *)
| NoImageFound                               (* RuntimeError("No image found ...") *)
| UnexpectedHFOutput (result : pyval)        (* RuntimeError("Unexpected HF output type: ...") *)
| HFCallFailed (retries : Z) (last_err : option exn)
                                             (* RuntimeError("HF call failed after ...") *)
| KeyError (key : string)
| ValueError (what : string)
| AttributeError (what : string)
| TypeError (what : string)
| ExternalError (what : string).             (* raised inside a library or a remote call *)

(** Outcome of a computation: a value, a raised exception, or a loop that was
    still running when the fuel ran out. *)
Inductive result (A : Type) : Type :=
| Ok (a : A)
| Raise (e : exn)
| Diverge.
Arguments Ok {A} a.
Arguments Raise {A} e.
Arguments Diverge {A}.

(** ** Drive file resources *)

Record RemoteFile : Type := mkFile {
  rf_id : option string;
  rf_name : option string;
  rf_mimeType : option string;
  rf_createdTime : option string;
  rf_modifiedTime : option string;
  rf_size : option string
}.

(** [f[k]] *)
Definition getitem (k : string) (v : option string) : result string :=
  match v with
  | Some s => Ok s
  | None => Raise (KeyError k)
  end.

(** ** Sorting: [list.sort(key=...)] is stable *)

Section Sort.
Context {A K : Type} (le : K -> K -> bool) (key : A -> K).

(** [x] goes in front of the first element whose key is not below its own. *)
Fixpoint insert_by (x : A) (l : list A) : list A :=
  match l with
  | [] => [x]
  | y :: l' => if le (key x) (key y) then x :: y :: l' else y :: insert_by x l'
  end.

Definition sort_by (l : list A) : list A := fold_right insert_by [] l.

(** The order in which the sort leaves two elements *)
Definition le_by (a b : A) : Prop := le (key a) (key b) = true.

(** [reverse=True]: reverse, sort, reverse, which keeps equal keys in their
    original order. *)
Definition sort_by_reverse (l : list A) : list A := rev (sort_by (rev l)).
End Sort.

(** ** Pure helpers of the script *)

(** [is_processed], lines 87-88 *)
Definition is_processed (name : string) : bool :=
  PyStr.contains PROCESSED_TAG name.

(** The character class [a-zA-Z0-9._-] of [safe_filename] *)
Definition allowed_char (c : ascii) : bool :=
  (("a" <=? c) && (c <=? "z"))%char ||
  (("A" <=? c) && (c <=? "Z"))%char ||
  (("0" <=? c) && (c <=? "9"))%char ||
  (c =? ".")%char || (c =? "_")%char || (c =? "-")%char.

(** [re.sub(r"[^a-zA-Z0-9._-]+", "_", s)]: every maximal run of characters
    outside the class becomes one underscore.  [in_run] tells that the
    previous character belonged to such a run. *)
Fixpoint sub_disallowed (in_run : bool) (s : string) : string :=
  match s with
  | EmptyString => EmptyString
  | String c t =>
      if allowed_char c then String c (sub_disallowed false t)
      else if in_run then sub_disallowed true t
      else String "_" (sub_disallowed true t)
  end.

(** [safe_filename], lines 91-92 *)
Definition safe_filename (name : string) : string :=
  PyStr.strip (Ascii.eqb "_") (sub_disallowed false name).

(** [int(s)] for a string: optional surrounding ASCII white space, an optional
    sign, decimal digits with single underscores between them.  [None] is
    [ValueError].  Drive sends sizes as plain decimal digits; the other white
    space and digit characters of Unicode are not recognised here. *)
Definition is_digit (c : ascii) : bool := (("0" <=? c) && (c <=? "9"))%char.
Definition digit_val (c : ascii) : Z := Z.of_N (N_of_ascii c) - 48.
Definition is_space (c : ascii) : bool :=
  (c =? " ")%char || ((9 <=? N_of_ascii c) && (N_of_ascii c <=? 13))%N.

Fixpoint parse_digits (s : string) (acc : Z) (prev_digit : bool) : option Z :=
  match s with
  | EmptyString => if prev_digit then Some acc else None
  | String c t =>
      if is_digit c then parse_digits t (10 * acc + digit_val c) true
      else if (c =? "_")%char && prev_digit then parse_digits t acc false
      else None
  end.

Definition int_of_str (s : string) : option Z :=
  match PyStr.strip is_space s with
  | String "-" t => option_map Z.opp (parse_digits t 0 false)
  | String "+" t => parse_digits t 0 false
  | t => parse_digits t 0 false
  end.

(** [size = int(f.get("size") or 0)], line 237 *)
Definition declared_size (f : RemoteFile) : result Z :=
  if PyStr.truthy (rf_size f) then
    match int_of_str (PyStr.get_default (rf_size f)) with
    | Some z => Ok z
    | None => Raise (ValueError "int")
    end
  else Ok 0.

(** [size_mb = size / (1024 * 1024) if size else 0], line 238.  The quotient
    by a power of two is kept exact. *)
Definition size_mb (size : Z) : Q :=
  if size =? 0 then 0%Q else (size # 1048576)%Q.

(** The test of line 240: [size_mb and size_mb > MAX_VIDEO_MB] *)
Definition too_large (size : Z) : bool :=
  negb (Qeq_bool (size_mb size) 0) &&
  negb (Qle_bool (size_mb size) (inject_Z MAX_VIDEO_MB)).

(** Lines 252-253 and 258 *)
Definition out_name_of (name : string) : string :=
  fst (OsPath.splitext name) ++ "__MIX__PRO.mp4".
Definition processed_name_of (name : string) : string :=
  fst (OsPath.splitext name) ++ PROCESSED_TAG ++ ".mp4".

(** ** Work discovery *)

(** The sort key of line 216 *)
Definition todo_key (f : RemoteFile) : string :=
  PyStr.get_default
    (PyStr.or_ (PyStr.or_ (rf_modifiedTime f) (rf_createdTime f)) (Some EmptyString)).

Definition unprocessed (f : RemoteFile) : bool :=
  negb (is_processed (PyStr.get_default (rf_name f))).

(** Lines 215-216: the queue built from the listing of the video folder *)
Definition todo_of (ref_files : list RemoteFile) : list RemoteFile :=
  sort_by String.leb todo_key (filter unprocessed ref_files).

(** A [datetime].  [dt_aware] tells whether it carries a UTC offset;
    [dt_micros] places it among the datetimes of its kind, in microseconds
    since 1970-01-01T00:00:00: the instant in UTC of an aware one, the
    reading of the clock of a naive one.  Two datetimes of one kind are
    ordered by [dt_micros]; [<] between an aware and a naive one raises
    [TypeError]. *)
Record datetime : Type := mkDatetime {
  dt_aware : bool;
  dt_micros : Z
}.

(** What [list.sort] needs of its keys.  A sort that returns has ordered
    every key against the others by comparisons, so with keys of both kinds
    one comparison is between an aware and a naive datetime; fewer than two
    keys are not compared. *)
Definition comparable (keys : list datetime) : bool :=
  match keys with
  | [] => true
  | k :: rest => forallb (fun k' => Bool.eqb (dt_aware k') (dt_aware k)) rest
  end.

(** [pick_latest_image], lines 69-84.  [fromisoformat] is
    [datetime.fromisoformat], [None] for [ValueError]. *)
Section PickLatestImage.
Variable fromisoformat : string -> option datetime.

Definition parse_dt (f : RemoteFile) : result datetime :=
  match PyStr.or_ (rf_modifiedTime f) (rf_createdTime f) with
  | None => Raise (AttributeError "replace")
  | Some t =>
      match fromisoformat (PyStr.replace_char "Z" "+00:00" t) with
      | Some d => Ok d
      | None => Raise (ValueError "fromisoformat")
      end
  end.

Definition is_image_candidate (f : RemoteFile) : bool :=
  PyStr.startswith "image/" (PyStr.get_default (rf_mimeType f)) &&
  negb (PyStr.startswith "." (PyStr.get_default (rf_name f))).

(** The keys are computed for every element, in order, before any
    comparison; the first failure is the one raised. *)
Fixpoint keyed (l : list RemoteFile) : result (list (datetime * RemoteFile)) :=
  match l with
  | [] => Ok []
  | f :: l' =>
      match parse_dt f with
      | Ok k =>
          match keyed l' with
          | Ok kl => Ok ((k, f) :: kl)
          | Raise e => Raise e
          | Diverge => Diverge
          end
      | Raise e => Raise e
      | Diverge => Diverge
      end
  end.

Definition pick_latest_image (files : list RemoteFile) : result (option RemoteFile) :=
  let image_candidates := filter is_image_candidate files in
  match image_candidates with
  | [] => Ok None
  | _ =>
      match keyed image_candidates with
      | Ok kl =>
          if comparable (map fst kl)
          then Ok (option_map snd
                     (hd_error (sort_by_reverse Z.leb (fun kf => dt_micros (fst kf)) kl)))
          else Raise (TypeError "can't compare offset-naive and offset-aware datetimes")
      | Raise e => Raise e
      | Diverge => Diverge
      end
  end.
End PickLatestImage.

(** [d.get(k)] *)
Fixpoint dict_get (d : list (string * pyval)) (k : string) : option pyval :=
  match d with
  | [] => None
  | (k', v) :: d' => if (k' =? k)%string then Some v else dict_get d' k
  end.

(** ** Normalisation of the generation result, lines 170-188 *)

Section Normalize.
(** [os.path.exists] *)
Variable path_exists : string -> bool.

(** [isinstance(v, str) and os.path.exists(v)] *)
Definition existing_str (v : pyval) : option string :=
  match v with
  | PyStr s => if path_exists s then Some s else None
  | _ => None
  end.

Fixpoint first_existing (items : list pyval) : option string :=
  match items with
  | [] => None
  | item :: rest =>
      match existing_str item with
      | Some p => Some p
      | None => first_existing rest
      end
  end.

Definition RESULT_KEYS : list string := ["video"; "path"; "output"; "file"].

Fixpoint first_under_keys (d : list (string * pyval)) (keys : list string) : option string :=
  match keys with
  | [] => None
  | k :: keys' =>
      match dict_get d k with
      | Some v =>
          match existing_str v with
          | Some p => Some p
          | None => first_under_keys d keys'
          end
      | None => first_under_keys d keys'
      end
  end.

Definition normalize_result (res : pyval) : result string :=
  match existing_str res with
  | Some p => Ok p
  | None =>
      match (match res with
             | PyList l | PyTuple l => first_existing l
             | _ => None
             end) with
      | Some p => Ok p
      | None =>
          match (match res with
                 | PyDict d => first_under_keys d RESULT_KEYS
                 | _ => None
                 end) with
          | Some p => Ok p
          | None => Raise (UnexpectedHFOutput res)
          end
      end
  end.
End Normalize.

(** ** The environment and the history of external calls *)

(** One page of [drive.files().list(...).execute()] *)
Record ListResponse : Type := mkResp {
  resp_files : option (list RemoteFile);
  resp_nextPageToken : option string
}.

(** One event per call that leaves the process, with the answer it got. *)
Inductive Event : Type :=
| EvBuildDrive (sa_json : string) (r : option exn)
| EvList (q : string) (pageToken : option string) (r : exn + ListResponse)
| EvDownload (file_id out_path : string) (r : option exn)
| EvChunk (file_id out_path : string) (r : exn + bool)
| EvClose (out_path : string) (r : option exn)
| EvUpload (local_path folder_id out_name : string) (r : exn + string)
| EvRename (file_id new_name : string) (r : option exn)
| EvClient (space : string) (hf_token : option string) (r : option exn)
| EvViewApi (r : exn + pyval)
| EvPredict (api_name image_path video_path mode quality : string) (r : exn + pyval)
| EvSleep (secs : Z)
| EvTmpEnter (r : exn + string)
| EvTmpExit.

Definition history : Type := list Event.

(** The oracles.  [inl e] or [Some e] is the exception raised by the call.
    [get_media] stands for the opening of a download (the request and the
    local file of lines 96-98), [next_chunk] for one round of its loop, whose
    answer is the flag [done], and [close_file] for [fh.close()]. *)
Record Env : Type := mkEnv {
  environ : string -> option string;
  fromisoformat : string -> option datetime;
  path_exists : history -> string -> bool;
  build_service : history -> string -> option exn;
  files_list : history -> string -> option string -> exn + ListResponse;
  get_media : history -> string -> string -> option exn;
  next_chunk : history -> string -> string -> exn + bool;
  close_file : history -> string -> option exn;
  files_create : history -> string -> string -> string -> exn + string;
  files_update : history -> string -> string -> option exn;
  new_client : history -> string -> option string -> option exn;
  view_api : history -> exn + pyval;
  predict : history -> string -> string -> string -> string -> string -> exn + pyval;
  mkdtemp : history -> exn + string
}.

(** Computations read the environment and extend the history. *)
Definition M (A : Type) : Type := Env -> history -> history * result A.

Definition ret {A} (a : A) : M A := fun _ h => (h, Ok a).
Definition raise {A} (e : exn) : M A := fun _ h => (h, Raise e).
Definition lift {A} (r : result A) : M A := fun _ h => (h, r).

Definition bind {A B} (c : M A) (k : A -> M B) : M B :=
  fun env h =>
    match c env h with
    | (h', Ok a) => k a env h'
    | (h', Raise e) => (h', Raise e)
    | (h', Diverge) => (h', Diverge)
    end.

Declare Scope py_scope.
Delimit Scope py_scope with py.
Notation "x <- c ;; k" := (bind c (fun x => k))
  (at level 61, c at next level, right associativity) : py_scope.
Notation "c ;; k" := (bind c (fun _ => k))
  (at level 61, right associativity) : py_scope.
Local Open Scope py_scope.

(** An external call returning a value, and one returning nothing *)
Definition call {A} (oracle : Env -> history -> exn + A)
    (ev : (exn + A) -> Event) : M A :=
  fun env h =>
    let r := oracle env h in
    (ev r :: h, match r with inl e => Raise e | inr a => Ok a end).

Definition call_unit (oracle : Env -> history -> option exn)
    (ev : option exn -> Event) : M unit :=
  fun env h =>
    let r := oracle env h in
    (ev r :: h, match r with Some e => Raise e | None => Ok tt end).

(** [env_required], lines 28-32 *)
Definition env_required (name : string) : M string :=
  fun env h =>
    let v := environ env name in
    if negb (PyStr.truthy v) then (h, Raise (MissingEnvVar name))
    else (h, Ok (PyStr.get_default v)).

(** [build_drive], lines 35-42 *)
Definition build_drive : M unit :=
  sa_json <- env_required "GDRIVE_SA_JSON" ;;
  call_unit (fun env h => build_service env h sa_json) (EvBuildDrive sa_json).

(** [list_files_in_folder], lines 45-66.  [fuel] bounds the number of pages
    fetched by the [while True] loop. *)
Definition list_query (folder_id : string) (mime_prefix : option string) : string :=
  let q := "'" ++ folder_id ++ "' in parents and trashed = false" in
  if PyStr.truthy mime_prefix
  then q ++ " and mimeType contains '" ++ PyStr.get_default mime_prefix ++ "'"
  else q.

(** [resp.get("files", [])] *)
Definition page_files (resp : ListResponse) : list RemoteFile :=
  match resp_files resp with
  | Some l => l
  | None => []
  end.

Fixpoint list_pages (fuel : nat) (q : string) (page_token : option string)
    (files : list RemoteFile) : M (list RemoteFile) :=
  match fuel with
  | O => lift Diverge
  | S fuel' =>
      resp <- call (fun env h => files_list env h q page_token) (EvList q page_token) ;;
      let files := (files ++ page_files resp)%list in
      let page_token := resp_nextPageToken resp in
      if negb (PyStr.truthy page_token) then ret files
      else list_pages fuel' q page_token files
  end.

Definition list_files_in_folder (fuel : nat) (folder_id : string)
    (mime_prefix : option string) : M (list RemoteFile) :=
  list_pages fuel (list_query folder_id mime_prefix) None [].

(** The loop [while not done] of lines 99-101.  [fuel] bounds the number of
    chunks fetched; a download that is never done diverges. *)
Fixpoint next_chunks (fuel : nat) (file_id out_path : string) : M unit :=
  match fuel with
  | O => lift Diverge
  | S fuel' =>
      done <- call (fun env h => next_chunk env h file_id out_path)
                   (EvChunk file_id out_path) ;;
      if negb done then next_chunks fuel' file_id out_path
      else ret tt
  end.

(** [download_file], lines 95-102.  The file is closed only when the loop
    has ended without an exception. *)
Definition download_file (fuel : nat) (file_id out_path : string) : M unit :=
  call_unit (fun env h => get_media env h file_id out_path) (EvDownload file_id out_path) ;;
  next_chunks fuel file_id out_path ;;
  call_unit (fun env h => close_file env h out_path) (EvClose out_path).

(** [upload_file_to_folder], lines 105-114; the answer is [created["id"]] *)
Definition upload_file_to_folder (local_path folder_id out_name : string) : M string :=
  call (fun env h => files_create env h local_path folder_id out_name)
       (EvUpload local_path folder_id out_name).

(** [rename_file], lines 117-123 *)
Definition rename_file (file_id new_name : string) : M unit :=
  call_unit (fun env h => files_update env h file_id new_name) (EvRename file_id new_name).

(** [time.sleep] *)
Definition sleep (secs : Z) : M unit := fun _ h => (EvSleep secs :: h, Ok tt).

(** ** Endpoint resolution: [find_best_api_name], lines 126-152 *)

Definition py_truthy (v : pyval) : bool :=
  match v with
  | PyNone => false
  | PyBool b => b
  | PyInt z => negb (z =? 0)
  | PyStr s => negb (s =? "")%string
  | PyList l | PyTuple l => match l with [] => false | _ => true end
  | PyDict d => match d with [] => false | _ => true end
  end.

(** [len(v)]; [None] is [TypeError] *)
Definition py_len (v : pyval) : option nat :=
  match v with
  | PyStr s => Some (String.length s)
  | PyList l | PyTuple l => Some (List.length l)
  | PyDict d => Some (List.length d)
  | _ => None
  end.

(** The [for] loop of lines 143-147; [None] when it ends without [break]. *)
Fixpoint scan_endpoints (endpoints : list (string * pyval)) : result (option string) :=
  match endpoints with
  | [] => Ok None
  | (api_name, meta) :: rest =>
      match meta with
      | PyDict m =>
          let inputs := match dict_get m "parameters" with
                        | Some v => v
                        | None => PyList []
                        end in
          match py_len inputs with
          | Some n => if Nat.eqb n 4 then Ok (Some api_name) else scan_endpoints rest
          | None => Raise (TypeError "len")
          end
      | _ => Raise (AttributeError "get")
      end
  end.

Definition pick_endpoint (api : pyval) : result string :=
  let endpoints :=
    match api with
    | PyDict d => match dict_get d "named_endpoints" with
                  | Some v => v
                  | None => PyDict []
                  end
    | _ => PyDict []
    end in
  if negb (py_truthy endpoints) then Ok "/predict"
  else
    match endpoints with
    | PyDict eps =>
        match scan_endpoints eps with
        | Ok best =>
            if negb (PyStr.truthy best)
            then match eps with
                 | (first, _) :: _ => Ok first
                 | [] => Raise (ExternalError "StopIteration")
                 end
            else Ok (PyStr.get_default best)
        | Raise e => Raise e
        | Diverge => Diverge
        end
    | _ => Raise (AttributeError "items")
    end.

Definition find_best_api_name : M string :=
  fun env h =>
    let r := view_api env h in
    let h' := EvViewApi r :: h in
    match r with
    | inl _ => (h', Ok "/predict")
    | inr api => (h', pick_endpoint api)
    end.

(** ** The generation call: [call_wan2_2], lines 155-196 *)

(** The body of the [try], lines 163-188 *)
Definition attempt_once (api_name image_path video_path : string) : M string :=
  fun env h =>
    let r := predict env h api_name image_path video_path WAN_MODE WAN_QUALITY in
    let h' := EvPredict api_name image_path video_path WAN_MODE WAN_QUALITY r :: h in
    match r with
    | inl e => (h', Raise e)
    | inr res => (h', normalize_result (path_exists env h') res)
    end.

(** The [for attempt in range(...)] loop with [n] iterations left *)
Fixpoint attempts (retries : Z) (api_name image_path video_path : string)
    (n : nat) (attempt : Z) (last_err : option exn) : M string :=
  match n with
  | O => raise (HFCallFailed retries last_err)
  | S n' =>
      fun env h =>
        match attempt_once api_name image_path video_path env h with
        | (h', Ok p) => (h', Ok p)
        | (h', Raise e) =>
            (sleep (Z.min 60 (5 * attempt)) ;;
             attempts retries api_name image_path video_path n' (attempt + 1) (Some e))
              env h'
        | (h', Diverge) => (h', Diverge)
        end
  end.

Definition call_wan2_2 (api_name image_path video_path : string) (retries : Z) : M string :=
  attempts retries api_name image_path video_path (Z.to_nat retries) 1 None.

(** ** The run: [main], lines 199-262 *)

(** The body of the [for f in todo] loop, lines 236-260 *)
Definition main_item (fuel : nat) (out_folder api_name tmp img_path : string)
    (f : RemoteFile) : M unit :=
  name <- lift (getitem "name" (rf_name f)) ;;
  size <- lift (declared_size f) ;;
  if too_large size then ret tt
  else
    let video_path := OsPath.join tmp (safe_filename name) in
    file_id <- lift (getitem "id" (rf_id f)) ;;
    download_file fuel file_id video_path ;;
    out_local <- call_wan2_2 api_name img_path video_path 5 ;;
    let base := fst (OsPath.splitext name) in
    let out_name := base ++ "__MIX__PRO.mp4" in
    upload_file_to_folder out_local out_folder out_name ;;
    let new_in_name := base ++ PROCESSED_TAG ++ ".mp4" in
    file_id' <- lift (getitem "id" (rf_id f)) ;;
    rename_file file_id' new_in_name.

Fixpoint main_loop (fuel : nat) (out_folder api_name tmp img_path : string)
    (todo : list RemoteFile) : M unit :=
  match todo with
  | [] => ret tt
  | f :: rest =>
      main_item fuel out_folder api_name tmp img_path f ;;
      main_loop fuel out_folder api_name tmp img_path rest
  end.

(** [with tempfile.TemporaryDirectory() as tmp]: the directory is removed on
    every way out of the body. *)
Definition with_tmp {A} (body : string -> M A) : M A :=
  fun env h =>
    let r := mkdtemp env h in
    match r with
    | inl e => (EvTmpEnter r :: h, Raise e)
    | inr tmp =>
        match body tmp env (EvTmpEnter r :: h) with
        | (h', Diverge) => (h', Diverge)
        | (h', o) => (EvTmpExit :: h', o)
        end
    end.

(** [main].  [fuel] bounds the rounds of each loop that waits for the drive:
    the pages fetched by a listing, the chunks fetched by a download.  The test
    [if not latest_img] is the test for [None]: a candidate has a mime type,
    so its dictionary is not empty. *)
Definition main (fuel : nat) : M unit :=
  pic_folder <- env_required "PIC_FOLDER_ID" ;;
  ref_folder <- env_required "REF_FOLDER_ID" ;;
  out_folder <- env_required "OUT_FOLDER_ID" ;;
  build_drive ;;
  pic_files <- list_files_in_folder fuel pic_folder (Some "image/") ;;
  latest <- (fun env h => (h, pick_latest_image (fromisoformat env) pic_files)) ;;
  match latest with
  | None => raise NoImageFound
  | Some latest_img =>
      ref_files <- list_files_in_folder fuel ref_folder (Some "video/") ;;
      let todo := todo_of ref_files in
      match todo with
      | [] => ret tt
      | _ =>
          (fun env h =>
             let hf_token := environ env "HF_TOKEN" in
             call_unit (fun env h =>
                          new_client env h SPACE_ID
                            (if PyStr.truthy hf_token then hf_token else None))
                       (EvClient SPACE_ID (if PyStr.truthy hf_token then hf_token else None))
                       env h) ;;
          api_name <- find_best_api_name ;;
          with_tmp (fun tmp =>
            img_name <- lift (getitem "name" (rf_name latest_img)) ;;
            let img_path := OsPath.join tmp (safe_filename img_name) in
            img_id <- lift (getitem "id" (rf_id latest_img)) ;;
            download_file fuel img_id img_path ;;
            main_loop fuel out_folder api_name tmp img_path todo)
      end
  end.

(** ** Specification-side definitions *)

(** Every character of [s] passes the test [p]. *)
Definition chars_satisfy (p : ascii -> bool) (s : string) : Prop :=
  forall c, In c (list_ascii_of_string s) -> p c = true.

(** [needle] occurs in [hay] as a substring. *)
Definition occurs_in (needle hay : string) : Prop :=
  exists pre post, hay = pre ++ needle ++ post.

(** The value is a string that names an existing local file. *)
Definition is_existing_file (ex : string -> bool) (v : pyval) : Prop :=
  exists p, v = PyStr p /\ ex p = true.

(** Result normalisation as the design describes it: which path, if any, a
    raw result stands for. *)
Inductive normalizes_to (ex : string -> bool) : pyval -> string -> Prop :=
| norm_string p :
    ex p = true ->
    normalizes_to ex (PyStr p) p
| norm_list l1 p l2 :
    ex p = true ->
    (forall v, In v l1 -> ~ is_existing_file ex v) ->
    normalizes_to ex (PyList (l1 ++ PyStr p :: l2)) p
| norm_tuple l1 p l2 :
    ex p = true ->
    (forall v, In v l1 -> ~ is_existing_file ex v) ->
    normalizes_to ex (PyTuple (l1 ++ PyStr p :: l2)) p
| norm_dict d ks1 k ks2 p :
    ["video"; "path"; "output"; "file"] = (ks1 ++ k :: ks2)%list ->
    dict_get d k = Some (PyStr p) ->
    ex p = true ->
    (forall k' v, In k' ks1 -> dict_get d k' = Some v -> ~ is_existing_file ex v) ->
    normalizes_to ex (PyDict d) p.

(** A non-hidden image: the candidates of the reference-image choice. *)
Definition image_candidate (f : RemoteFile) : Prop :=
  String.prefix "image/" (PyStr.get_default (rf_mimeType f)) = true /\
  String.prefix "." (PyStr.get_default (rf_name f)) = false.

(** Ascending order of the queue keys *)
Definition key_le (a b : RemoteFile) : Prop :=
  String.leb (todo_key a) (todo_key b) = true.

(** *** The times of the drive

    Drive writes its times as RFC 3339 stamps in UTC with milliseconds,
    [YYYY-MM-DDTHH:MM:SS.mmmZ].  A [civil] is the reading of such a stamp. *)
Record civil : Type := mkCivil {
  c_year : Z; c_month : Z; c_day : Z;
  c_hour : Z; c_minute : Z; c_second : Z; c_milli : Z
}.

Definition leap (y : Z) : bool :=
  ((y mod 4 =? 0) && negb (y mod 100 =? 0)) || (y mod 400 =? 0).

Definition days_in_month (y m : Z) : Z :=
  if m =? 2 then (if leap y then 29 else 28)
  else if (m =? 4) || (m =? 6) || (m =? 9) || (m =? 11) then 30
  else 31.

Definition in_range (lo x hi : Z) : bool := (lo <=? x) && (x <=? hi).

(** A date of the calendar and a time of the day *)
Definition valid_civil (c : civil) : bool :=
  in_range 0 (c_year c) 9999 && in_range 1 (c_month c) 12 &&
  in_range 1 (c_day c) (days_in_month (c_year c) (c_month c)) &&
  in_range 0 (c_hour c) 23 && in_range 0 (c_minute c) 59 &&
  in_range 0 (c_second c) 59 && in_range 0 (c_milli c) 999.

(** The days from 0001-01-01 to the first day of the year, and from the first
    day of the year to the first day of the month *)
Definition days_before_year (y : Z) : Z :=
  365 * (y - 1) + (y - 1) / 4 - (y - 1) / 100 + (y - 1) / 400.

Definition days_before_month (y m : Z) : Z :=
  let l := if leap y then 1 else 0 in
  if m =? 1 then 0 else if m =? 2 then 31
  else if m =? 3 then 59 + l else if m =? 4 then 90 + l
  else if m =? 5 then 120 + l else if m =? 6 then 151 + l
  else if m =? 7 then 181 + l else if m =? 8 then 212 + l
  else if m =? 9 then 243 + l else if m =? 10 then 273 + l
  else if m =? 11 then 304 + l else 334 + l.

(** The number of the day, counted from 1970-01-01 *)
Definition day_number (y m d : Z) : Z :=
  days_before_year y + days_before_month y m + (d - 1) - 719162.

(** The instant of a reading, in milliseconds since 1970-01-01T00:00:00 UTC *)
Definition instant (c : civil) : Z :=
  (((day_number (c_year c) (c_month c) (c_day c) * 24 + c_hour c) * 60
    + c_minute c) * 60 + c_second c) * 1000 + c_milli c.

Definition digit_char (d : Z) : ascii := ascii_of_N (Z.to_N (48 + d)).

Definition digits2 (n : Z) : string :=
  String (digit_char (n / 10)) (String (digit_char (n mod 10)) EmptyString).
Definition digits3 (n : Z) : string :=
  String (digit_char (n / 100)) (digits2 (n mod 100)).
Definition digits4 (n : Z) : string :=
  String (digit_char (n / 1000)) (digits3 (n mod 1000)).

(** The stamp Drive writes for a reading *)
Definition drive_stamp (c : civil) : string :=
  digits4 (c_year c) ++ "-" ++ digits2 (c_month c) ++ "-" ++ digits2 (c_day c) ++ "T" ++
  digits2 (c_hour c) ++ ":" ++ digits2 (c_minute c) ++ ":" ++ digits2 (c_second c) ++ "." ++
  digits3 (c_milli c) ++ "Z".

(** The stamp [s] is a time of the drive, and [t] is its instant. *)
Definition stamp_time (s : string) (t : Z) : Prop :=
  exists c, valid_civil c = true /\ s = drive_stamp c /\ t = instant c.

(** The time a video is queued by: its modification time, and its creation
    time when it has no modification time. *)
Definition item_time (f : RemoteFile) (t : Z) : Prop :=
  match rf_modifiedTime f with
  | Some s => stamp_time s t
  | None =>
      match rf_createdTime f with
      | Some s => stamp_time s t
      | None => False
      end
  end.

(** Ascending order of time *)
Definition time_le (a b : RemoteFile) : Prop :=
  exists ta tb, item_time a ta /\ item_time b tb /\ ta <= tb.

(** Counting the generation calls of a history, and listing its pauses in the
    order they were taken. *)
Fixpoint predict_count (h : history) : nat :=
  match h with
  | [] => O
  | EvPredict _ _ _ _ _ _ :: h' => S (predict_count h')
  | _ :: h' => predict_count h'
  end.

Fixpoint sleeps_newest_first (h : history) : list Z :=
  match h with
  | [] => []
  | EvSleep s :: h' => s :: sleeps_newest_first h'
  | _ :: h' => sleeps_newest_first h'
  end.

Definition sleeps (h : history) : list Z := rev (sleeps_newest_first h).

(** The outcome of one attempt made when the history is [h] *)
Definition attempt_outcome (env : Env) (api_name image_path video_path : string)
    (h : history) : result string :=
  snd (attempt_once api_name image_path video_path env h).

(** The history the design prescribes once the first [k] attempts of a call
    started at [h0] have failed: each failed attempt is followed by one pause
    of [min(60, 5 * attempt)]. *)
Fixpoint after_failures (env : Env) (api_name image_path video_path : string)
    (h0 : history) (k : nat) : history :=
  match k with
  | O => h0
  | S k' =>
      let h := after_failures env api_name image_path video_path h0 k' in
      EvSleep (Z.min 60 (5 * Z.of_nat (S k')))
        :: EvPredict api_name image_path video_path WAN_MODE WAN_QUALITY
             (predict env h api_name image_path video_path WAN_MODE WAN_QUALITY)
        :: h
  end.

(** An endpoint description declares [n] parameters. *)
Definition declares (meta : pyval) (n : nat) : Prop :=
  exists m,
    meta = PyDict m /\
    py_len (match dict_get m "parameters" with Some v => v | None => PyList [] end) = Some n.

(** The item was returned by a listing of the video folder [ref_folder]
    recorded in the history. *)
Definition listed_video (ref_folder : string) (h : history) (f : RemoteFile) : Prop :=
  exists tok resp files,
    In (EvList (list_query ref_folder (Some "video/")) tok (inr resp)) h /\
    resp_files resp = Some files /\ In f files.

(** The generation call made for the video [name]: its normalised answer is
    the artifact [local_path], and it is the newest event of [h]. *)
Definition generated_for (env : Env) (name local_path : string) (h : history) : Prop :=
  exists api_name image_path tmp res rest,
    h = EvPredict api_name image_path (OsPath.join tmp (safe_filename name))
          WAN_MODE WAN_QUALITY (inr res) :: rest /\
    normalize_result (path_exists env h) res = Ok local_path.

(** The shape of the upload and rename events of a run.  An upload goes to
    the output folder under the name derived from a video that the drive had
    listed before under a name without the processing marker, and the file it
    sends is the artifact of the generation call made just before for that
    video; a rename is issued for such an item right after the successful
    upload of its output. *)
Fixpoint run_ok (env : Env) (out_folder ref_folder : string) (h : history) : Prop :=
  match h with
  | [] => True
  | EvRename file_id new_name _ :: rest =>
      (exists f name local_path out_id rest',
          listed_video ref_folder rest f /\
          ~ occurs_in PROCESSED_TAG name /\
          rf_name f = Some name /\ rf_id f = Some file_id /\
          new_name = processed_name_of name /\
          rest = EvUpload local_path out_folder (out_name_of name) (inr out_id) :: rest' /\
          generated_for env name local_path rest') /\
      run_ok env out_folder ref_folder rest
  | EvUpload local_path folder out_name _ :: rest =>
      (exists f name,
          listed_video ref_folder rest f /\
          ~ occurs_in PROCESSED_TAG name /\
          rf_name f = Some name /\ out_name = out_name_of name /\ folder = out_folder /\
          generated_for env name local_path rest) /\
      run_ok env out_folder ref_folder rest
  | _ :: rest => run_ok env out_folder ref_folder rest
  end.

(** The drive serves the listing asked with query [q] in the pages [pages]:
    starting from the history [h] and the page token [tok], each answer but
    the last carries a token for the next page. *)
Inductive served (env : Env) (q : string) :
    history -> option string -> list ListResponse -> Prop :=
| served_last h tok resp :
    files_list env h q tok = inr resp ->
    PyStr.truthy (resp_nextPageToken resp) = false ->
    served env q h tok [resp]
| served_more h tok resp rest :
    files_list env h q tok = inr resp ->
    PyStr.truthy (resp_nextPageToken resp) = true ->
    served env q (EvList q tok (inr resp) :: h) (resp_nextPageToken resp) rest ->
    served env q h tok (resp :: rest).

(** Equality of two histories up to the bracketing of the appends *)
Ltac hist_eq := cbn [fst app]; rewrite <- ?app_assoc; cbn [app]; reflexivity.

(** The history left by a listing that the drive served in the pages
    [pages]: one request per page, each with the token of the page before. *)
Fixpoint listing_history (q : string) (h : history) (tok : option string)
    (pages : list ListResponse) : history :=
  match pages with
  | [] => h
  | resp :: rest =>
      listing_history q (EvList q tok (inr resp) :: h) (resp_nextPageToken resp) rest
  end.

(** The drive completes the transfer of [file_id] in [n] chunks, starting
    from the history [h]: every chunk but the last answers that the transfer
    is not done. *)
Inductive completes (env : Env) (file_id out_path : string) : history -> nat -> Prop :=
| completes_last h :
    next_chunk env h file_id out_path = inr true ->
    completes env file_id out_path h 1
| completes_more h n :
    next_chunk env h file_id out_path = inr false ->
    completes env file_id out_path (EvChunk file_id out_path (inr false) :: h) n ->
    completes env file_id out_path h (S n).

(** The history left by a transfer completed in [n] chunks *)
Fixpoint chunk_history (file_id out_path : string) (h : history) (n : nat) : history :=
  match n with
  | O => h
  | S n' =>
      match n' with
      | O => EvChunk file_id out_path (inr true) :: h
      | S _ => chunk_history file_id out_path (EvChunk file_id out_path (inr false) :: h) n'
      end
  end.

(** Events other than the creation of the temporary directory *)
Definition not_entered (e : Event) : Prop :=
  match e with
  | EvTmpEnter (inr _) => False
  | _ => True
  end.

(** The events of a transfer under way: its chunks and the closing of its
    file *)
Definition transfer (e : Event) : Prop :=
  match e with
  | EvChunk _ _ _ | EvClose _ _ => True
  | _ => False
  end.

(** Events other than uploads and renames *)
Definition neutral (e : Event) : Prop :=
  match e with
  | EvUpload _ _ _ _ | EvRename _ _ _ => False
  | _ => True
  end.

(** ** A concrete environment, used to run the model *)

Module Sample.

(** An instance of [datetime.fromisoformat] for the timestamps Drive emits,
    [YYYY-MM-DDTHH:MM:SS(.fff|.ffffff)?(+HH:MM|-HH:MM)?]; a stamp with an
    offset gives an aware datetime, one without a naive datetime. *)
Fixpoint all_digits (s : string) : bool :=
  match s with
  | EmptyString => true
  | String c t => is_digit c && all_digits t
  end.

Definition num (s : string) (i n : nat) : option Z :=
  let d := String.substring i n s in
  if Nat.eqb (String.length d) n && all_digits d then parse_digits d 0 false else None.

Definition char_is (s : string) (i : nat) (c : ascii) : bool :=
  match String.get i s with
  | Some a => Ascii.eqb a c
  | None => false
  end.

Definition days_from_civil (y m d : Z) : Z :=
  let y' := if m <=? 2 then y - 1 else y in
  let era := y' / 400 in
  let yoe := y' - era * 400 in
  let doy := (153 * (if 2 <? m then m - 3 else m + 9) + 2) / 5 + d - 1 in
  let doe := yoe * 365 + yoe / 4 - yoe / 100 + doy in
  era * 146097 + doe - 719468.

Definition fraction (s : string) : option (Z * string) :=
  match s with
  | String "." t =>
      match num t 0 6, num t 0 3 with
      | Some us, _ => Some (us, String.substring 6 (String.length t - 6) t)
      | None, Some ms => Some (ms * 1000, String.substring 3 (String.length t - 3) t)
      | None, None => None
      end
  | _ => Some (0, s)
  end.

(** The offset in minutes; [Some None] when the stamp has none *)
Definition offset (s : string) : option (option Z) :=
  match s with
  | EmptyString => Some None
  | String sign t =>
      if Nat.eqb (String.length t) 5 && char_is t 2 ":" then
        match num t 0 2, num t 3 2 with
        | Some hh, Some mm =>
            if (sign =? "+")%char then Some (Some (hh * 60 + mm))
            else if (sign =? "-")%char then Some (Some (- (hh * 60 + mm)))
            else None
        | _, _ => None
        end
      else None
  end.

Definition iso_instant (s : string) : option datetime :=
  if char_is s 4 "-" && char_is s 7 "-" && char_is s 10 "T" &&
     char_is s 13 ":" && char_is s 16 ":" then
    match num s 0 4, num s 5 2, num s 8 2, num s 11 2, num s 14 2, num s 17 2 with
    | Some y, Some m, Some d, Some hh, Some mi, Some ss =>
        match fraction (String.substring 19 (String.length s - 19) s) with
        | Some (us, rest) =>
            match offset rest with
            | Some off =>
                let minutes := match off with Some o => o | None => 0 end in
                Some (mkDatetime
                        (match off with Some _ => true | None => false end)
                        ((((days_from_civil y m d * 24 + hh) * 60 + mi - minutes) * 60 + ss)
                         * 1000000 + us))
            | None => None
            end
        | None => None
        end
    | _, _, _, _, _, _ => None
    end
  else None.

Definition file (id name mime created modified : string) (size : option string) : RemoteFile :=
  mkFile (Some id) (Some name) (Some mime) (Some created) (Some modified) size.

Definition I1 := file "i1" "hero_old.png" "image/png"
  "2024-01-01T08:00:00.000Z" "2024-01-02T08:00:00.000Z" (Some "1000").
Definition I2 := file "i2" "hero_new.png" "image/png"
  "2024-02-01T08:00:00.000Z" "2024-02-03T09:30:00.000Z" (Some "2000").
Definition HIDDEN := file "i3" ".thumb.png" "image/png"
  "2024-03-01T08:00:00.000Z" "2024-03-01T08:00:00.000Z" (Some "10").

Definition V1 := file "v1" "dance.mov" "video/quicktime"
  "2024-01-05T10:00:00.000Z" "2024-01-05T10:00:00.000Z" (Some "5000000").
Definition V2 := file "v2" "walk.mp4" "video/mp4"
  "2024-01-06T10:00:00.000Z" "2024-01-07T10:00:00.000Z" (Some "7000000").
Definition V3 := file "v3" "jump__PROCESSED.mp4" "video/mp4"
  "2024-01-01T10:00:00.000Z" "2024-01-01T10:00:00.000Z" (Some "100").
Definition V4 := file "v4" "huge.mp4" "video/mp4"
  "2024-01-02T10:00:00.000Z" "2024-01-02T10:00:00.000Z" (Some "209715201").
Definition V5 := file "v5" "nosize.mp4" "video/mp4"
  "2024-01-03T10:00:00.000Z" "2024-01-03T10:00:00.000Z" None.

Definition sample_environ (name : string) : option string :=
  if (name =? "PIC_FOLDER_ID")%string then Some "pics"
  else if (name =? "REF_FOLDER_ID")%string then Some "refs"
  else if (name =? "OUT_FOLDER_ID")%string then Some "out"
  else if (name =? "GDRIVE_SA_JSON")%string then Some "{}"
  else None.

Definition api_descriptor : pyval :=
  PyDict [("named_endpoints",
           PyDict [("/status", PyDict [("parameters", PyList [])]);
                   ("/animate", PyDict [("parameters",
                       PyList [PyStr "image"; PyStr "video"; PyStr "mode"; PyStr "quality"])]);
                   ("/other", PyDict [("parameters",
                       PyList [PyInt 1; PyInt 2; PyInt 3; PyInt 4])])])].

(** A well-behaved world: one page per listing, every call succeeds and the
    Space answers with the path of a file that exists. *)
Definition good : Env := {|
  environ := sample_environ;
  fromisoformat := iso_instant;
  path_exists := fun _ p => (p =? "/tmp/gradio/out.mp4")%string;
  build_service := fun _ _ => None;
  files_list := fun _ q _ =>
    inr (mkResp (Some (if PyStr.contains "image/" q then [I1; HIDDEN; I2]
                       else [V2; V3; V4; V1; V5])) None);
  get_media := fun _ _ _ => None;
  next_chunk := fun _ _ _ => inr true;
  close_file := fun _ _ => None;
  files_create := fun _ _ _ name => inr ("id-of-" ++ name);
  files_update := fun _ _ _ => None;
  new_client := fun _ _ _ => None;
  view_api := fun _ => inr api_descriptor;
  predict := fun _ _ _ _ _ _ => inr (PyStr "/tmp/gradio/out.mp4");
  mkdtemp := fun _ => inr "/tmp/tmpabc"
|}.

(** The Space answers with a URL, which names no local file. *)
Definition url_world : Env := {|
  environ := sample_environ;
  fromisoformat := iso_instant;
  path_exists := fun _ _ => false;
  build_service := fun _ _ => None;
  files_list := fun _ q _ =>
    inr (mkResp (Some (if PyStr.contains "image/" q then [I2] else [V1])) None);
  get_media := fun _ _ _ => None;
  next_chunk := fun _ _ _ => inr true;
  close_file := fun _ _ => None;
  files_create := fun _ _ _ name => inr ("id-of-" ++ name);
  files_update := fun _ _ _ => None;
  new_client := fun _ _ _ => None;
  view_api := fun _ => inl (ExternalError "connection refused");
  predict := fun _ _ _ _ _ _ => inr (PyStr "https://example.org/out.mp4");
  mkdtemp := fun _ => inr "/tmp/tmpabc"
|}.

(** The Space fails twice with a transport error, then answers. *)
Definition flaky : Env := {|
  environ := sample_environ;
  fromisoformat := iso_instant;
  path_exists := fun _ p => (p =? "/tmp/gradio/out.mp4")%string;
  build_service := fun _ _ => None;
  files_list := fun _ q _ =>
    inr (mkResp (Some (if PyStr.contains "image/" q then [I2] else [V1])) None);
  get_media := fun _ _ _ => None;
  next_chunk := fun _ _ _ => inr true;
  close_file := fun _ _ => None;
  files_create := fun _ _ _ name => inr ("id-of-" ++ name);
  files_update := fun _ _ _ => None;
  new_client := fun _ _ _ => None;
  view_api := fun _ => inr api_descriptor;
  predict := fun h _ _ _ _ _ =>
    if Nat.ltb (predict_count h) 2 then inl (ExternalError "queue full")
    else inr (PyDict [("video", PyNone); ("path", PyStr "/tmp/gradio/out.mp4")]);
  mkdtemp := fun _ => inr "/tmp/tmpabc"
|}.

(** Transfers that need three chunks each *)
Fixpoint chunks_so_far (h : history) : nat :=
  match h with
  | EvChunk _ _ _ :: h' => S (chunks_so_far h')
  | _ => O
  end.

Definition chunked : Env := {|
  environ := sample_environ;
  fromisoformat := iso_instant;
  path_exists := fun _ p => (p =? "/tmp/gradio/out.mp4")%string;
  build_service := fun _ _ => None;
  files_list := fun _ q _ =>
    inr (mkResp (Some (if PyStr.contains "image/" q then [I2] else [V1])) None);
  get_media := fun _ _ _ => None;
  next_chunk := fun h _ _ => inr (Nat.leb 2 (chunks_so_far h));
  close_file := fun _ _ => None;
  files_create := fun _ _ _ name => inr ("id-of-" ++ name);
  files_update := fun _ _ _ => None;
  new_client := fun _ _ _ => None;
  view_api := fun _ => inr api_descriptor;
  predict := fun _ _ _ _ _ _ => inr (PyStr "/tmp/gradio/out.mp4");
  mkdtemp := fun _ => inr "/tmp/tmpabc"
|}.

(** A drive whose transfers never finish *)
Definition stalled : Env := {|
  environ := sample_environ;
  fromisoformat := iso_instant;
  path_exists := fun _ _ => false;
  build_service := fun _ _ => None;
  files_list := fun _ q _ =>
    inr (mkResp (Some (if PyStr.contains "image/" q then [I2] else [V1])) None);
  get_media := fun _ _ _ => None;
  next_chunk := fun _ _ _ => inr false;
  close_file := fun _ _ => None;
  files_create := fun _ _ _ name => inr ("id-of-" ++ name);
  files_update := fun _ _ _ => None;
  new_client := fun _ _ _ => None;
  view_api := fun _ => inr api_descriptor;
  predict := fun _ _ _ _ _ _ => inr PyNone;
  mkdtemp := fun _ => inr "/tmp/tmpabc"
|}.

(** A descriptor none of whose endpoints declares four parameters *)
Definition plain_descriptor : pyval :=
  PyDict [("named_endpoints",
           PyDict [("/run", PyDict [("parameters", PyList [PyStr "x"])]);
                   ("/stop", PyDict [])])].

Definition plain : Env := {|
  environ := sample_environ;
  fromisoformat := iso_instant;
  path_exists := fun _ p => (p =? "/tmp/gradio/out.mp4")%string;
  build_service := fun _ _ => None;
  files_list := fun _ q _ =>
    inr (mkResp (Some (if PyStr.contains "image/" q then [I2] else [V1])) None);
  get_media := fun _ _ _ => None;
  next_chunk := fun _ _ _ => inr true;
  close_file := fun _ _ => None;
  files_create := fun _ _ _ name => inr ("id-of-" ++ name);
  files_update := fun _ _ _ => None;
  new_client := fun _ _ _ => None;
  view_api := fun _ => inr plain_descriptor;
  predict := fun _ _ _ _ _ _ => inr (PyList [PyNone; PyStr "/tmp/gradio/out.mp4"]);
  mkdtemp := fun _ => inr "/tmp/tmpabc"
|}.

(** A descriptor whose [named_endpoints] entry is a list *)
Definition broken : Env := {|
  environ := sample_environ;
  fromisoformat := iso_instant;
  path_exists := fun _ _ => false;
  build_service := fun _ _ => None;
  files_list := fun _ _ _ => inr (mkResp None None);
  get_media := fun _ _ _ => None;
  next_chunk := fun _ _ _ => inr true;
  close_file := fun _ _ => None;
  files_create := fun _ _ _ name => inr ("id-of-" ++ name);
  files_update := fun _ _ _ => None;
  new_client := fun _ _ _ => None;
  view_api := fun _ => inr (PyDict [("named_endpoints", PyList [PyStr "/run"])]);
  predict := fun _ _ _ _ _ _ => inr PyNone;
  mkdtemp := fun _ => inr "/tmp/tmpabc"
|}.

(** A drive without any usable image *)
Definition no_image : Env := {|
  environ := sample_environ;
  fromisoformat := iso_instant;
  path_exists := fun _ _ => false;
  build_service := fun _ _ => None;
  files_list := fun _ q _ =>
    inr (mkResp (Some (if PyStr.contains "image/" q then [HIDDEN] else [V1])) None);
  get_media := fun _ _ _ => None;
  next_chunk := fun _ _ _ => inr true;
  close_file := fun _ _ => None;
  files_create := fun _ _ _ name => inr ("id-of-" ++ name);
  files_update := fun _ _ _ => None;
  new_client := fun _ _ _ => None;
  view_api := fun _ => inr api_descriptor;
  predict := fun _ _ _ _ _ _ => inr PyNone;
  mkdtemp := fun _ => inr "/tmp/tmpabc"
|}.

(** A drive whose videos are all marked; the listing of the videos comes in
    two pages. *)
Definition all_done : Env := {|
  environ := sample_environ;
  fromisoformat := iso_instant;
  path_exists := fun _ _ => false;
  build_service := fun _ _ => None;
  files_list := fun _ q tok =>
    if PyStr.contains "image/" q then inr (mkResp (Some [I1; I2]) None)
    else match tok with
         | None => inr (mkResp (Some [V3]) (Some "page2"))
         | Some _ => inr (mkResp None None)
         end;
  get_media := fun _ _ _ => None;
  next_chunk := fun _ _ _ => inr true;
  close_file := fun _ _ => None;
  files_create := fun _ _ _ name => inr ("id-of-" ++ name);
  files_update := fun _ _ _ => None;
  new_client := fun _ _ _ => None;
  view_api := fun _ => inr api_descriptor;
  predict := fun _ _ _ _ _ _ => inr PyNone;
  mkdtemp := fun _ => inr "/tmp/tmpabc"
|}.

(** A drive that fails on the second page of a listing *)
Definition drive_down : Env := {|
  environ := sample_environ;
  fromisoformat := iso_instant;
  path_exists := fun _ _ => false;
  build_service := fun _ _ => None;
  files_list := fun _ _ tok =>
    match tok with
    | None => inr (mkResp (Some [I1]) (Some "page2"))
    | Some _ => inl (ExternalError "503")
    end;
  get_media := fun _ _ _ => None;
  next_chunk := fun _ _ _ => inr true;
  close_file := fun _ _ => None;
  files_create := fun _ _ _ name => inr ("id-of-" ++ name);
  files_update := fun _ _ _ => None;
  new_client := fun _ _ _ => None;
  view_api := fun _ => inr api_descriptor;
  predict := fun _ _ _ _ _ _ => inr PyNone;
  mkdtemp := fun _ => inr "/tmp/tmpabc"
|}.

End Sample.

(** * Properties *)

Local Open Scope list_scope.

(** ** Facts on strings *)

Section Strip.
Variable p : ascii -> bool.

Lemma lstrip_chars (q : ascii -> bool) s :
  chars_satisfy q s -> chars_satisfy q (PyStr.lstrip p s).
Proof.
  induction s as [|a t IH]; simpl; intros H; [exact H|].
  destruct (p a); [|exact H].
  apply IH. intros c Hc. apply H. simpl. now right.
Qed.

Lemma rstrip_chars (q : ascii -> bool) s :
  chars_satisfy q s -> chars_satisfy q (PyStr.rstrip p s).
Proof.
  induction s as [|a t IH]; simpl; intros H; [exact H|].
  assert (Ht : chars_satisfy q t) by (intros c Hc; apply H; simpl; now right).
  specialize (IH Ht).
  assert (Ha : q a = true) by (apply H; simpl; now left).
  destruct (PyStr.rstrip p t) as [|b u].
  - destruct (p a); intros c Hc; simpl in Hc; [contradiction|].
    destruct Hc as [<-|[]]; exact Ha.
  - intros c [<-|Hc]; [exact Ha|]. now apply IH.
Qed.

Lemma lstrip_head s a t : PyStr.lstrip p s = String a t -> p a = false.
Proof.
  induction s as [|b u IH]; simpl; [discriminate|].
  destruct (p b) eqn:E; [exact IH|].
  intros [= <- <-]. exact E.
Qed.

Lemma rstrip_head a t : p a = false -> exists t', PyStr.rstrip p (String a t) = String a t'.
Proof.
  intros E. simpl. destruct (PyStr.rstrip p t); [rewrite E|]; eauto.
Qed.

Lemma rstrip_last s t c : PyStr.rstrip p s = (t ++ String c "")%string -> p c = false.
Proof.
  revert t. induction s as [|a u IH]; intros t; simpl.
  - destruct t; discriminate.
  - destruct (PyStr.rstrip p u) as [|b v] eqn:E.
    + destruct (p a) eqn:Ea.
      * destruct t; discriminate.
      * destruct t as [|x t]; simpl; [intros [= <-]; exact Ea|].
        destruct t; discriminate.
    + destruct t as [|x t]; simpl; [discriminate|].
      intros [= _ H]. now apply (IH t).
Qed.

Lemma rstrip_idem s : PyStr.rstrip p (PyStr.rstrip p s) = PyStr.rstrip p s.
Proof.
  induction s as [|a u IH]; [reflexivity|].
  simpl. destruct (PyStr.rstrip p u) as [|b v] eqn:E.
  - destruct (p a) eqn:Ea; [reflexivity|]. simpl. now rewrite Ea.
  - change (PyStr.rstrip p (String a (String b v)))
      with (match PyStr.rstrip p (String b v) with
            | "" => if p a then "" else String a ""
            | t' => String a t'
            end).
    now rewrite IH.
Qed.

Lemma lstrip_fixed s a t : s = String a t -> p a = false -> PyStr.lstrip p s = s.
Proof. intros -> E. simpl. now rewrite E. Qed.

Lemma strip_idem s : PyStr.strip p (PyStr.strip p s) = PyStr.strip p s.
Proof.
  unfold PyStr.strip.
  destruct (PyStr.lstrip p s) as [|a t] eqn:E; [reflexivity|].
  pose proof (lstrip_head _ _ _ E) as Ea.
  destruct (rstrip_head a t Ea) as [t' Ht'].
  rewrite Ht'. rewrite (lstrip_fixed _ a t' eq_refl Ea).
  rewrite <- Ht'. apply rstrip_idem.
Qed.

Lemma strip_head s a t : PyStr.strip p s = String a t -> p a = false.
Proof.
  unfold PyStr.strip.
  destruct (PyStr.lstrip p s) as [|b u] eqn:E; [discriminate|].
  pose proof (lstrip_head _ _ _ E) as Eb.
  destruct (rstrip_head b u Eb) as [t' Ht']. rewrite Ht'.
  intros [= <- _]. exact Eb.
Qed.

Lemma strip_last s t c : PyStr.strip p s = (t ++ String c "")%string -> p c = false.
Proof. apply rstrip_last. Qed.

End Strip.

(** ** [safe_filename] *)

Lemma sub_disallowed_chars b s : chars_satisfy allowed_char (sub_disallowed b s).
Proof.
  revert b. induction s as [|c t IH]; intros b x; simpl; [contradiction|].
  destruct (allowed_char c) eqn:E.
  - intros [<-|H]; [exact E|]. now apply (IH false).
  - destruct b.
    + apply IH.
    + intros [<-|H]; [reflexivity|]. now apply (IH true).
Qed.

Lemma sub_disallowed_fixed b s : chars_satisfy allowed_char s -> sub_disallowed b s = s.
Proof.
  revert b. induction s as [|c t IH]; intros b H; [reflexivity|].
  simpl. rewrite (H c) by (simpl; now left).
  f_equal. apply IH. intros x Hx. apply H. simpl. now right.
Qed.

Lemma sub_disallowed_none b s :
  (forall c, In c (list_ascii_of_string s) -> allowed_char c = false) ->
  sub_disallowed b s = "" \/ sub_disallowed b s = "_".
Proof.
  revert b. induction s as [|c t IH]; intros b H; [now left|].
  simpl. rewrite (H c) by (simpl; now left).
  assert (Ht : forall x, In x (list_ascii_of_string t) -> allowed_char x = false)
    by (intros x Hx; apply H; simpl; now right).
  destruct b.
  - apply IH, Ht.
  - right. f_equal.
    assert (G : forall u, (forall x, In x (list_ascii_of_string u) -> allowed_char x = false) ->
                          sub_disallowed true u = "").
    { clear. induction u as [|d u IHu]; intros Hu; [reflexivity|].
      simpl. rewrite (Hu d) by (simpl; now left).
      apply IHu. intros x Hx. apply Hu. simpl. now right. }
    apply G, Ht.
Qed.

Lemma safe_filename_chars s : chars_satisfy allowed_char (safe_filename s).
Proof.
  unfold safe_filename, PyStr.strip.
  apply rstrip_chars, lstrip_chars, sub_disallowed_chars.
Qed.

(** C10.  [safe_filename] is idempotent; its result holds only characters
    of the class [a-zA-Z0-9._-] and neither begins nor ends with an
    underscore; on a name without any character of the class the result is
    the empty string. *)
Theorem safe_filename_idempotent_clean :
  forall s : string,
    safe_filename (safe_filename s) = safe_filename s /\
    (forall c, In c (list_ascii_of_string (safe_filename s)) -> allowed_char c = true) /\
    (forall t, safe_filename s <> String "_" t) /\
    (forall t, safe_filename s <> (t ++ "_")%string) /\
    ((forall c, In c (list_ascii_of_string s) -> allowed_char c = false) ->
     safe_filename s = "").
Proof.
  intros s. repeat split.
  - unfold safe_filename at 1.
    rewrite (sub_disallowed_fixed false _ (safe_filename_chars s)).
    unfold safe_filename. apply strip_idem.
  - apply safe_filename_chars.
  - intros t H. apply strip_head in H. discriminate.
  - intros t H. apply strip_last in H. discriminate.
  - intros H. unfold safe_filename.
    destruct (sub_disallowed_none false s H) as [-> | ->]; reflexivity.
Qed.

Lemma safe_filename_witness :
  (forall c, In c (list_ascii_of_string "(#!) ") -> allowed_char c = false) /\
  safe_filename "(#!) " = "".
Proof.
  assert (H : forall c, In c (list_ascii_of_string "(#!) ") -> allowed_char c = false).
  { simpl. intros c Hc. repeat (destruct Hc as [<-|Hc]; [reflexivity|]). contradiction. }
  split; [exact H|].
  exact (proj2 (proj2 (proj2 (proj2 (safe_filename_idempotent_clean "(#!) ")))) H).
Defined.

(** ** Result normalisation *)

Section NormalizeFacts.
Variable ex : string -> bool.

Lemma existing_str_Some v p : existing_str ex v = Some p <-> v = PyStr p /\ ex p = true.
Proof.
  destruct v; simpl; try (split; [discriminate | intros [? _]; discriminate]).
  destruct (ex s) eqn:E; split.
  - intros [= ->]. now split.
  - intros [[= ->] _]. reflexivity.
  - discriminate.
  - intros [[= ->] H]. congruence.
Qed.

Lemma existing_str_None v : existing_str ex v = None <-> ~ is_existing_file ex v.
Proof.
  split.
  - intros H [p Hp]. apply existing_str_Some in Hp. congruence.
  - intros H. destruct (existing_str ex v) as [p|] eqn:E; [|reflexivity].
    exfalso. apply H. exists p. now apply existing_str_Some.
Qed.

Lemma first_existing_skip l1 l2 :
  (forall v, In v l1 -> ~ is_existing_file ex v) ->
  first_existing ex (l1 ++ l2)%list = first_existing ex l2.
Proof.
  induction l1 as [|v l1 IH]; intros H; [reflexivity|].
  simpl. rewrite (proj2 (existing_str_None v)) by (apply H; now left).
  apply IH. intros w Hw. apply H. now right.
Qed.

Lemma first_existing_Some l p :
  first_existing ex l = Some p ->
  exists l1 l2, l = (l1 ++ PyStr p :: l2)%list /\ ex p = true /\
                (forall v, In v l1 -> ~ is_existing_file ex v).
Proof.
  induction l as [|v l IH]; simpl; [discriminate|].
  destruct (existing_str ex v) as [q|] eqn:E.
  - intros [= ->]. apply existing_str_Some in E as [-> Hp].
    exists [], l. repeat split; [exact Hp | intros ? []].
  - intros H. destruct (IH H) as (l1 & l2 & -> & Hp & Hl1).
    exists (v :: l1), l2. repeat split; [exact Hp|].
    intros w [<-|Hw]; [now apply existing_str_None | now apply Hl1].
Qed.

Lemma first_under_keys_skip d ks1 ks2 :
  (forall k v, In k ks1 -> dict_get d k = Some v -> ~ is_existing_file ex v) ->
  first_under_keys ex d (ks1 ++ ks2)%list = first_under_keys ex d ks2.
Proof.
  induction ks1 as [|k ks1 IH]; intros H; [reflexivity|].
  simpl. destruct (dict_get d k) as [v|] eqn:E.
  - rewrite (proj2 (existing_str_None v)) by (apply (H k); [now left | exact E]).
    apply IH. intros k' w Hk'. apply H. now right.
  - apply IH. intros k' w Hk'. apply H. now right.
Qed.

Lemma first_under_keys_Some d ks p :
  first_under_keys ex d ks = Some p ->
  exists ks1 k ks2, ks = (ks1 ++ k :: ks2)%list /\ dict_get d k = Some (PyStr p) /\ ex p = true /\
    (forall k' v, In k' ks1 -> dict_get d k' = Some v -> ~ is_existing_file ex v).
Proof.
  induction ks as [|k ks IH]; simpl; [discriminate|].
  destruct (dict_get d k) as [v|] eqn:E.
  - destruct (existing_str ex v) as [q|] eqn:Ev.
    + intros [= ->]. apply existing_str_Some in Ev as [-> Hp].
      exists [], k, ks. repeat split; [exact E | exact Hp | intros ? ? []].
    + intros H. destruct (IH H) as (ks1 & k0 & ks2 & -> & Hk0 & Hp & Hks1).
      exists (k :: ks1), k0, ks2. repeat split; [exact Hk0 | exact Hp |].
      intros k' w [<-|Hk'] Hw; [|now apply (Hks1 k')].
      rewrite E in Hw. injection Hw as <-. now apply existing_str_None.
  - intros H. destruct (IH H) as (ks1 & k0 & ks2 & -> & Hk0 & Hp & Hks1).
    exists (k :: ks1), k0, ks2. repeat split; [exact Hk0 | exact Hp |].
    intros k' w [<-|Hk'] Hw; [congruence | now apply (Hks1 k')].
Qed.

Lemma normalize_sound res p : normalizes_to ex res p -> normalize_result ex res = Ok p.
Proof.
  intros H. destruct H as [p Hp | l1 p l2 Hp Hl1 | l1 p l2 Hp Hl1 | d ks1 k ks2 p Hks Hk Hp Hks1];
    unfold normalize_result; cbn [existing_str].
  - now rewrite Hp.
  - rewrite first_existing_skip by exact Hl1. simpl. now rewrite Hp.
  - rewrite first_existing_skip by exact Hl1. simpl. now rewrite Hp.
  - change RESULT_KEYS with ["video"; "path"; "output"; "file"]. rewrite Hks.
    rewrite first_under_keys_skip by exact Hks1. simpl. rewrite Hk. simpl. now rewrite Hp.
Qed.

Lemma normalize_complete res :
  (forall p, ~ normalizes_to ex res p) ->
  normalize_result ex res = Raise (UnexpectedHFOutput res).
Proof.
  intros H. unfold normalize_result.
  destruct res as [| b | z | s | l | l | d]; cbn [existing_str]; try reflexivity.
  - destruct (ex s) eqn:E; [|reflexivity].
    exfalso. apply (H s). now constructor.
  - destruct (first_existing ex l) as [p|] eqn:E; [|reflexivity].
    exfalso. destruct (first_existing_Some _ _ E) as (l1 & l2 & -> & Hp & Hl1).
    apply (H p). now constructor.
  - destruct (first_existing ex l) as [p|] eqn:E; [|reflexivity].
    exfalso. destruct (first_existing_Some _ _ E) as (l1 & l2 & -> & Hp & Hl1).
    apply (H p). now constructor.
  - destruct (first_under_keys ex d RESULT_KEYS) as [p|] eqn:E; [|reflexivity].
    exfalso. destruct (first_under_keys_Some _ _ _ E) as (ks1 & k & ks2 & Hks & Hk & Hp & Hks1).
    apply (H p). now apply (norm_dict ex d ks1 k ks2 p).
Qed.

End NormalizeFacts.

(** C3.  Result normalisation returns the path the design names for a string,
    a sequence (list or tuple) and a mapping read under the keys video, path,
    output, file in that order; every other result raises the
    unsupported-shape error, which carries the offending result. *)
Theorem normalize_result_correct :
  forall (ex : string -> bool) (res : pyval),
    (forall p, normalizes_to ex res p -> normalize_result ex res = Ok p) /\
    ((forall p, ~ normalizes_to ex res p) ->
     normalize_result ex res = Raise (UnexpectedHFOutput res)).
Proof.
  intros ex res. split.
  - intros p. apply normalize_sound.
  - apply normalize_complete.
Qed.

Lemma normalize_result_witness :
  let ex := fun p => (p =? "/tmp/gradio/out.mp4")%string in
  normalize_result ex (PyDict [("video", PyNone); ("path", PyStr "/tmp/gradio/out.mp4")])
    = Ok "/tmp/gradio/out.mp4" /\
  normalize_result ex (PyStr "https://example.org/out.mp4")
    = Raise (UnexpectedHFOutput (PyStr "https://example.org/out.mp4")).
Proof.
  intros ex. split.
  - apply (proj1 (normalize_result_correct ex _)).
    apply (norm_dict ex _ ["video"] "path" ["output"; "file"]); try reflexivity.
    intros k' v [<-|[]] [= <-] [p [Hp _]]. discriminate.
  - apply (proj2 (normalize_result_correct ex _)).
    intros p H. inversion H; subst. discriminate.
Defined.

(** ** The order of the stamps of the drive is the order of their instants *)

Lemma compare_lex k q1 r1 q2 r2 :
  0 <= r1 < k -> 0 <= r2 < k ->
  (k * q1 + r1 ?= k * q2 + r2) =
  match q1 ?= q2 with Eq => r1 ?= r2 | c => c end.
Proof.
  intros H1 H2. destruct (Z.compare_spec q1 q2) as [->|Hlt|Hgt].
  - apply Z.add_compare_mono_l.
  - apply Z.compare_lt_iff. nia.
  - apply Z.compare_gt_iff. nia.
Qed.

Lemma digit_char_compare a b :
  0 <= a <= 9 -> 0 <= b <= 9 ->
  Ascii.compare (digit_char a) (digit_char b) = (a ?= b).
Proof.
  intros Ha Hb. unfold Ascii.compare, digit_char.
  rewrite !N_ascii_embedding by lia.
  rewrite Z2N.inj_compare by lia.
  apply Z.add_compare_mono_l.
Qed.

Lemma string_compare_cons a s b t :
  String.compare (String a s) (String b t) =
  match Ascii.compare a b with Eq => String.compare s t | c => c end.
Proof. reflexivity. Qed.

Lemma digits2_compare a b :
  0 <= a <= 99 -> 0 <= b <= 99 ->
  String.compare (digits2 a) (digits2 b) = (a ?= b).
Proof.
  intros Ha Hb. unfold digits2.
  rewrite !string_compare_cons, !digit_char_compare
    by (Z.div_mod_to_equations; lia).
  cbn [String.compare].
  rewrite (Z.div_mod a 10) at 3 by lia. rewrite (Z.div_mod b 10) at 3 by lia.
  rewrite compare_lex by (Z.div_mod_to_equations; lia).
  destruct (a / 10 ?= b / 10); try reflexivity.
  now destruct (a mod 10 ?= b mod 10).
Qed.

Lemma digits3_compare a b :
  0 <= a <= 999 -> 0 <= b <= 999 ->
  String.compare (digits3 a) (digits3 b) = (a ?= b).
Proof.
  intros Ha Hb. unfold digits3.
  rewrite string_compare_cons, digit_char_compare, digits2_compare
    by (Z.div_mod_to_equations; lia).
  rewrite (Z.div_mod a 100) at 3 by lia. rewrite (Z.div_mod b 100) at 3 by lia.
  now rewrite compare_lex by (Z.div_mod_to_equations; lia).
Qed.

Lemma digits4_compare a b :
  0 <= a <= 9999 -> 0 <= b <= 9999 ->
  String.compare (digits4 a) (digits4 b) = (a ?= b).
Proof.
  intros Ha Hb. unfold digits4.
  rewrite string_compare_cons, digit_char_compare, digits3_compare
    by (Z.div_mod_to_equations; lia).
  rewrite (Z.div_mod a 1000) at 3 by lia. rewrite (Z.div_mod b 1000) at 3 by lia.
  now rewrite compare_lex by (Z.div_mod_to_equations; lia).
Qed.

Lemma digits2_length n : String.length (digits2 n) = 2%nat.
Proof. reflexivity. Qed.
Lemma digits3_length n : String.length (digits3 n) = 3%nat.
Proof. reflexivity. Qed.
Lemma digits4_length n : String.length (digits4 n) = 4%nat.
Proof. reflexivity. Qed.

(** Two texts that begin with fields of one length are compared field by
    field. *)
Lemma compare_app a1 a2 x y :
  String.length a1 = String.length a2 ->
  String.compare (a1 ++ x) (a2 ++ y) =
  match String.compare a1 a2 with Eq => String.compare x y | c => c end.
Proof.
  revert a2. induction a1 as [|c a1 IH]; intros [|c2 a2] Hl; try discriminate.
  - reflexivity.
  - cbn [append]. rewrite !string_compare_cons.
    destruct (Ascii.compare c c2); try reflexivity.
    apply IH. now injection Hl.
Qed.

Lemma compare_sep c x y :
  String.compare (String c x) (String c y) = String.compare x y.
Proof.
  rewrite string_compare_cons. unfold Ascii.compare.
  now rewrite N.compare_refl.
Qed.

(** *** Days *)

Lemma days_before_year_succ y :
  days_before_year (y + 1) = days_before_year y + 365 + (if leap y then 1 else 0).
Proof.
  unfold days_before_year, leap. replace (y + 1 - 1) with y by lia.
  destruct (Z.eqb_spec (y mod 4) 0), (Z.eqb_spec (y mod 100) 0),
           (Z.eqb_spec (y mod 400) 0); cbn [andb orb negb];
    Z.div_mod_to_equations; lia.
Qed.

Lemma days_before_year_mono y1 y2 :
  y1 <= y2 -> days_before_year y1 + 365 * (y2 - y1) <= days_before_year y2.
Proof. unfold days_before_year. intros H. Z.div_mod_to_equations. lia. Qed.

Lemma month_cases m :
  1 <= m <= 12 ->
  m = 1 \/ m = 2 \/ m = 3 \/ m = 4 \/ m = 5 \/ m = 6 \/
  m = 7 \/ m = 8 \/ m = 9 \/ m = 10 \/ m = 11 \/ m = 12.
Proof. lia. Qed.

Ltac each_month H :=
  apply month_cases in H;
  repeat (destruct H as [H|H]); subst.

(** A month begins where the month before ends, and the year ends where its
    last month ends. *)
Lemma days_before_month_succ y m :
  1 <= m <= 11 ->
  days_before_month y (m + 1) = days_before_month y m + days_in_month y m.
Proof.
  intros H. assert (H' : 1 <= m <= 12) by lia.
  each_month H'; try lia; unfold days_before_month, days_in_month;
    cbn [Z.eqb Z.add Pos.eqb Pos.add Pos.succ orb]; destruct (leap y); lia.
Qed.

Lemma days_before_month_bounds y m :
  1 <= m <= 12 ->
  0 <= days_before_month y m /\
  days_before_month y m + days_in_month y m <= 365 + (if leap y then 1 else 0).
Proof.
  intros H. each_month H; unfold days_before_month, days_in_month;
    cbn [Z.eqb Pos.eqb orb]; destruct (leap y); lia.
Qed.

Lemma days_before_month_mono y m1 m2 :
  1 <= m1 -> m1 < m2 -> m2 <= 12 ->
  days_before_month y m1 + days_in_month y m1 <= days_before_month y m2.
Proof.
  intros H1 H12 H2.
  assert (Ha : 1 <= m1 <= 12) by lia. assert (Hb : 1 <= m2 <= 12) by lia.
  each_month Ha; each_month Hb; try lia; unfold days_before_month, days_in_month;
    cbn [Z.eqb Pos.eqb orb]; destruct (leap y); lia.
Qed.

Lemma days_in_month_range y m : 28 <= days_in_month y m <= 31.
Proof.
  unfold days_in_month.
  destruct (m =? 2); [destruct (leap y); lia|].
  destruct ((m =? 4) || (m =? 6) || (m =? 9) || (m =? 11)); lia.
Qed.

(** A later date of the calendar has a greater day number. *)
Lemma day_number_lt y1 m1 d1 y2 m2 d2 :
  1 <= m1 <= 12 -> 1 <= d1 <= days_in_month y1 m1 ->
  1 <= m2 <= 12 -> 1 <= d2 <= days_in_month y2 m2 ->
  y1 < y2 \/ (y1 = y2 /\ (m1 < m2 \/ (m1 = m2 /\ d1 < d2))) ->
  day_number y1 m1 d1 < day_number y2 m2 d2.
Proof.
  intros Hm1 Hd1 Hm2 Hd2 H. unfold day_number.
  pose proof (days_before_month_bounds y1 m1 Hm1) as B1.
  pose proof (days_before_month_bounds y2 m2 Hm2) as B2.
  destruct H as [Hy | [-> [Hm | [-> Hd]]]].
  - pose proof (days_before_year_succ y1) as Hs.
    pose proof (days_before_year_mono (y1 + 1) y2 ltac:(lia)) as Hmono.
    lia.
  - pose proof (days_before_month_mono y2 m1 m2 ltac:(lia) Hm ltac:(lia)). lia.
  - lia.
Qed.

Lemma valid_civil_spec c :
  valid_civil c = true ->
  0 <= c_year c <= 9999 /\ 1 <= c_month c <= 12 /\
  1 <= c_day c <= days_in_month (c_year c) (c_month c) /\
  0 <= c_hour c <= 23 /\ 0 <= c_minute c <= 59 /\
  0 <= c_second c <= 59 /\ 0 <= c_milli c <= 999.
Proof.
  unfold valid_civil, in_range. rewrite !andb_true_iff, !Z.leb_le. tauto.
Qed.

(** The text of two stamps of the drive compares as their instants do. *)
Lemma stamp_compare c1 c2 :
  valid_civil c1 = true -> valid_civil c2 = true ->
  String.compare (drive_stamp c1) (drive_stamp c2) = (instant c1 ?= instant c2).
Proof.
  intros V1 V2.
  apply valid_civil_spec in V1 as (Hy1 & Hm1 & Hd1 & Hh1 & Hi1 & Hs1 & Hf1).
  apply valid_civil_spec in V2 as (Hy2 & Hm2 & Hd2 & Hh2 & Hi2 & Hs2 & Hf2).
  destruct c1 as [y1 m1 d1 h1 i1 s1 f1], c2 as [y2 m2 d2 h2 i2 s2 f2].
  cbn [c_year c_month c_day c_hour c_minute c_second c_milli] in *.
  pose proof (days_in_month_range y1 m1) as R1.
  pose proof (days_in_month_range y2 m2) as R2.
  unfold drive_stamp, instant.
  cbn [c_year c_month c_day c_hour c_minute c_second c_milli].
  rewrite compare_app by reflexivity. cbn [append]. rewrite compare_sep.
  rewrite digits4_compare by lia.
  rewrite compare_app by reflexivity. cbn [append]. rewrite compare_sep.
  rewrite digits2_compare by lia.
  rewrite compare_app by reflexivity. cbn [append]. rewrite compare_sep.
  rewrite digits2_compare by lia.
  rewrite compare_app by reflexivity. cbn [append]. rewrite compare_sep.
  rewrite digits2_compare by lia.
  rewrite compare_app by reflexivity. cbn [append]. rewrite compare_sep.
  rewrite digits2_compare by lia.
  rewrite compare_app by reflexivity. cbn [append]. rewrite compare_sep.
  rewrite digits2_compare by lia.
  rewrite compare_app by reflexivity. rewrite digits3_compare by lia.
  change (String.compare "Z" "Z") with Eq.
  symmetry.
  assert (Hlt : forall a b, a < b -> (a ?= b) = Lt)
    by (intros a b; apply Z.compare_lt_iff).
  assert (Hgt : forall a b, b < a -> (a ?= b) = Gt)
    by (intros a b; apply Z.compare_gt_iff).
  destruct (Z.compare_spec y1 y2) as [->|Hy|Hy].
  2:{ pose proof (day_number_lt y1 m1 d1 y2 m2 d2 Hm1 Hd1 Hm2 Hd2 ltac:(lia)).
      apply Hlt. lia. }
  2:{ pose proof (day_number_lt y2 m2 d2 y1 m1 d1 Hm2 Hd2 Hm1 Hd1 ltac:(lia)).
      apply Hgt. lia. }
  destruct (Z.compare_spec m1 m2) as [->|Hm|Hm].
  2:{ pose proof (day_number_lt y2 m1 d1 y2 m2 d2 Hm1 Hd1 Hm2 Hd2 ltac:(lia)).
      apply Hlt. lia. }
  2:{ pose proof (day_number_lt y2 m2 d2 y2 m1 d1 Hm2 Hd2 Hm1 Hd1 ltac:(lia)).
      apply Hgt. lia. }
  destruct (Z.compare_spec d1 d2) as [->|Hd|Hd].
  2:{ pose proof (day_number_lt y2 m2 d1 y2 m2 d2 Hm1 Hd1 Hm2 Hd2 ltac:(lia)).
      apply Hlt. lia. }
  2:{ pose proof (day_number_lt y2 m2 d2 y2 m2 d1 Hm2 Hd2 Hm1 Hd1 ltac:(lia)).
      apply Hgt. lia. }
  generalize (day_number y2 m2 d2) as n. intros n.
  destruct (Z.compare_spec h1 h2) as [->|Hh|Hh]; [|apply Hlt; lia|apply Hgt; lia].
  destruct (Z.compare_spec i1 i2) as [->|Hi|Hi]; [|apply Hlt; lia|apply Hgt; lia].
  destruct (Z.compare_spec s1 s2) as [->|Hs|Hs]; [|apply Hlt; lia|apply Hgt; lia].
  destruct (Z.compare_spec f1 f2) as [->|Hf|Hf]; [|apply Hlt; lia|apply Hgt; lia].
  apply Z.compare_refl.
Qed.

(** Text order on the stamps of the drive is the order of time. *)
Lemma stamp_leb s1 s2 t1 t2 :
  stamp_time s1 t1 -> stamp_time s2 t2 ->
  String.leb s1 s2 = true <-> t1 <= t2.
Proof.
  intros (c1 & V1 & -> & ->) (c2 & V2 & -> & ->).
  unfold String.leb. rewrite stamp_compare by assumption.
  unfold Z.le. destruct (instant c1 ?= instant c2); split; congruence.
Qed.


Lemma item_time_key f t : item_time f t -> stamp_time (todo_key f) t.
Proof.
  unfold item_time, todo_key. intros H.
  destruct (rf_modifiedTime f) as [s|].
  - destruct H as (c & V & -> & ->). exists c. now repeat split.
  - destruct (rf_createdTime f) as [s|]; [|contradiction].
    destruct H as (c & V & -> & ->). exists c. now repeat split.
Qed.

(** The queue keys of two videos that carry a time compare as their times. *)
Lemma key_le_time_le a b :
  (exists t, item_time a t) -> (exists t, item_time b t) ->
  key_le a b <-> time_le a b.
Proof.
  intros [ta Ha] [tb Hb]. unfold key_le, time_le.
  pose proof (item_time_key _ _ Ha) as Ka. pose proof (item_time_key _ _ Hb) as Kb.
  split.
  - intros H. exists ta, tb. repeat split; try assumption.
    now apply (stamp_leb _ _ _ _ Ka Kb).
  - intros (ta' & tb' & Ha' & Hb' & Hle).
    apply (stamp_leb _ _ _ _ (item_time_key _ _ Ha') (item_time_key _ _ Hb')), Hle.
Qed.

Lemma StronglySorted_weaken {A} (R R' : A -> A -> Prop) l :
  (forall a b, In a l -> In b l -> R a b -> R' a b) ->
  StronglySorted R l -> StronglySorted R' l.
Proof.
  intros Hw Hs. induction Hs as [|a l Hs IH Hall]; constructor.
  - apply IH. intros x y Hx Hy. apply Hw; now right.
  - rewrite Forall_forall in *. intros x Hx.
    apply Hw; [now left | now right | now apply Hall].
Qed.

(** The day numbers are those of the sample [fromisoformat]. *)
Lemma day_number_days_from_civil y m d :
  1 <= m <= 12 -> Sample.days_from_civil y m d = day_number y m d.
Proof.
  intros H. unfold Sample.days_from_civil, day_number, days_before_year,
    days_before_month, leap.
  each_month H; cbn [Z.leb Z.ltb Z.eqb Z.compare Pos.compare Pos.compare_cont Pos.eqb];
    cbv zeta;
    destruct (Z.eqb_spec (y mod 4) 0), (Z.eqb_spec (y mod 100) 0),
             (Z.eqb_spec (y mod 400) 0); cbn [andb orb negb];
    Z.div_mod_to_equations; lia.
Qed.

(** A stamp of the drive, as written and as [fromisoformat] reads it *)
Example drive_stamp_example :
  let c := mkCivil 2024 2 29 23 59 58 120 in
  valid_civil c = true /\
  drive_stamp c = "2024-02-29T23:59:58.120Z" /\
  Sample.iso_instant (PyStr.replace_char "Z" "+00:00" (drive_stamp c)) =
  Some (mkDatetime true (1000 * instant c)).
Proof. vm_compute. repeat split. Qed.

(** ** Substring test *)

Lemma string_app_assoc (a b c : string) : ((a ++ b) ++ c = a ++ (b ++ c))%string.
Proof. induction a as [|x a IH]; simpl; [reflexivity | now rewrite IH]. Qed.

Lemma prefix_app p s : String.prefix p (p ++ s)%string = true.
Proof.
  induction p as [|a p IH]; simpl; [now destruct s|].
  destruct (ascii_dec a a); [exact IH | congruence].
Qed.

Lemma prefix_split p s : String.prefix p s = true -> exists post, s = (p ++ post)%string.
Proof.
  revert s. induction p as [|a p IH]; intros s.
  - intros _. now exists s.
  - destruct s as [|b s]; simpl; [discriminate|].
    destruct (ascii_dec a b) as [E|]; [|discriminate].
    intros H. destruct (IH s H) as [post ->]. exists post. now rewrite E.
Qed.

Lemma contains_cons needle a hay :
  PyStr.contains needle (String a hay) =
  String.prefix needle (String a hay) || PyStr.contains needle hay.
Proof. reflexivity. Qed.

Lemma contains_spec needle hay :
  PyStr.contains needle hay = true <-> occurs_in needle hay.
Proof.
  split.
  - induction hay as [|a hay IH].
    + cbn [PyStr.contains]. rewrite orb_false_r. intros H.
      apply prefix_split in H as [post H]. now exists "", post.
    + rewrite contains_cons. intros H. apply orb_true_iff in H as [H|H].
      * apply prefix_split in H as [post H]. exists "", post. exact H.
      * destruct (IH H) as (pre & post & ->). now exists (String a pre), post.
  - intros (pre & post & ->). induction pre as [|a pre IH].
    + change ("" ++ needle ++ post)%string with (needle ++ post)%string.
      destruct (needle ++ post)%string eqn:E.
      * cbn [PyStr.contains]. rewrite <- E, prefix_app. reflexivity.
      * rewrite contains_cons, <- E, prefix_app. reflexivity.
    + change (String a pre ++ needle ++ post)%string with (String a (pre ++ needle ++ post)%string).
      rewrite contains_cons, IH. apply orb_true_r.
Qed.

(** ** The order on strings *)

Lemma string_compare_trans_le a b c :
  String.leb a b = true -> String.leb b c = true -> String.leb a c = true.
Proof.
  unfold String.leb. revert b c.
  induction a as [|x a IH]; intros [|y b] [|z c]; simpl; try congruence.
  unfold Ascii.compare.
  destruct (N.compare_spec (N_of_ascii x) (N_of_ascii y)) as [Exy|Lxy|Gxy];
    destruct (N.compare_spec (N_of_ascii y) (N_of_ascii z)) as [Eyz|Lyz|Gyz];
    destruct (N.compare_spec (N_of_ascii x) (N_of_ascii z)) as [Exz|Lxz|Gxz];
    try congruence; try lia.
  apply IH.
Qed.

(** ** The stable sort *)

Section SortFacts.
Context {A K : Type} (le : K -> K -> bool) (key : A -> K).
Hypothesis le_total : forall a b, le a b = true \/ le b a = true.
Hypothesis le_trans : forall a b c, le a b = true -> le b c = true -> le a c = true.

Lemma insert_by_perm x l : Permutation (insert_by le key x l) (x :: l).
Proof.
  induction l as [|y l IH]; simpl; [reflexivity|].
  destruct (le (key x) (key y)); [reflexivity|].
  rewrite IH. apply perm_swap.
Qed.

Lemma sort_by_perm l : Permutation (sort_by le key l) l.
Proof.
  induction l as [|x l IH]; simpl; [reflexivity|].
  rewrite insert_by_perm. now constructor.
Qed.

Lemma insert_by_sorted x l :
  StronglySorted (le_by le key) l -> StronglySorted (le_by le key) (insert_by le key x l).
Proof.
  induction 1 as [|y l Hl IH Hy]; simpl.
  - repeat constructor.
  - destruct (le (key x) (key y)) eqn:E.
    + constructor; [now constructor|].
      constructor; [exact E|].
      eapply Forall_impl; [|exact Hy]. intros z Hz. unfold le_by in *. eauto.
    + constructor; [exact IH|].
      assert (Hyx : le_by le key y x) by (destruct (le_total (key x) (key y)); [congruence | assumption]).
      apply (Permutation_Forall (Permutation_sym (insert_by_perm x l))).
      now constructor.
Qed.

Lemma sort_by_sorted l : StronglySorted (le_by le key) (sort_by le key l).
Proof.
  induction l as [|x l IH]; simpl; [constructor | now apply insert_by_sorted].
Qed.

Lemma sorted_last l x :
  StronglySorted (le_by le key) (l ++ [x]) -> forall y, In y (l ++ [x]) -> le_by le key y x.
Proof.
  induction l as [|z l IH]; simpl; intros H y Hy.
  - destruct Hy as [<-|[]]. unfold le_by. destruct (le_total (key x) (key x)); assumption.
  - inversion H as [|? ? Hs Hf]; subst.
    destruct Hy as [<-|Hy]; [|now apply IH].
    rewrite Forall_forall in Hf. apply Hf, in_or_app. right. now left.
Qed.



End SortFacts.

(** ** The queue of pending videos *)

Lemma is_processed_spec name :
  is_processed name = true <-> occurs_in PROCESSED_TAG name.
Proof. apply contains_spec. Qed.

Lemma unprocessed_spec f :
  unprocessed f = true <-> ~ occurs_in PROCESSED_TAG (PyStr.get_default (rf_name f)).
Proof.
  unfold unprocessed. rewrite negb_true_iff, <- is_processed_spec.
  destruct (is_processed _); split; congruence.
Qed.

Lemma filter_split {A} (p : A -> bool) (l : list A) :
  Permutation l (filter p l ++ filter (fun x => negb (p x)) l).
Proof.
  induction l as [|x l IH]; simpl; [reflexivity|].
  destruct (p x); simpl.
  - now constructor.
  - now apply Permutation_cons_app.
Qed.

Lemma filter_none {A} (p : A -> bool) (l : list A) :
  (forall x, In x l -> p x = false) -> filter p l = [].
Proof.
  induction l as [|x l IH]; intros H; [reflexivity|].
  simpl. rewrite (H x) by now left. apply IH. intros y Hy. apply H. now right.
Qed.

Lemma todo_key_fallback f :
  (forall m, rf_modifiedTime f = Some m -> m <> "" -> todo_key f = m) /\
  (rf_modifiedTime f = None -> todo_key f = PyStr.get_default (rf_createdTime f)).
Proof.
  unfold todo_key, PyStr.or_. split.
  - intros m -> Hm. destruct m; [congruence | reflexivity].
  - intros ->. simpl. destruct (rf_createdTime f) as [[|]|]; reflexivity.
Qed.

(** Pagination is transparent: when the drive serves a listing in finitely
    many pages, the loop returns their files in order, given fuel for every
    page. *)
Lemma list_pages_served env q h tok pages :
  served env q h tok pages ->
  forall fuel files,
    (List.length pages <= fuel)%nat ->
    snd (list_pages fuel q tok files env h) = Ok (files ++ concat (map page_files pages)).
Proof.
  induction 1 as [h tok resp Hr Hn | h tok resp rest Hr Hn _ IH]; intros fuel files Hf.
  - destruct fuel as [|fuel]; [simpl in Hf; lia|].
    cbn [list_pages]. unfold bind, call. rewrite Hr, Hn. cbn.
    now rewrite app_nil_r.
  - destruct fuel as [|fuel]; [simpl in Hf; lia|].
    cbn [list_pages]. unfold bind, call. rewrite Hr, Hn. cbn [negb].
    rewrite IH by (simpl in Hf; lia).
    cbn [map concat]. now rewrite app_assoc.
Qed.

Lemma todo_of_In ref_files f :
  In f (todo_of ref_files) <->
  In f ref_files /\ ~ occurs_in PROCESSED_TAG (PyStr.get_default (rf_name f)).
Proof.
  pose proof (sort_by_perm String.leb todo_key (filter unprocessed ref_files)) as P.
  fold (todo_of ref_files) in P. split.
  - intros H. apply (Permutation_in _ P) in H. apply filter_In in H as [Hin H].
    split; [exact Hin | now apply unprocessed_spec].
  - intros [Hin Hn]. apply (Permutation_in _ (Permutation_sym P)).
    apply filter_In. split; [exact Hin | now apply unprocessed_spec].
Qed.

(** C5.  The queue holds exactly the listed items whose name does not
    contain the processing marker, in ascending order of modification time,
    the creation time standing in when the modification time is absent; the
    listing it filters is the one asked of the drive for non-trashed items of
    the folder with a video mime type; it is empty when every listed item is
    marked.  The queue is ordered by the text of the time stamps; when the
    listed items carry times as the drive writes them, that is the order of
    their instants. *)
Theorem todo_of_correct :
  forall ref_files : list RemoteFile,
    (forall name, is_processed name = true <-> occurs_in PROCESSED_TAG name) /\
    (forall folder,
        list_query folder (Some "video/") =
        ("'" ++ folder ++ "' in parents and trashed = false and mimeType contains 'video/'")%string) /\
    (forall env h folder pages fuel,
        served env (list_query folder (Some "video/")) h None pages ->
        (List.length pages <= fuel)%nat ->
        snd (list_files_in_folder fuel folder (Some "video/") env h) =
        Ok (concat (map page_files pages))) /\
    (forall f, In f (todo_of ref_files) <->
               In f ref_files /\ ~ occurs_in PROCESSED_TAG (PyStr.get_default (rf_name f))) /\
    (exists marked,
        Permutation ref_files (todo_of ref_files ++ marked) /\
        forall f, In f marked -> occurs_in PROCESSED_TAG (PyStr.get_default (rf_name f))) /\
    StronglySorted key_le (todo_of ref_files) /\
    ((forall f, In f ref_files ->
                ~ occurs_in PROCESSED_TAG (PyStr.get_default (rf_name f)) ->
                exists t, item_time f t) ->
     StronglySorted time_le (todo_of ref_files)) /\
    (forall f,
        (forall m, rf_modifiedTime f = Some m -> m <> "" -> todo_key f = m) /\
        (rf_modifiedTime f = None -> todo_key f = PyStr.get_default (rf_createdTime f))) /\
    ((forall f, In f ref_files -> occurs_in PROCESSED_TAG (PyStr.get_default (rf_name f))) ->
     todo_of ref_files = []).
Proof.
  intros ref_files.
  pose proof (sort_by_perm String.leb todo_key (filter unprocessed ref_files)) as P.
  fold (todo_of ref_files) in P.
  pose proof (sort_by_sorted String.leb todo_key String.leb_total string_compare_trans_le
                (filter unprocessed ref_files)) as S.
  fold (todo_of ref_files) in S.
  split; [apply is_processed_spec|].
  split; [intros folder; unfold list_query; simpl; now rewrite string_app_assoc|].
  split.
  { intros env h folder pages fuel Hs Hf. unfold list_files_in_folder.
    now rewrite (list_pages_served _ _ _ _ _ Hs fuel [] Hf). }
  split; [apply todo_of_In|].
  split.
  { exists (filter (fun f => negb (unprocessed f)) ref_files). split.
    - rewrite P. apply filter_split.
    - intros f Hf. apply filter_In in Hf as [_ Hf].
      apply is_processed_spec. unfold unprocessed in Hf.
      now rewrite negb_involutive in Hf. }
  split; [exact S|].
  split.
  { intros Ht. apply (StronglySorted_weaken (le_by String.leb todo_key)); [|exact S].
    intros a b Ha Hb Hab.
    apply todo_of_In in Ha as [Ha Ha'], Hb as [Hb Hb'].
    apply key_le_time_le; [now apply Ht | now apply Ht | exact Hab]. }
  split; [apply todo_key_fallback|].
  intros H. unfold todo_of. rewrite filter_none; [reflexivity|].
  intros f Hf. unfold unprocessed. apply negb_false_iff, is_processed_spec, H, Hf.
Qed.

Lemma todo_of_witness :
  snd (list_files_in_folder 1 "refs" (Some "video/") Sample.good []) =
    Ok (concat (map page_files
                  [mkResp (Some [Sample.V2; Sample.V3; Sample.V4; Sample.V1; Sample.V5]) None])) /\
  StronglySorted time_le (todo_of [Sample.V2; Sample.V3; Sample.V4; Sample.V1; Sample.V5]) /\
  todo_of [Sample.V3] = [].
Proof.
  split; [|split].
  - apply (proj1 (proj2 (proj2 (todo_of_correct []))) Sample.good [] "refs").
    + apply served_last; reflexivity.
    + simpl. lia.
  - apply (proj1 (proj2 (proj2 (proj2 (proj2 (proj2 (proj2
             (todo_of_correct [Sample.V2; Sample.V3; Sample.V4; Sample.V1; Sample.V5])))))))).
    intros f [<-|[<-|[<-|[<-|[<-|[]]]]]] _.
    + exists (instant (mkCivil 2024 1 7 10 0 0 0)), (mkCivil 2024 1 7 10 0 0 0).
      repeat split; reflexivity.
    + exists (instant (mkCivil 2024 1 1 10 0 0 0)), (mkCivil 2024 1 1 10 0 0 0).
      repeat split; reflexivity.
    + exists (instant (mkCivil 2024 1 2 10 0 0 0)), (mkCivil 2024 1 2 10 0 0 0).
      repeat split; reflexivity.
    + exists (instant (mkCivil 2024 1 5 10 0 0 0)), (mkCivil 2024 1 5 10 0 0 0).
      repeat split; reflexivity.
    + exists (instant (mkCivil 2024 1 3 10 0 0 0)), (mkCivil 2024 1 3 10 0 0 0).
      repeat split; reflexivity.
  - apply (proj2 (proj2 (proj2 (proj2 (proj2 (proj2 (proj2 (proj2
             (todo_of_correct [Sample.V3]))))))))).
    intros f [<-|[]]. exists "jump", ".mp4". reflexivity.
Defined.

(** Stamps that are not all written with the same offset are queued by
    their text all the same: the video stamped 10:00 at +02:00 comes after
    the one stamped 09:00 in UTC, which is an hour younger. *)
Example todo_of_text_order :
  let early := Sample.file "v6" "early.mp4" "video/mp4"
                 "2024-01-05T10:00:00+02:00" "2024-01-05T10:00:00+02:00" None in
  let late := Sample.file "v7" "late.mp4" "video/mp4"
                "2024-01-05T09:00:00Z" "2024-01-05T09:00:00Z" None in
  todo_of [early; late] = [late; early] /\
  (exists d d',
      parse_dt Sample.iso_instant early = Ok d /\
      parse_dt Sample.iso_instant late = Ok d' /\
      dt_aware d = true /\ dt_aware d' = true /\ dt_micros d < dt_micros d').
Proof.
  split; [reflexivity|]. do 2 eexists.
  split; [vm_compute; reflexivity|]. split; [vm_compute; reflexivity|].
  now repeat split.
Qed.

(** ** The reference image *)

Section PickFacts.
Variable fromiso : string -> option datetime.

Lemma is_image_candidate_spec f : is_image_candidate f = true <-> image_candidate f.
Proof.
  unfold is_image_candidate, image_candidate, PyStr.startswith.
  rewrite andb_true_iff, negb_true_iff. reflexivity.
Qed.

Lemma keyed_Ok l kl :
  keyed fromiso l = Ok kl ->
  map snd kl = l /\ forall k f, In (k, f) kl -> parse_dt fromiso f = Ok k.
Proof.
  revert kl. induction l as [|f l IH]; simpl; intros kl.
  - intros [= <-]. split; [reflexivity | intros ? ? []].
  - destruct (parse_dt fromiso f) as [k| |] eqn:E; try discriminate.
    destruct (keyed fromiso l) as [kl'| |]; try discriminate.
    intros [= <-]. destruct (IH kl' eq_refl) as [Hm Hk].
    split; [simpl; now rewrite Hm|].
    intros k0 f0 [[= <- <-]|H]; [exact E | now apply Hk].
Qed.


(** Keys can be sorted when they are all of one kind. *)
Lemma comparable_spec keys :
  comparable keys = true <->
  forall k k', In k keys -> In k' keys -> dt_aware k = dt_aware k'.
Proof.
  destruct keys as [|k0 rest]; cbn [comparable].
  - split; [intros _ ? ? [] | reflexivity].
  - rewrite forallb_forall. split.
    + intros H.
      assert (H0 : forall k, In k (k0 :: rest) -> dt_aware k = dt_aware k0).
      { intros k [<-|Hk]; [reflexivity | now apply eqb_prop, H]. }
      intros k k' Hk Hk'. now rewrite (H0 k Hk), (H0 k' Hk').
    + intros H k Hk. apply eqb_true_iff, H; [now right | now left].
Qed.


Lemma pick_none files :
  (forall f, In f files -> ~ image_candidate f) ->
  pick_latest_image fromiso files = Ok None.
Proof.
  intros H. unfold pick_latest_image. rewrite filter_none; [reflexivity|].
  intros f Hf. destruct (is_image_candidate f) eqn:E; [|reflexivity].
  exfalso. apply (H f Hf). now apply is_image_candidate_spec.
Qed.



End PickFacts.



(** ** The retry loop *)

Section Retry.
Variables (env : Env) (api img vid : string).

Lemma attempt_once_history h :
  fst (attempt_once api img vid env h) =
  EvPredict api img vid WAN_MODE WAN_QUALITY
    (predict env h api img vid WAN_MODE WAN_QUALITY) :: h.
Proof. unfold attempt_once. now destruct (predict env h api img vid WAN_MODE WAN_QUALITY). Qed.

Lemma attempt_once_eq h :
  attempt_once api img vid env h =
  (EvPredict api img vid WAN_MODE WAN_QUALITY
     (predict env h api img vid WAN_MODE WAN_QUALITY) :: h,
   attempt_outcome env api img vid h).
Proof.
  unfold attempt_outcome. rewrite <- attempt_once_history.
  now destruct (attempt_once api img vid env h).
Qed.

Lemma attempts_step_fail retries n a last h e :
  attempt_outcome env api img vid h = Raise e ->
  attempts retries api img vid (S n) a last env h =
  attempts retries api img vid n (a + 1) (Some e) env
    (EvSleep (Z.min 60 (5 * a))
       :: EvPredict api img vid WAN_MODE WAN_QUALITY
            (predict env h api img vid WAN_MODE WAN_QUALITY) :: h).
Proof.
  intros H. cbn [attempts]. rewrite attempt_once_eq, H. reflexivity.
Qed.

Lemma attempts_step_ok retries n a last h p :
  attempt_outcome env api img vid h = Ok p ->
  attempts retries api img vid (S n) a last env h =
  (EvPredict api img vid WAN_MODE WAN_QUALITY
     (predict env h api img vid WAN_MODE WAN_QUALITY) :: h, Ok p).
Proof.
  intros H. cbn [attempts]. rewrite attempt_once_eq, H. reflexivity.
Qed.

Lemma attempts_after_failures retries h0 k n :
  (forall i, (i < k)%nat ->
             exists e, attempt_outcome env api img vid
                         (after_failures env api img vid h0 i) = Raise e) ->
  exists last,
    attempts retries api img vid (k + n) 1 None env h0 =
    attempts retries api img vid n (Z.of_nat k + 1) last env
      (after_failures env api img vid h0 k) /\
    (k = O -> last = None) /\
    (forall k', k = S k' ->
                exists e, last = Some e /\
                          attempt_outcome env api img vid
                            (after_failures env api img vid h0 k') = Raise e).
Proof.
  revert n. induction k as [|k IH]; intros n Hfail.
  - exists None. repeat split; [discriminate].
  - destruct (IH (S n)) as (last & Heq & _); [intros i Hi; apply Hfail; lia|].
    destruct (Hfail k) as [e He]; [lia|].
    exists (Some e). split; [|split; [discriminate|]].
    + replace (S k + n)%nat with (k + S n)%nat by lia.
      rewrite Heq, (attempts_step_fail _ _ _ _ _ e He).
      cbn [after_failures]. rewrite Nat2Z.inj_succ.
      replace (Z.succ (Z.of_nat k)) with (Z.of_nat k + 1) by lia.
      reflexivity.
    + intros k' [= <-]. now exists e.
Qed.

Lemma sleeps_after_failures h0 k :
  sleeps (after_failures env api img vid h0 k) =
  sleeps h0 ++ map (fun attempt => Z.min 60 (5 * Z.of_nat attempt)) (seq 1 k).
Proof.
  induction k as [|k IH]; [simpl; now rewrite app_nil_r|].
  unfold sleeps in *. cbn [after_failures sleeps_newest_first rev].
  rewrite IH, seq_S, map_app, app_assoc. reflexivity.
Qed.

Lemma predict_count_after_failures h0 k :
  predict_count (after_failures env api img vid h0 k) = (predict_count h0 + k)%nat.
Proof.
  induction k as [|k IH]; simpl; [lia|]. rewrite IH. lia.
Qed.

End Retry.

(** C2.  A call that fails [N] times and then succeeds returns the success
    value after [N + 1] attempts, having paused [min(60, 5 * attempt)] after
    each of the attempts [1..N]; a call whose every attempt fails raises after
    [retries] attempts, and the error raised carries the error of the last
    attempt. *)
Theorem call_wan2_2_retry_contract :
  forall (env : Env) (api img vid : string) (h0 : history),
    (forall (N : nat) (retries : Z) (p : string),
        Z.of_nat N < retries ->
        (forall k, (k < N)%nat ->
                   exists e, attempt_outcome env api img vid
                               (after_failures env api img vid h0 k) = Raise e) ->
        attempt_outcome env api img vid (after_failures env api img vid h0 N) = Ok p ->
        exists h1,
          call_wan2_2 api img vid retries env h0 = (h1, Ok p) /\
          sleeps h1 =
            sleeps h0 ++ map (fun attempt => Z.min 60 (5 * Z.of_nat attempt)) (seq 1 N) /\
          predict_count h1 = (predict_count h0 + N + 1)%nat) /\
    (forall retries : Z,
        0 <= retries ->
        (forall k, (k < Z.to_nat retries)%nat ->
                   exists e, attempt_outcome env api img vid
                               (after_failures env api img vid h0 k) = Raise e) ->
        exists h1 last,
          call_wan2_2 api img vid retries env h0 = (h1, Raise (HFCallFailed retries last)) /\
          Z.of_nat (predict_count h1) = Z.of_nat (predict_count h0) + retries /\
          sleeps h1 =
            sleeps h0 ++ map (fun attempt => Z.min 60 (5 * Z.of_nat attempt))
                             (seq 1 (Z.to_nat retries)) /\
          (0 < retries ->
           exists e, last = Some e /\
                     attempt_outcome env api img vid
                       (after_failures env api img vid h0 (Z.to_nat retries - 1)) = Raise e)).
Proof.
  intros env api img vid h0. split.
  - intros N retries p HN Hfail Hok.
    destruct (attempts_after_failures env api img vid retries h0 N
                (Z.to_nat retries - N) Hfail) as (last & Heq & _).
    unfold call_wan2_2.
    replace (Z.to_nat retries) with (N + (Z.to_nat retries - N))%nat by lia.
    rewrite Heq.
    destruct (Z.to_nat retries - N)%nat as [|n] eqn:E; [lia|].
    rewrite (attempts_step_ok _ _ _ _ _ _ _ _ _ p Hok).
    eexists. split; [reflexivity|]. split.
    + unfold sleeps at 1. cbn [sleeps_newest_first].
      apply sleeps_after_failures.
    + cbn [predict_count]. rewrite predict_count_after_failures. lia.
  - intros retries Hr Hfail.
    destruct (attempts_after_failures env api img vid retries h0 (Z.to_nat retries)
                O Hfail) as (last & Heq & _ & Hlast).
    unfold call_wan2_2. rewrite Nat.add_0_r in Heq.
    rewrite Heq. cbn [attempts]. unfold raise.
    exists (after_failures env api img vid h0 (Z.to_nat retries)), last.
    split; [reflexivity|]. split; [|split].
    + rewrite predict_count_after_failures. lia.
    + apply sleeps_after_failures.
    + intros Hpos. destruct (Hlast (Z.to_nat retries - 1)%nat) as [e [He1 He2]]; [lia|].
      now exists e.
Qed.

Lemma call_wan2_2_retry_witness :
  (exists h1,
      call_wan2_2 "/animate" "img.png" "vid.mp4" 5 Sample.flaky [] = (h1, Ok "/tmp/gradio/out.mp4") /\
      sleeps h1 = sleeps [] ++ map (fun attempt => Z.min 60 (5 * Z.of_nat attempt)) (seq 1 2) /\
      predict_count h1 = (predict_count [] + 2 + 1)%nat) /\
  (exists h1 last,
      call_wan2_2 "/predict" "img.png" "vid.mp4" 3 Sample.url_world [] =
        (h1, Raise (HFCallFailed 3 last)) /\
      Z.of_nat (predict_count h1) = Z.of_nat (predict_count []) + 3 /\
      sleeps h1 = sleeps [] ++ map (fun attempt => Z.min 60 (5 * Z.of_nat attempt))
                                   (seq 1 (Z.to_nat 3)) /\
      (0 < 3 ->
       exists e, last = Some e /\
                 attempt_outcome Sample.url_world "/predict" "img.png" "vid.mp4"
                   (after_failures Sample.url_world "/predict" "img.png" "vid.mp4" []
                      (Z.to_nat 3 - 1)) = Raise e)).
Proof.
  split.
  - apply (proj1 (call_wan2_2_retry_contract Sample.flaky "/animate" "img.png" "vid.mp4" [])
             2%nat 5 "/tmp/gradio/out.mp4").
    + lia.
    + intros [|[|k]] Hk; [eexists; vm_compute; reflexivity .. | lia].
    + vm_compute. reflexivity.
  - apply (proj2 (call_wan2_2_retry_contract Sample.url_world "/predict" "img.png" "vid.mp4" [])
             3).
    + lia.
    + intros [|[|[|k]]] Hk; [eexists; vm_compute; reflexivity .. | simpl in Hk; lia].
Defined.

(** C4, as the code has it.  An attempt whose call returns a result that
    names no local artifact is treated like a failed call: the loop pauses
    [min(60, 5 * attempt)] and goes on with the remaining attempts, the
    unsupported-shape error being remembered as the last error; when no
    attempt remains, that error is the one carried by the final failure. *)
Theorem unparseable_result_is_retried :
  forall (env : Env) (api img vid : string) (retries : Z) (n : nat) (attempt : Z)
         (last : option exn) (h : history) (res : pyval),
    predict env h api img vid WAN_MODE WAN_QUALITY = inr res ->
    (forall p, ~ normalizes_to
                   (path_exists env (EvPredict api img vid WAN_MODE WAN_QUALITY (inr res) :: h))
                   res p) ->
    let h' := EvSleep (Z.min 60 (5 * attempt))
                :: EvPredict api img vid WAN_MODE WAN_QUALITY (inr res) :: h in
    attempts retries api img vid (S n) attempt last env h =
    attempts retries api img vid n (attempt + 1) (Some (UnexpectedHFOutput res)) env h' /\
    (n = O ->
     attempts retries api img vid (S n) attempt last env h =
     (h', Raise (HFCallFailed retries (Some (UnexpectedHFOutput res))))).
Proof.
  intros env api img vid retries n attempt last h res Hp Hn h'.
  assert (E : attempts retries api img vid (S n) attempt last env h =
              attempts retries api img vid n (attempt + 1)
                (Some (UnexpectedHFOutput res)) env h').
  { subst h'. rewrite <- Hp. apply attempts_step_fail.
    unfold attempt_outcome, attempt_once. rewrite Hp. cbn [snd].
    now apply normalize_complete. }
  split; [exact E|].
  intros ->. rewrite E. reflexivity.
Qed.

Lemma unparseable_result_is_retried_witness :
  let url := PyStr "https://example.org/out.mp4" in
  let h' := [EvSleep (Z.min 60 (5 * 1));
             EvPredict "/predict" "img.png" "vid.mp4" WAN_MODE WAN_QUALITY (inr url)] in
  attempts 1 "/predict" "img.png" "vid.mp4" 1 1 None Sample.url_world [] =
  attempts 1 "/predict" "img.png" "vid.mp4" 0 (1 + 1) (Some (UnexpectedHFOutput url))
    Sample.url_world h' /\
  (O = O ->
   attempts 1 "/predict" "img.png" "vid.mp4" 1 1 None Sample.url_world [] =
   (h', Raise (HFCallFailed 1 (Some (UnexpectedHFOutput url))))).
Proof.
  intros url h'.
  apply (unparseable_result_is_retried Sample.url_world "/predict" "img.png" "vid.mp4"
           1 O 1 None [] url).
  - reflexivity.
  - intros p H. inversion H; subst. discriminate.
Defined.

(** C4 as stated fails: in a world where the Space answers every call with a
    URL, the first attempt returns without error and its result names no
    local file, yet the call goes on to five attempts and five pauses. *)
Lemma unparseable_result_not_fatal :
  let url := PyStr "https://example.org/out.mp4" in
  predict Sample.url_world [] "/predict" "img.png" "vid.mp4" WAN_MODE WAN_QUALITY = inr url /\
  (forall h p, ~ normalizes_to (path_exists Sample.url_world h) url p) /\
  let '(h1, r) := call_wan2_2 "/predict" "img.png" "vid.mp4" 5 Sample.url_world [] in
  predict_count h1 = 5%nat /\
  predict_count h1 <> 1%nat /\
  sleeps h1 = [5; 10; 15; 20; 25] /\
  r = Raise (HFCallFailed 5 (Some (UnexpectedHFOutput url))).
Proof.
  intros url. split; [reflexivity|]. split.
  - intros h p H. inversion H; subst. discriminate.
  - vm_compute. repeat split. discriminate.
Qed.

(** ** Endpoint resolution *)

Lemma scan_endpoints_skip pre rest :
  (forall k m, In (k, m) pre -> exists n, declares m n /\ n <> 4%nat) ->
  scan_endpoints (pre ++ rest) = scan_endpoints rest.
Proof.
  induction pre as [|[k m] pre IH]; intros H; [reflexivity|].
  destruct (H k m (or_introl eq_refl)) as (n & (d & -> & Hlen) & Hn).
  cbn [app scan_endpoints]. rewrite Hlen.
  destruct (Nat.eqb_spec n 4) as [->|_]; [congruence|].
  apply IH. intros k' m' Hin. apply (H k' m'). now right.
Qed.

Lemma scan_endpoints_hit name meta rest :
  declares meta 4 -> scan_endpoints ((name, meta) :: rest) = Ok (Some name).
Proof.
  intros (d & -> & Hlen). cbn [scan_endpoints]. now rewrite Hlen.
Qed.

Lemma scan_endpoints_miss eps :
  (forall k m, In (k, m) eps -> exists n, declares m n /\ n <> 4%nat) ->
  scan_endpoints eps = Ok None.
Proof.
  intros H. rewrite <- (app_nil_r eps). now rewrite scan_endpoints_skip.
Qed.

(** C8.  The endpoint chosen is the first one of the descriptor that declares
    four parameters; when no endpoint does, it is the first endpoint of the
    descriptor; when the descriptor cannot be fetched, it is the default
    name [/predict]. *)
Theorem find_best_api_name_correct :
  forall (env : Env) (h : history),
    (forall e, view_api env h = inl e ->
               find_best_api_name env h = (EvViewApi (inl e) :: h, Ok "/predict")) /\
    (forall d pre name meta post,
        view_api env h = inr (PyDict d) ->
        dict_get d "named_endpoints" = Some (PyDict (pre ++ (name, meta) :: post)) ->
        (forall k m, In (k, m) pre -> exists n, declares m n /\ n <> 4%nat) ->
        declares meta 4 ->
        name <> "" ->
        find_best_api_name env h = (EvViewApi (inr (PyDict d)) :: h, Ok name)) /\
    (forall d first meta rest,
        view_api env h = inr (PyDict d) ->
        dict_get d "named_endpoints" = Some (PyDict ((first, meta) :: rest)) ->
        (forall k m, In (k, m) ((first, meta) :: rest) ->
                     exists n, declares m n /\ n <> 4%nat) ->
        find_best_api_name env h = (EvViewApi (inr (PyDict d)) :: h, Ok first)).
Proof.
  intros env h. repeat split.
  - intros e He. unfold find_best_api_name. now rewrite He.
  - intros d pre name meta post Hv Hd Hpre Hmeta Hname.
    unfold find_best_api_name. rewrite Hv. f_equal.
    unfold pick_endpoint. rewrite Hd.
    assert (T : py_truthy (PyDict (pre ++ (name, meta) :: post)) = true)
      by (simpl; now destruct pre).
    rewrite T. cbn [negb].
    rewrite (scan_endpoints_skip pre _ Hpre), (scan_endpoints_hit _ _ _ Hmeta).
    destruct name; [congruence | reflexivity].
  - intros d first meta rest Hv Hd Hall.
    unfold find_best_api_name. rewrite Hv. f_equal.
    unfold pick_endpoint. rewrite Hd. cbn [py_truthy negb].
    now rewrite (scan_endpoints_miss _ Hall).
Qed.

Lemma find_best_api_name_witness :
  find_best_api_name Sample.url_world [] =
    ([EvViewApi (inl (ExternalError "connection refused"))], Ok "/predict") /\
  find_best_api_name Sample.good [] =
    ([EvViewApi (inr Sample.api_descriptor)], Ok "/animate") /\
  find_best_api_name Sample.plain [] =
    ([EvViewApi (inr Sample.plain_descriptor)], Ok "/run").
Proof.
  split; [|split].
  - apply (proj1 (find_best_api_name_correct Sample.url_world [])). reflexivity.
  - apply (proj1 (proj2 (find_best_api_name_correct Sample.good []))
             _ [("/status", PyDict [("parameters", PyList [])])] "/animate"
             (PyDict [("parameters",
                       PyList [PyStr "image"; PyStr "video"; PyStr "mode"; PyStr "quality"])])
             [("/other", PyDict [("parameters",
                                  PyList [PyInt 1; PyInt 2; PyInt 3; PyInt 4])])]).
    + reflexivity.
    + reflexivity.
    + intros k m [[= <- <-]|[]]. exists 0%nat. split; [|discriminate].
      eexists. split; reflexivity.
    + eexists. split; reflexivity.
    + discriminate.
  - apply (proj2 (proj2 (find_best_api_name_correct Sample.plain []))
             _ "/run" (PyDict [("parameters", PyList [PyStr "x"])])
             [("/stop", PyDict [])]).
    + reflexivity.
    + reflexivity.
    + intros k m [[= <- <-]|[[= <- <-]|[]]].
      * exists 1%nat. split; [|discriminate]. eexists. split; reflexivity.
      * exists 0%nat. split; [|discriminate]. eexists. split; reflexivity.
Defined.

(** ** The size gate *)



(** ** What each step adds to the history *)

Lemma attempts_adds env retries api img vid n a last h :
  exists added,
    fst (attempts retries api img vid n a last env h) = added ++ h /\
    Forall neutral added /\
    (n <> O ->
     exists later,
       added = later ++ [EvPredict api img vid WAN_MODE WAN_QUALITY
                           (predict env h api img vid WAN_MODE WAN_QUALITY)]).
Proof.
  revert a last h. induction n as [|n IH]; intros a last h.
  - exists []. repeat split; [constructor | congruence].
  - cbn [attempts]. rewrite attempt_once_eq.
    set (ev := EvPredict api img vid WAN_MODE WAN_QUALITY
                 (predict env h api img vid WAN_MODE WAN_QUALITY)).
    destruct (attempt_outcome env api img vid h) as [p|e|].
    + exists [ev]. repeat split; [repeat constructor | intros _; now exists []].
    + unfold bind, sleep.
      destruct (IH (a + 1) (Some e) (EvSleep (Z.min 60 (5 * a)) :: ev :: h))
        as (added & Hadd & Hn & _).
      exists (added ++ [EvSleep (Z.min 60 (5 * a)); ev]).
      rewrite <- app_assoc. split; [exact Hadd|]. split.
      * apply Forall_app. split; [exact Hn | repeat constructor].
      * intros _. exists (added ++ [EvSleep (Z.min 60 (5 * a))]).
        now rewrite <- app_assoc.
    + exists [ev]. repeat split; [repeat constructor | intros _; now exists []].
Qed.

(** A call that returns has just had an answer that normalises to the path
    returned. *)
Lemma attempts_ok env retries api img vid n a last h h1 p :
  attempts retries api img vid n a last env h = (h1, Ok p) ->
  exists res later,
    h1 = EvPredict api img vid WAN_MODE WAN_QUALITY (inr res) :: later ++ h /\
    Forall neutral later /\
    normalize_result (path_exists env h1) res = Ok p.
Proof.
  revert a last h. induction n as [|n IH]; intros a last h H; [discriminate|].
  cbn [attempts] in H. unfold attempt_once in H.
  destruct (predict env h api img vid WAN_MODE WAN_QUALITY) as [e|res] eqn:Ep.
  - unfold bind, sleep in H. apply IH in H as (res & later & -> & Hn & Hnorm).
    exists res, (later ++ [EvSleep (Z.min 60 (5 * a));
                           EvPredict api img vid WAN_MODE WAN_QUALITY (inl e)]).
    split; [now rewrite <- app_assoc|]. split; [|exact Hnorm].
    apply Forall_app. split; [exact Hn | repeat constructor].
  - destruct (normalize_result
                (path_exists env (EvPredict api img vid WAN_MODE WAN_QUALITY (inr res) :: h))
                res) as [p'|e|] eqn:En.
    + injection H as <- <-. exists res, []. repeat split; [constructor | exact En].
    + unfold bind, sleep in H. apply IH in H as (res' & later & -> & Hn & Hnorm).
      exists res', (later ++ [EvSleep (Z.min 60 (5 * a));
                              EvPredict api img vid WAN_MODE WAN_QUALITY (inr res)]).
      split; [now rewrite <- app_assoc|]. split; [|exact Hnorm].
      apply Forall_app. split; [exact Hn | repeat constructor].
    + discriminate.
Qed.

(** A download opens with its request and goes on with chunks. *)
Lemma next_chunks_adds env fuel file_id path h :
  exists chunks,
    fst (next_chunks fuel file_id path env h) = chunks ++ h /\
    Forall transfer chunks.
Proof.
  revert h. induction fuel as [|fuel IH]; intros h.
  - exists []. split; [reflexivity | constructor].
  - cbn [next_chunks]. unfold bind, call.
    set (ev := EvChunk file_id path (next_chunk env h file_id path)).
    destruct (next_chunk env h file_id path) as [e|[|]].
    + exists [ev]. split; [reflexivity | repeat constructor].
    + exists [ev]. split; [reflexivity | repeat constructor].
    + cbn [negb]. destruct (IH (ev :: h)) as (chunks & Hc & Ht).
      exists (chunks ++ [ev]). rewrite <- app_assoc. split; [exact Hc|].
      apply Forall_app. split; [exact Ht | repeat constructor].
Qed.

Lemma download_file_adds env fuel file_id path h :
  exists later,
    fst (download_file fuel file_id path env h) =
    later ++ EvDownload file_id path (get_media env h file_id path) :: h /\
    Forall transfer later.
Proof.
  unfold download_file, bind, call_unit.
  set (dl := EvDownload file_id path (get_media env h file_id path)).
  destruct (get_media env h file_id path) as [e|].
  - exists []. split; [reflexivity | constructor].
  - destruct (next_chunks_adds env fuel file_id path (dl :: h)) as (chunks & Hc & Ht).
    destruct (next_chunks fuel file_id path env (dl :: h)) as [h1 [[]|e|]];
      cbn [fst] in Hc; subst h1.
    + exists (EvClose path (close_file env (chunks ++ dl :: h) path) :: chunks).
      split; [reflexivity|]. constructor; [exact I | exact Ht].
    + exists chunks. now split.
    + exists chunks. now split.
Qed.

Lemma transfer_neutral l : Forall transfer l -> Forall neutral l.
Proof. apply Forall_impl. now intros []. Qed.

Lemma transfer_not_entered l : Forall transfer l -> Forall not_entered l.
Proof. apply Forall_impl. now intros []. Qed.

(** Given the rounds it needs, a download whose chunks come to an end returns
    or raises. *)
Lemma next_chunks_fuel env fuel file_id path h :
  snd (next_chunks fuel file_id path env h) <> Diverge ->
  next_chunks (S fuel) file_id path env h = next_chunks fuel file_id path env h.
Proof.
  revert h. induction fuel as [|fuel IH]; intros h H; [now destruct H|].
  cbn [next_chunks] in *. unfold bind, call in *.
  destruct (next_chunk env h file_id path) as [e|[|]]; try reflexivity.
  cbn [negb] in *. now apply IH.
Qed.

Section Item.
Variables (env : Env) (fuel : nat) (out_folder api tmp img : string).

(** The run of the loop body on an item that passes the size gate *)
Lemma main_item_run f name size file_id h :
  rf_name f = Some name ->
  declared_size f = Ok size ->
  too_large size = false ->
  rf_id f = Some file_id ->
  let video_path := OsPath.join tmp (safe_filename name) in
  main_item fuel out_folder api tmp img f env h =
  match download_file fuel file_id video_path env h with
  | (hd, Ok _) =>
      match call_wan2_2 api img video_path 5 env hd with
      | (h1, Ok out_local) =>
          let ru := files_create env h1 out_local out_folder (out_name_of name) in
          let up := EvUpload out_local out_folder (out_name_of name) ru in
          match ru with
          | inl e => (up :: h1, Raise e)
          | inr _ =>
              let rr := files_update env (up :: h1) file_id (processed_name_of name) in
              (EvRename file_id (processed_name_of name) rr :: up :: h1,
               match rr with Some e => Raise e | None => Ok tt end)
          end
      | (h1, Raise e) => (h1, Raise e)
      | (h1, Diverge) => (h1, Diverge)
      end
  | (hd, Raise e) => (hd, Raise e)
  | (hd, Diverge) => (hd, Diverge)
  end.
Proof.
  intros Hn Hs Ht Hi video_path.
  unfold main_item. unfold bind at 1 2 3 4. unfold lift.
  rewrite Hn, Hs. cbn [getitem]. rewrite Ht, Hi. cbn [getitem].
  fold video_path.
  destruct (download_file fuel file_id video_path env h) as [hd [[]|e|]]; try reflexivity.
  unfold bind.
  destruct (call_wan2_2 api img video_path 5 env hd) as [h1 [out_local|e|]]; try reflexivity.
  unfold upload_file_to_folder, call, rename_file, call_unit, out_name_of, processed_name_of.
  destruct (files_create env h1 out_local out_folder _) as [e|oid]; reflexivity.
Qed.

Lemma main_item_skip f name size h :
  rf_name f = Some name ->
  declared_size f = Ok size ->
  too_large size = true ->
  main_item fuel out_folder api tmp img f env h = (h, Ok tt).
Proof.
  intros Hn Hs Ht. unfold main_item, bind, lift.
  rewrite Hn, Hs. cbn [getitem]. now rewrite Ht.
Qed.

Lemma call_wan2_2_adds vid h :
  exists later,
    fst (call_wan2_2 api img vid 5 env h) =
    (later ++ [EvPredict api img vid WAN_MODE WAN_QUALITY
                 (predict env h api img vid WAN_MODE WAN_QUALITY)]) ++ h /\
    Forall neutral later.
Proof.
  unfold call_wan2_2.
  destruct (attempts_adds env 5 api img vid (Z.to_nat 5) 1 None h) as (added & Hadd & Hn & Hl).
  destruct Hl as [later ->]; [discriminate|].
  exists later. split; [exact Hadd|].
  now apply Forall_app in Hn as [Hn _].
Qed.

End Item.

(** ** The whole run *)

Lemma bind_run {A B} (c : M A) (k : A -> M B) env h :
  bind c k env h =
  match c env h with
  | (h', Ok a) => k a env h'
  | (h', Raise e) => (h', Raise e)
  | (h', Diverge) => (h', Diverge)
  end.
Proof. reflexivity. Qed.

Lemma env_required_run name env h :
  env_required name env h =
  (h, if negb (PyStr.truthy (environ env name)) then Raise (MissingEnvVar name)
      else Ok (PyStr.get_default (environ env name))).
Proof. unfold env_required. now destruct (negb _). Qed.

Lemma find_best_api_name_run env h :
  exists r, find_best_api_name env h = (EvViewApi (view_api env h) :: h, r).
Proof. unfold find_best_api_name. destruct (view_api env h); eauto. Qed.

Section RunOk.
Variables (env : Env) (out_folder ref_folder : string).

Lemma listed_video_mono added h f :
  listed_video ref_folder h f -> listed_video ref_folder (added ++ h) f.
Proof.
  intros (tok & resp & files & Hin & H). exists tok, resp, files.
  split; [apply in_or_app; now right | exact H].
Qed.

Lemma run_ok_neutral added h :
  Forall neutral added -> run_ok env out_folder ref_folder h ->
  run_ok env out_folder ref_folder (added ++ h).
Proof.
  induction 1 as [|e added He _ IH]; intros Hh; [exact Hh|].
  destruct e; simpl in *; try (now apply IH); contradiction.
Qed.

Lemma run_ok_suffix a b :
  run_ok env out_folder ref_folder (a ++ b) -> run_ok env out_folder ref_folder b.
Proof.
  induction a as [|e a IH]; intros H; [exact H|].
  apply IH. destruct e; simpl in H; tauto.
Qed.

(** One turn of the loop keeps the shape of the history. *)
Lemma main_item_step fuel api tmp img f h :
  listed_video ref_folder h f ->
  (forall name, rf_name f = Some name -> ~ occurs_in PROCESSED_TAG name) ->
  run_ok env out_folder ref_folder h ->
  exists added,
    fst (main_item fuel out_folder api tmp img f env h) = added ++ h /\
    run_ok env out_folder ref_folder (added ++ h).
Proof.
  intros Hl Hu Hh.
  destruct (rf_name f) as [name|] eqn:Hn;
    [|exists []; unfold main_item, bind, lift; rewrite Hn; cbn [getitem fst]; now split].
  destruct (declared_size f) as [size|e|] eqn:Hs;
    [|exists []; unfold main_item, bind, lift; rewrite Hn, Hs; cbn [getitem fst]; now split ..].
  destruct (too_large size) eqn:Ht;
    [exists []; rewrite (main_item_skip env fuel out_folder api tmp img f name size h Hn Hs Ht);
     now split|].
  destruct (rf_id f) as [file_id|] eqn:Hi;
    [|exists []; unfold main_item, bind, lift; rewrite Hn, Hs; cbn [getitem];
      rewrite Ht, Hi; cbn [getitem fst]; now split].
  rewrite (main_item_run env fuel out_folder api tmp img f name size file_id h Hn Hs Ht Hi).
  set (video_path := OsPath.join tmp (safe_filename name)).
  destruct (download_file_adds env fuel file_id video_path h) as (dlater & Hd & Hdl).
  set (dl := EvDownload file_id video_path (get_media env h file_id video_path)) in Hd.
  assert (Npre : Forall neutral (dlater ++ [dl])).
  { apply Forall_app. split; [now apply transfer_neutral | now repeat constructor]. }
  replace (dlater ++ dl :: h) with ((dlater ++ [dl]) ++ h) in Hd by hist_eq.
  set (pre := dlater ++ [dl]) in *. clearbody pre. clear Hdl dl dlater.
  destruct (download_file fuel file_id video_path env h) as [hd [[]|e|]];
    cbn [fst] in Hd; subst hd;
    [|exists pre; split; [reflexivity | now apply run_ok_neutral] ..].
  destruct (call_wan2_2_adds env api img video_path (pre ++ h)) as (later & Hc & Hlater).
  assert (Hfail : forall r : result unit,
             exists added,
               fst ((later ++ [EvPredict api img video_path WAN_MODE WAN_QUALITY
                                 (predict env (pre ++ h) api img video_path
                                    WAN_MODE WAN_QUALITY)]) ++ pre ++ h, r) = added ++ h /\
               run_ok env out_folder ref_folder (added ++ h)).
  { intros r.
    exists ((later ++ [EvPredict api img video_path WAN_MODE WAN_QUALITY
                         (predict env (pre ++ h) api img video_path
                            WAN_MODE WAN_QUALITY)]) ++ pre).
    split; [cbn [fst]; now rewrite <- !app_assoc|].
    apply run_ok_neutral; [|exact Hh].
    apply Forall_app. split; [|exact Npre].
    apply Forall_app. split; [exact Hlater | now repeat constructor]. }
  destruct (call_wan2_2 api img video_path 5 env (pre ++ h)) as [h1 [out_local|e|]] eqn:Ec;
    cbn [fst] in Hc.
  - apply attempts_ok in Ec as (res & later' & E1 & Hlater' & Hnorm).
    clear Hc Hfail Hlater later.
    set (pr := EvPredict api img video_path WAN_MODE WAN_QUALITY (inr res)) in *.
    assert (E1' : h1 = (pr :: later' ++ pre) ++ h)
      by (rewrite E1; cbn [app]; now rewrite <- app_assoc).
    assert (Hh1 : run_ok env out_folder ref_folder h1).
    { rewrite E1'. apply run_ok_neutral; [|exact Hh].
      constructor; [exact I|]. apply Forall_app. now split. }
    assert (Hl1 : listed_video ref_folder h1 f).
    { rewrite E1'. now apply listed_video_mono. }
    assert (Hgen : generated_for env name out_local h1).
    { exists api, img, tmp, res, (later' ++ pre ++ h). split; [exact E1 | exact Hnorm]. }
    assert (Hup : forall ru,
               run_ok env out_folder ref_folder
                 (EvUpload out_local out_folder (out_name_of name) ru :: h1)).
    { intros ru. split; [|exact Hh1]. exists f, name. repeat split; try assumption.
      now apply Hu. }
    destruct (files_create env h1 out_local out_folder (out_name_of name)) as [e|oid].
    + exists (EvUpload out_local out_folder (out_name_of name) (inl e)
                :: pr :: later' ++ pre).
      assert (E : (EvUpload out_local out_folder (out_name_of name) (inl e)
                     :: pr :: later' ++ pre) ++ h =
                  EvUpload out_local out_folder (out_name_of name) (inl e) :: h1)
        by (rewrite E1'; reflexivity).
      rewrite E. split; [reflexivity | apply Hup].
    + set (up := EvUpload out_local out_folder (out_name_of name) (inr oid)).
      set (rn := EvRename file_id (processed_name_of name)
                   (files_update env (up :: h1) file_id (processed_name_of name))).
      exists (rn :: up :: pr :: later' ++ pre).
      assert (E : (rn :: up :: pr :: later' ++ pre) ++ h = rn :: up :: h1)
        by (rewrite E1'; reflexivity).
      rewrite E. split; [reflexivity|].
      split; [|apply Hup].
      exists f, name, out_local, oid, h1.
      split; [now apply (listed_video_mono [up])|].
      split; [now apply Hu|]. now repeat split.
  - subst h1. apply Hfail.
  - subst h1. apply Hfail.
Qed.

Lemma main_loop_step fuel api tmp img todo h :
  (forall f, In f todo ->
             listed_video ref_folder h f /\
             forall name, rf_name f = Some name -> ~ occurs_in PROCESSED_TAG name) ->
  run_ok env out_folder ref_folder h ->
  run_ok env out_folder ref_folder (fst (main_loop fuel out_folder api tmp img todo env h)).
Proof.
  revert h. induction todo as [|f todo IH]; intros h Htodo Hh; [exact Hh|].
  cbn [main_loop]. unfold bind.
  destruct (Htodo f (or_introl eq_refl)) as [Hl Hu].
  destruct (main_item_step fuel api tmp img f h Hl Hu Hh) as (added & E & Hok).
  destruct (main_item fuel out_folder api tmp img f env h) as [h1 [[]|e|]];
    cbn [fst] in E; subst h1; try exact Hok.
  apply IH; [|exact Hok].
  intros g Hg. destruct (Htodo g (or_intror Hg)) as [Hlg Hug].
  split; [now apply listed_video_mono | exact Hug].
Qed.

End RunOk.

(** Listing a folder adds only listing events, and every file returned was
    part of one of the answers. *)
Lemma list_pages_adds env fuel q tok files h :
  exists added,
    fst (list_pages fuel q tok files env h) = added ++ h /\
    Forall neutral added /\
    forall res, snd (list_pages fuel q tok files env h) = Ok res ->
      forall f, In f res ->
        In f files \/
        exists tok' resp fl,
          In (EvList q tok' (inr resp)) added /\ resp_files resp = Some fl /\ In f fl.
Proof.
  revert tok files h. induction fuel as [|fuel IH]; intros tok files h.
  - exists []. repeat split; [constructor | discriminate].
  - cbn [list_pages]. rewrite bind_run. unfold call.
    destruct (files_list env h q tok) as [e|resp] eqn:Er.
    + exists [EvList q tok (inl e)]. repeat split; [repeat constructor | discriminate].
    + set (ev := EvList q tok (inr resp)).
      set (files' := files ++ page_files resp).
      assert (Hfiles' : forall f, In f files' ->
                In f files \/ exists fl, resp_files resp = Some fl /\ In f fl).
      { intros f Hf. apply in_app_or in Hf as [Hf|Hf]; [now left|].
        unfold page_files in Hf.
        destruct (resp_files resp) as [fl|]; [right; now exists fl | contradiction]. }
      destruct (negb (PyStr.truthy (resp_nextPageToken resp))).
      * exists [ev]. repeat split; [repeat constructor|].
        intros res [= <-] f Hf. destruct (Hfiles' f Hf) as [Hf'|(fl & Hfl & Hf')]; [now left|].
        right. exists tok, resp, fl. repeat split; [now left | assumption ..].
      * destruct (IH (resp_nextPageToken resp) files' (ev :: h)) as (added & Hadd & Hn & Hres).
        exists (added ++ [ev]). rewrite <- app_assoc. split; [exact Hadd|]. split.
        { apply Forall_app. split; [exact Hn | repeat constructor]. }
        intros res Hr f Hf. destruct (Hres res Hr f Hf) as [Hf'|(tok' & resp' & fl & Hin & Hfl & Hf')].
        -- destruct (Hfiles' f Hf') as [Hf''|(fl & Hfl & Hf'')]; [now left|].
           right. exists tok, resp, fl. repeat split; try assumption.
           apply in_or_app. right. now left.
        -- right. exists tok', resp', fl. repeat split; try assumption.
           apply in_or_app. now left.
Qed.

Lemma todo_of_members ref_files f :
  In f (todo_of ref_files) ->
  In f ref_files /\ forall name, rf_name f = Some name -> ~ occurs_in PROCESSED_TAG name.
Proof.
  intros H. apply todo_of_In in H as [Hin Hn].
  split; [exact Hin|]. intros name Hname. now rewrite Hname in Hn.
Qed.

(** Every run has the shape [run_ok]. *)
Lemma main_run_ok env fuel :
  run_ok env (PyStr.get_default (environ env "OUT_FOLDER_ID"))
         (PyStr.get_default (environ env "REF_FOLDER_ID"))
         (fst (main fuel env [])).
Proof.
  set (out_folder := PyStr.get_default (environ env "OUT_FOLDER_ID")).
  set (ref_folder := PyStr.get_default (environ env "REF_FOLDER_ID")).
  unfold main.
  rewrite bind_run, env_required_run.
  destruct (negb (PyStr.truthy (environ env "PIC_FOLDER_ID"))); [exact I|].
  rewrite bind_run, env_required_run.
  destruct (negb (PyStr.truthy (environ env "REF_FOLDER_ID"))); [exact I|].
  rewrite bind_run, env_required_run.
  destruct (negb (PyStr.truthy (environ env "OUT_FOLDER_ID"))); [exact I|].
  fold out_folder ref_folder.
  (* build_drive *)
  rewrite bind_run. unfold build_drive at 1. rewrite bind_run, env_required_run.
  destruct (negb (PyStr.truthy (environ env "GDRIVE_SA_JSON"))); [exact I|].
  unfold call_unit at 1.
  set (h1 := [EvBuildDrive _ _]).
  assert (N1 : Forall neutral h1) by (repeat constructor).
  destruct (build_service env [] _) as [e|];
    [apply (run_ok_neutral env _ _ h1 [] N1 I)|].
  (* listing of the image folder *)
  rewrite bind_run. unfold list_files_in_folder at 1.
  destruct (list_pages_adds env fuel
              (list_query (PyStr.get_default (environ env "PIC_FOLDER_ID")) (Some "image/"))
              None [] h1) as (a2 & E2 & N2 & _).
  destruct (list_pages fuel _ None [] env h1) as [h2 r2]. cbn [fst] in E2. subst h2.
  assert (N2' : Forall neutral (a2 ++ h1)) by (apply Forall_app; now split).
  clearbody h1. clear N1 N2.
  set (h2 := a2 ++ h1) in *. clearbody h2.
  assert (Hexit : forall h, Forall neutral h -> run_ok env out_folder ref_folder h).
  { intros h Hh. rewrite <- (app_nil_r h). now apply run_ok_neutral. }
  destruct r2 as [pic_files|e|]; [|now apply Hexit ..].
  (* choice of the reference image *)
  rewrite bind_run.
  destruct (pick_latest_image (fromisoformat env) pic_files) as [[latest_img|]|e|];
    [|now apply Hexit ..].
  (* listing of the video folder *)
  rewrite bind_run. unfold list_files_in_folder at 1.
  destruct (list_pages_adds env fuel (list_query ref_folder (Some "video/"))
              None [] h2) as (a3 & E3 & N3 & L3).
  destruct (list_pages fuel _ None [] env h2) as [h3 r3]. cbn [fst snd] in E3, L3. subst h3.
  assert (N3' : Forall neutral (a3 ++ h2)) by (apply Forall_app; now split).
  destruct r3 as [ref_files|e|]; [|now apply Hexit ..].
  assert (L : forall f, In f ref_files -> listed_video ref_folder (a3 ++ h2) f).
  { intros f Hf. destruct (L3 ref_files eq_refl f Hf) as [[]|(tok & resp & fl & Hin & Hfl & Hf')].
    exists tok, resp, fl. repeat split; try assumption. apply in_or_app. now left. }
  clear L3 N3 N2'. set (h3 := a3 ++ h2) in *. clearbody h3. clear a3 h2.
  destruct (todo_of ref_files) as [|t0 todo'] eqn:Etodo; [now apply Hexit|].
  rewrite <- Etodo.
  (* client, endpoint, temporary directory, reference image *)
  rewrite bind_run. unfold call_unit at 1.
  set (h4 := EvClient _ _ _ :: h3).
  assert (N4 : Forall neutral h4) by (constructor; [exact I | exact N3']).
  assert (L4 : forall f, In f ref_files -> listed_video ref_folder h4 f)
    by (intros f Hf; apply (listed_video_mono _ [_]); now apply L).
  destruct (new_client env h3 _ _) as [e|]; [now apply Hexit|].
  clearbody h4. clear L N3' h3.
  rewrite bind_run.
  destruct (find_best_api_name_run env h4) as [r5 ->].
  set (h5 := EvViewApi (view_api env h4) :: h4).
  assert (N5 : Forall neutral h5) by (constructor; [exact I | exact N4]).
  assert (L5 : forall f, In f ref_files -> listed_video ref_folder h5 f)
    by (intros f Hf; apply (listed_video_mono _ [_]); now apply L4).
  clearbody h5. clear L4 N4 h4.
  destruct r5 as [api_name|e|]; [|now apply Hexit ..].
  unfold with_tmp.
  set (h6 := EvTmpEnter (mkdtemp env h5) :: h5).
  assert (N6 : Forall neutral h6) by (constructor; [exact I | exact N5]).
  assert (L6 : forall f, In f ref_files -> listed_video ref_folder h6 f)
    by (intros f Hf; apply (listed_video_mono _ [_]); now apply L5).
  destruct (mkdtemp env h5) as [e|tmp]; [now apply Hexit|].
  clearbody h6. clear L5 N5 h5.
  assert (Hbody : run_ok env out_folder ref_folder
            (fst ((img_name <- lift (getitem "name" (rf_name latest_img));;
                   (let img_path := OsPath.join tmp (safe_filename img_name) in
                    img_id <- lift (getitem "id" (rf_id latest_img));;
                    download_file fuel img_id img_path;;
                    main_loop fuel out_folder api_name tmp img_path (todo_of ref_files)))%py
                    env h6))).
  { rewrite bind_run. unfold lift at 1.
    destruct (getitem "name" (rf_name latest_img)) as [img_name|e|]; [|now apply Hexit ..].
    cbv zeta. rewrite bind_run. unfold lift at 1.
    destruct (getitem "id" (rf_id latest_img)) as [img_id|e|]; [|now apply Hexit ..].
    rewrite bind_run.
    destruct (download_file_adds env fuel img_id
                (OsPath.join tmp (safe_filename img_name)) h6) as (dlater & Hd & Hdl).
    destruct (download_file fuel img_id _ env h6) as [h7 r7]. cbn [fst] in Hd.
    assert (N7 : Forall neutral h7).
    { subst h7. apply Forall_app. split; [now apply transfer_neutral|].
      constructor; [exact I | exact N6]. }
    assert (L7 : forall f, In f ref_files -> listed_video ref_folder h7 f).
    { intros f Hf. subst h7. apply listed_video_mono.
      apply (listed_video_mono _ [_]). now apply L6. }
    clear Hd. destruct r7 as [[]|e|]; [|now apply Hexit ..].
    apply main_loop_step; [|now apply Hexit].
    intros f Hf. apply todo_of_members in Hf as [Hin Hn]. split; [now apply L7 | exact Hn]. }
  destruct ((img_name <- lift (getitem "name" (rf_name latest_img));;
             (let img_path := OsPath.join tmp (safe_filename img_name) in
              img_id <- lift (getitem "id" (rf_id latest_img));;
              download_file fuel img_id img_path;;
              main_loop fuel out_folder api_name tmp img_path (todo_of ref_files)))%py
              env h6) as [h8 [[]|e|]]; cbn [fst] in *; exact Hbody.
Qed.

(** C1.  In every run, whenever a rename of a source item is issued, the
    event just before it is the successful upload, into the output folder, of
    the output of that same item, the file uploaded being the artifact of the
    generation call made for the item just before; the history grows one
    event per call, so no earlier state of the run has the rename without the
    upload. *)
Theorem rename_only_after_upload :
  forall (env : Env) (fuel : nat) (h1 : history) (file_id new_name : string)
         (r : option exn) (h2 : history),
    fst (main fuel env []) = h1 ++ EvRename file_id new_name r :: h2 ->
    exists f name local_path out_id h3,
      listed_video (PyStr.get_default (environ env "REF_FOLDER_ID")) h2 f /\
      rf_id f = Some file_id /\ rf_name f = Some name /\
      new_name = (fst (OsPath.splitext name) ++ PROCESSED_TAG ++ ".mp4")%string /\
      h2 = EvUpload local_path (PyStr.get_default (environ env "OUT_FOLDER_ID"))
             (fst (OsPath.splitext name) ++ "__MIX__PRO.mp4")%string (inr out_id) :: h3 /\
      generated_for env name local_path h3.
Proof.
  intros env fuel h1 file_id new_name r h2 E.
  pose proof (main_run_ok env fuel) as H. rewrite E in H.
  apply run_ok_suffix in H. simpl in H.
  destruct H as [(f & name & lp & oid & rest' & Hl & _ & Hn & Hi & Hnew & Hrest & Hgen) _].
  exists f, name, lp, oid, rest'. now repeat split.
Qed.

Lemma rename_only_after_upload_witness :
  exists f name local_path out_id h3,
    listed_video (PyStr.get_default (environ Sample.good "REF_FOLDER_ID"))
      (tl (tl (fst (main 3 Sample.good [])))) f /\
    rf_id f = Some "v2" /\ rf_name f = Some name /\
    "walk__PROCESSED.mp4" = (fst (OsPath.splitext name) ++ PROCESSED_TAG ++ ".mp4")%string /\
    tl (tl (fst (main 3 Sample.good []))) =
    EvUpload local_path (PyStr.get_default (environ Sample.good "OUT_FOLDER_ID"))
      (fst (OsPath.splitext name) ++ "__MIX__PRO.mp4")%string (inr out_id) :: h3 /\
    generated_for Sample.good name local_path h3.
Proof.
  apply (rename_only_after_upload Sample.good 3 [EvTmpExit] "v2" "walk__PROCESSED.mp4" None).
  vm_compute. reflexivity.
Defined.

(** C7, as the code has it.  Every upload of a run goes to the output folder
    under the base name of a listed, unmarked source item followed by
    [__MIX__PRO.mp4]: the extension is always [.mp4], whatever the extension
    of the source; the file uploaded is the artifact generated for that
    item. *)
Theorem upload_name_is_base_mix_pro_mp4 :
  forall (env : Env) (fuel : nat) (h1 : history) (local_path folder out_name : string)
         (r : exn + string) (h2 : history),
    fst (main fuel env []) = h1 ++ EvUpload local_path folder out_name r :: h2 ->
    exists f name,
      listed_video (PyStr.get_default (environ env "REF_FOLDER_ID")) h2 f /\
      rf_name f = Some name /\
      ~ occurs_in PROCESSED_TAG name /\
      out_name = (fst (OsPath.splitext name) ++ "__MIX__PRO.mp4")%string /\
      folder = PyStr.get_default (environ env "OUT_FOLDER_ID") /\
      generated_for env name local_path h2.
Proof.
  intros env fuel h1 local_path folder out_name r h2 E.
  pose proof (main_run_ok env fuel) as H. rewrite E in H.
  apply run_ok_suffix in H. simpl in H.
  destruct H as [(f & name & Hl & Hu & Hn & Ho & Hf & Hgen) _].
  exists f, name. now repeat split.
Qed.

Lemma upload_name_witness :
  exists f name,
    listed_video (PyStr.get_default (environ Sample.good "REF_FOLDER_ID"))
      (skipn 9 (fst (main 3 Sample.good []))) f /\
    rf_name f = Some name /\
    ~ occurs_in PROCESSED_TAG name /\
    "dance__MIX__PRO.mp4" = (fst (OsPath.splitext name) ++ "__MIX__PRO.mp4")%string /\
    "out" = PyStr.get_default (environ Sample.good "OUT_FOLDER_ID") /\
    generated_for Sample.good name "/tmp/gradio/out.mp4"
      (skipn 9 (fst (main 3 Sample.good []))).
Proof.
  apply (upload_name_is_base_mix_pro_mp4 Sample.good 3
           (firstn 8 (fst (main 3 Sample.good [])))
           "/tmp/gradio/out.mp4" "out" "dance__MIX__PRO.mp4"
           (inr "id-of-dance__MIX__PRO.mp4")).
  vm_compute. reflexivity.
Defined.

(** C7 as stated fails: the source [dance.mov] has the extension [.mov], and
    its output is uploaded as [dance__MIX__PRO.mp4], not [dance__MIX__PRO.mov]. *)
Lemma upload_name_drops_source_extension :
  OsPath.splitext "dance.mov" = ("dance", ".mov") /\
  In (EvUpload "/tmp/gradio/out.mp4" "out" "dance__MIX__PRO.mp4"
        (inr "id-of-dance__MIX__PRO.mp4"))
     (fst (main 3 Sample.good [])) /\
  (forall local_path folder r,
      ~ In (EvUpload local_path folder "dance__MIX__PRO.mov" r)
           (fst (main 3 Sample.good []))) /\
  out_name_of "dance.mov" <>
  (fst (OsPath.splitext "dance.mov") ++ "__MIX__PRO" ++ snd (OsPath.splitext "dance.mov"))%string.
Proof.
  split; [reflexivity|]. split; [|split].
  - vm_compute. do 8 right. now left.
  - intros lp folder r H. vm_compute in H.
    repeat (destruct H as [H|H]; [discriminate|]). exact H.
  - vm_compute. discriminate.
Qed.



(** * Further properties of the helpers *)

(** ** Marking and the next run *)

(** X1.  The name given to a source once its output is uploaded carries the
    processing marker, so an item under that name is left out of the queue of
    every later listing. *)
Theorem renamed_item_is_skipped :
  forall name : string,
    is_processed (processed_name_of name) = true /\
    forall (f : RemoteFile) (ref_files : list RemoteFile),
      rf_name f = Some (processed_name_of name) -> ~ In f (todo_of ref_files).
Proof.
  intros name.
  assert (H : occurs_in PROCESSED_TAG (processed_name_of name))
    by (exists (fst (OsPath.splitext name)), ".mp4"; reflexivity).
  split; [now apply is_processed_spec|].
  intros f ref_files Hn Hin. apply todo_of_In in Hin as [_ Hno].
  rewrite Hn in Hno. now apply Hno.
Qed.

Lemma renamed_item_is_skipped_witness :
  is_processed (processed_name_of "walk.mp4") = true /\
  ~ In Sample.V3 (todo_of [Sample.V2; Sample.V3]).
Proof.
  split.
  - apply (proj1 (renamed_item_is_skipped "walk.mp4")).
  - apply (proj2 (renamed_item_is_skipped "jump.mp4")). reflexivity.
Defined.

(** ** Local file names *)

Lemma strip_length p s : (String.length (PyStr.strip p s) <= String.length s)%nat.
Proof.
  unfold PyStr.strip.
  assert (L : forall t, (String.length (PyStr.lstrip p t) <= String.length t)%nat).
  { induction t as [|a t IH]; simpl; [lia|]. destruct (p a); simpl; lia. }
  assert (R : forall t, (String.length (PyStr.rstrip p t) <= String.length t)%nat).
  { induction t as [|a t IH]; simpl; [lia|].
    destruct (PyStr.rstrip p t); [destruct (p a)|]; simpl in *; lia. }
  specialize (L s). specialize (R (PyStr.lstrip p s)). lia.
Qed.

Lemma sub_disallowed_length b s :
  (String.length (sub_disallowed b s) <= String.length s)%nat.
Proof.
  revert b. induction s as [|c t IH]; intros b; simpl; [lia|].
  destruct (allowed_char c); simpl.
  - specialize (IH false). lia.
  - destruct b; simpl; specialize (IH true); lia.
Qed.

Lemma rstrip_fixed p s :
  (forall t c, s = (t ++ String c "")%string -> p c = false) -> PyStr.rstrip p s = s.
Proof.
  induction s as [|a t IH]; intros H; [reflexivity|].
  simpl. rewrite IH.
  - destruct t; [|reflexivity].
    now rewrite (H "" a eq_refl).
  - intros t' c ->. apply (H (String a t') c). reflexivity.
Qed.

(** X2.  A local file name holds no path separator, so joining it to the
    temporary directory always gives a path made of that directory, at most
    one separator, and the name: a remote name cannot redirect the download
    elsewhere by an absolute path. *)
Theorem safe_filename_stays_in_directory :
  forall tmp name : string,
    (forall c, In c (list_ascii_of_string (safe_filename name)) -> c <> "/"%char) /\
    exists sep,
      (sep = "" \/ sep = "/") /\
      OsPath.join tmp (safe_filename name) = (tmp ++ sep ++ safe_filename name)%string.
Proof.
  intros tmp name.
  assert (Hc : forall c, In c (list_ascii_of_string (safe_filename name)) -> c <> "/"%char).
  { intros c Hin ->. apply safe_filename_chars in Hin. discriminate. }
  split; [exact Hc|].
  unfold OsPath.join, PyStr.startswith.
  assert (Hp : String.prefix "/" (safe_filename name) = false).
  { destruct (String.prefix "/" (safe_filename name)) eqn:Ep; [|reflexivity].
    apply prefix_split in Ep as [post Ep]. exfalso.
    apply (Hc "/"%char); [rewrite Ep; simpl; now left | reflexivity]. }
  rewrite Hp.
  destruct ((tmp =? "")%string || PyStr.endswith_char "/" tmp).
  - exists "". split; [now left | reflexivity].
  - exists "/". split; [now right | reflexivity].
Qed.

Lemma safe_filename_stays_in_directory_witness :
  exists sep,
    (sep = "" \/ sep = "/") /\
    OsPath.join "/tmp/t" (safe_filename "../../etc/passwd") =
    ("/tmp/t" ++ sep ++ safe_filename "../../etc/passwd")%string.
Proof.
  apply (proj2 (safe_filename_stays_in_directory "/tmp/t" "../../etc/passwd")).
Defined.

(** X3.  [safe_filename] never lengthens a name, and it leaves unchanged every
    name that is already made of the allowed characters and neither begins
    nor ends with an underscore. *)
Theorem safe_filename_keeps_clean_names :
  forall s : string,
    (String.length (safe_filename s) <= String.length s)%nat /\
    (chars_satisfy allowed_char s ->
     (forall t, s <> String "_" t) ->
     (forall t, s <> (t ++ "_")%string) ->
     safe_filename s = s).
Proof.
  intros s. split.
  - unfold safe_filename.
    pose proof (strip_length (Ascii.eqb "_") (sub_disallowed false s)).
    pose proof (sub_disallowed_length false s). lia.
  - intros Hc Hhead Hlast. unfold safe_filename, PyStr.strip.
    rewrite (sub_disallowed_fixed false s Hc).
    assert (L : PyStr.lstrip (Ascii.eqb "_") s = s).
    { destruct s as [|a t]; [reflexivity|]. cbn [PyStr.lstrip].
      destruct (Ascii.eqb_spec "_" a) as [<-|]; [|reflexivity].
      now destruct (Hhead t). }
    rewrite L. apply rstrip_fixed.
    intros t c -> . destruct (Ascii.eqb_spec "_" c) as [<-|]; [|reflexivity].
    now destruct (Hlast t).
Qed.

Lemma safe_filename_keeps_clean_names_witness :
  safe_filename "clip_01.final-cut.mp4" = "clip_01.final-cut.mp4".
Proof.
  apply (proj2 (safe_filename_keeps_clean_names "clip_01.final-cut.mp4")).
  - intros c Hc. simpl in Hc.
    repeat (destruct Hc as [<-|Hc]; [reflexivity|]). contradiction.
  - discriminate.
  - intros t H.
    assert (E : forall a b, String.length (a ++ b)%string = (String.length a + String.length b)%nat)
      by (induction a; intros; simpl; [reflexivity | now rewrite IHa]).
    assert (G : forall t u c, (t ++ String c "")%string = u ->
                              String.get (String.length u - 1) u = Some c).
    { clear. induction t as [|a t IH]; intros u c <-; [reflexivity|].
      simpl. rewrite Nat.sub_0_r.
      specialize (IH _ c eq_refl).
      destruct (t ++ String c "")%string eqn:Et; [now destruct t|].
      simpl in IH. rewrite Nat.sub_0_r in IH. exact IH. }
    symmetry in H. apply G in H. vm_compute in H. discriminate.
Defined.

(** ** Base name and extension *)

Lemma substring_whole s : String.substring 0 (String.length s) s = s.
Proof. induction s as [|c s IH]; simpl; [reflexivity | now rewrite IH]. Qed.

Lemma substring_split s n :
  (String.substring 0 n s ++ String.substring n (String.length s - n) s)%string = s.
Proof.
  revert n. induction s as [|c s IH]; intros [|n]; simpl; try reflexivity.
  - now rewrite substring_whole.
  - now rewrite IH.
Qed.

Lemma rfind_from_found c s i :
  0 <= PyStr.rfind_from c s i ->
  exists k, PyStr.rfind_from c s i = i + Z.of_nat k /\ String.get k s = Some c.
Proof.
  revert i. induction s as [|a s IH]; intros i; simpl; [lia|].
  destruct (Z.leb_spec 0 (PyStr.rfind_from c s (i + 1))) as [Hr|Hr].
  - intros _. destruct (IH (i + 1) Hr) as (k & Hk & Hg).
    exists (S k). split; [lia | exact Hg].
  - destruct (Ascii.eqb_spec a c) as [->|]; [|lia].
    intros _. exists O. split; [lia | reflexivity].
Qed.

Lemma rfind_from_absent c s i :
  (forall a, In a (list_ascii_of_string s) -> a <> c) -> PyStr.rfind_from c s i = -1.
Proof.
  revert i. induction s as [|a s IH]; intros i H; simpl; [reflexivity|].
  rewrite IH by (intros b Hb; apply H; simpl; now right). simpl.
  destruct (Ascii.eqb_spec a c) as [->|]; [|reflexivity].
  exfalso. apply (H c); [simpl; now left | reflexivity].
Qed.

Lemma substring_from_get k s c :
  String.get k s = Some c ->
  exists t, String.substring k (String.length s - k) s = String c t.
Proof.
  revert k. induction s as [|a s IH]; intros [|k]; simpl; try discriminate.
  - intros [= ->]. eexists. reflexivity.
  - apply IH.
Qed.

(** X4.  The base name used for the output and for the processed name is the
    source name without its extension: base and extension put together give
    the name back, the extension is empty or begins with a dot, and a name
    without any dot is its own base. *)
Theorem splitext_round_trip :
  forall name : string,
    name = (fst (OsPath.splitext name) ++ snd (OsPath.splitext name))%string /\
    (snd (OsPath.splitext name) = "" \/
     exists t, snd (OsPath.splitext name) = String "." t) /\
    ((forall c, In c (list_ascii_of_string name) -> c <> "."%char) ->
     OsPath.splitext name = (name, "")).
Proof.
  intros name. unfold OsPath.splitext.
  set (sepIndex := PyStr.rfind "/" name).
  set (dotIndex := PyStr.rfind "." name).
  split; [|split].
  - destruct ((sepIndex <? dotIndex) && _); cbn [fst snd].
    + unfold PyStr.take, PyStr.drop. symmetry. apply substring_split.
    + clear. induction name; simpl; [reflexivity | now f_equal].
  - destruct (sepIndex <? dotIndex) eqn:Hlt; cbn [andb]; [|now left].
    destruct (OsPath.has_non_dot _ _ _); cbn [snd]; [|now left].
    right. apply Z.ltb_lt in Hlt.
    assert (Hsep : -1 <= sepIndex).
    { unfold sepIndex, PyStr.rfind.
      assert (G : forall s i, 0 <= i -> -1 <= PyStr.rfind_from "/" s i).
      { induction s as [|a s IHs]; intros i Hi; simpl; [lia|].
        destruct (Z.leb_spec 0 (PyStr.rfind_from "/" s (i + 1))); [lia|].
        destruct (Ascii.eqb a "/"); lia. }
      apply G. lia. }
    destruct (rfind_from_found "." name 0) as (k & Hk & Hg); [fold (PyStr.rfind "." name); fold dotIndex; lia|].
    fold (PyStr.rfind "." name) in Hk. fold dotIndex in Hk.
    unfold PyStr.drop. rewrite Hk, Z.add_0_l, Nat2Z.id.
    now apply substring_from_get.
  - intros H. unfold dotIndex, PyStr.rfind. rewrite (rfind_from_absent "." name 0 H).
    assert (Hsep : (sepIndex <? -1) = false).
    { apply Z.ltb_ge. unfold sepIndex, PyStr.rfind.
      assert (G : forall s i, 0 <= i -> -1 <= PyStr.rfind_from "/" s i).
      { induction s as [|a s IHs]; intros i Hi; simpl; [lia|].
        destruct (Z.leb_spec 0 (PyStr.rfind_from "/" s (i + 1))); [lia|].
        destruct (Ascii.eqb a "/"); lia. }
      apply G. lia. }
    now rewrite Hsep.
Qed.

Lemma splitext_round_trip_witness :
  OsPath.splitext "README" = ("README", "").
Proof.
  apply (proj2 (proj2 (splitext_round_trip "README"))).
  intros c Hc. simpl in Hc.
  repeat (destruct Hc as [<-|Hc]; [discriminate|]). contradiction.
Defined.

(** ** More on the stable sort *)

Section SortOrder.
Context {A K : Type} (le : K -> K -> bool) (key : A -> K).
Hypothesis le_total : forall a b, le a b = true \/ le b a = true.
Hypothesis le_trans : forall a b c, le a b = true -> le b c = true -> le a c = true.

(** Elements that the order cannot tell apart keep their relative order. *)
Lemma insert_by_filter (q : A -> bool) x s :
  (forall a b, q a = true -> q b = true -> le (key a) (key b) = true) ->
  filter q (insert_by le key x s) = filter q (x :: s).
Proof.
  intros Hq. induction s as [|y s IH]; [reflexivity|].
  cbn [insert_by]. destruct (le (key x) (key y)) eqn:E; [reflexivity|].
  cbn [filter] in *. rewrite IH.
  destruct (q x) eqn:Qx, (q y) eqn:Qy; try reflexivity.
  rewrite (Hq x y Qx Qy) in E. discriminate.
Qed.

Lemma sort_by_filter (q : A -> bool) l :
  (forall a b, q a = true -> q b = true -> le (key a) (key b) = true) ->
  filter q (sort_by le key l) = filter q l.
Proof.
  intros Hq. induction l as [|x l IH]; [reflexivity|].
  cbn [sort_by fold_right]. fold (sort_by le key l).
  rewrite (insert_by_filter q x _ Hq). cbn [filter]. now rewrite IH.
Qed.

(** Where an insertion puts its element *)
Lemma insert_by_place x s :
  (insert_by le key x s = s ++ [x] /\ forall z, In z s -> le (key x) (key z) = false) \/
  (exists a z b, s = a ++ z :: b /\ insert_by le key x s = a ++ x :: z :: b /\
                 le (key x) (key z) = true).
Proof.
  induction s as [|y s IH]; [left; split; [reflexivity | intros ? []]|].
  cbn [insert_by]. destruct (le (key x) (key y)) eqn:E.
  - right. exists [], y, s. now repeat split.
  - destruct IH as [[Hi Hz] | (a & z & b & -> & Hi & Hle)].
    + left. split; [simpl; now rewrite Hi|].
      intros z [<-|Hin]; [exact E | now apply Hz].
    + right. exists (y :: a), z, b. repeat split; [simpl; now rewrite Hi | exact Hle].
Qed.

(** The last element of the sorted list is the last of the greatest elements
    of the input. *)
Lemma sort_by_last m s x :
  sort_by le key m = s ++ [x] ->
  exists m1 m2,
    m = m1 ++ x :: m2 /\
    (forall y, In y m1 -> le (key y) (key x) = true) /\
    (forall y, In y m2 -> le (key x) (key y) = false).
Proof.
  revert s x. induction m as [|y m IH]; intros s x H.
  - destruct s; discriminate.
  - cbn [sort_by fold_right] in H. fold (sort_by le key m) in H.
    destruct (insert_by_place y (sort_by le key m)) as [[Hi Hz] | (a & z & b & Hs & Hi & Hle)].
    + rewrite Hi in H. apply app_inj_tail in H as [_ <-].
      exists [], m. repeat split; [intros ? [] |].
      intros z Hz'. apply Hz.
      apply (Permutation_in _ (Permutation_sym (sort_by_perm le key m))), Hz'.
    + rewrite Hi in H.
      assert (Nz : z :: b <> []) by discriminate.
      destruct (exists_last Nz) as (b' & w & Hzb).
      assert (Hw : w = x).
      { rewrite Hzb in H.
        assert (E : a ++ y :: b' ++ [w] = (a ++ y :: b') ++ [w])
          by (now rewrite <- app_assoc).
        rewrite E in H. now apply app_inj_tail in H as [_ Hw]. }
      subst w.
      assert (Hs' : sort_by le key m = (a ++ b') ++ [x])
        by (rewrite Hs, Hzb; now rewrite <- app_assoc).
      destruct (IH _ _ Hs') as (m1 & m2 & -> & H1 & H2).
      exists (y :: m1), m2. repeat split; [|exact H2].
      intros w [<-|Hw]; [|now apply H1].
      apply (le_trans _ (key z)); [exact Hle|].
      pose proof (sort_by_sorted le key le_total le_trans (m1 ++ x :: m2)) as Sd.
      rewrite Hs' in Sd.
      apply (sorted_last le key le_total _ _ Sd).
      rewrite <- Hs', Hs. apply in_or_app. right. now left.
Qed.

(** With [reverse=True] the head is the first of the greatest elements. *)
Lemma sort_by_reverse_first l x :
  hd_error (sort_by_reverse le key l) = Some x ->
  exists l1 l2,
    l = l1 ++ x :: l2 /\
    (forall y, In y l1 -> le (key x) (key y) = false) /\
    (forall y, In y l2 -> le (key y) (key x) = true).
Proof.
  unfold sort_by_reverse. intros H.
  assert (E : sort_by le key (rev l) = rev (tl (rev (sort_by le key (rev l)))) ++ [x]).
  { rewrite <- (rev_involutive (sort_by le key (rev l))) at 1.
    destruct (rev (sort_by le key (rev l))) as [|z r]; [discriminate|].
    injection H as ->. reflexivity. }
  destruct (sort_by_last _ _ _ E) as (m1 & m2 & Hm & H1 & H2).
  exists (rev m2), (rev m1). repeat split.
  - rewrite <- (rev_involutive l), Hm, rev_app_distr. simpl. now rewrite <- app_assoc.
  - intros y Hy. apply H2. now apply in_rev.
  - intros y Hy. apply H1. now apply in_rev.
Qed.

End SortOrder.

(** ** Order of the queue and choice of the image, with ties *)

(** X5.  The sort of the queue is stable: the unmarked items that share one
    timestamp are queued in the order in which the drive listed them. *)
Theorem todo_of_stable :
  forall (ref_files : list RemoteFile) (k : string),
    filter (fun f => (todo_key f =? k)%string) (todo_of ref_files) =
    filter (fun f => (todo_key f =? k)%string) (filter unprocessed ref_files).
Proof.
  intros ref_files k. unfold todo_of. apply sort_by_filter.
  intros a b Ha Hb. apply String.eqb_eq in Ha, Hb. rewrite Ha, Hb.
  destruct (String.leb_total k k); assumption.
Qed.

(** X6.  When several images share the latest time, the one chosen is the
    first of them in listing order: every candidate listed before the chosen
    image is strictly older, every candidate listed after it is not newer;
    the times compared are all of one kind. *)
Theorem pick_latest_image_first_of_latest :
  forall (fromiso : string -> option datetime) (files : list RemoteFile) (best : RemoteFile),
    pick_latest_image fromiso files = Ok (Some best) ->
    exists before after d,
      filter is_image_candidate files = before ++ best :: after /\
      parse_dt fromiso best = Ok d /\
      (forall f, In f before ->
         exists d', parse_dt fromiso f = Ok d' /\
                    dt_aware d' = dt_aware d /\ dt_micros d' < dt_micros d) /\
      (forall f, In f after ->
         exists d', parse_dt fromiso f = Ok d' /\
                    dt_aware d' = dt_aware d /\ dt_micros d' <= dt_micros d).
Proof.
  intros fromiso files best. unfold pick_latest_image.
  destruct (filter is_image_candidate files) as [|c cs] eqn:Ec; [discriminate|].
  destruct (keyed fromiso (c :: cs)) as [kl| |] eqn:Hkl; try discriminate.
  destruct (comparable (map fst kl)) eqn:Hcmp; [|discriminate].
  intros [= H]. destruct (keyed_Ok _ _ _ Hkl) as [Hm Hk].
  set (key := fun kf : datetime * RemoteFile => dt_micros (fst kf)) in *.
  destruct (hd_error (sort_by_reverse Z.leb key kl)) as [[d b]|] eqn:Hh; [|discriminate].
  simpl in H. injection H as ->.
  assert (Zle_total : forall a b, (a <=? b) = true \/ (b <=? a) = true)
    by (intros a b; rewrite !Z.leb_le; lia).
  assert (Zle_trans : forall a b c0, (a <=? b) = true -> (b <=? c0) = true -> (a <=? c0) = true)
    by (intros a b c0; rewrite !Z.leb_le; lia).
  destruct (sort_by_reverse_first Z.leb key Zle_total Zle_trans kl (d, best) Hh)
    as (k1 & k2 & Hkl' & H1 & H2).
  exists (map snd k1), (map snd k2), d.
  assert (Hin : forall kf, In kf kl -> parse_dt fromiso (snd kf) = Ok (fst kf))
    by (intros [k f] Hkf; now apply Hk).
  assert (Hkind : forall kf, In kf kl -> dt_aware (fst kf) = dt_aware d).
  { intros kf Hkf. apply (proj1 (comparable_spec _) Hcmp).
    - apply (in_map fst _ _ Hkf).
    - apply (in_map fst kl (d, best)). rewrite Hkl'. apply in_or_app. right. now left. }
  split; [rewrite <- Hm, Hkl', map_app; reflexivity|].
  split; [apply (Hin (d, best)); rewrite Hkl'; apply in_or_app; right; now left|].
  split.
  - intros f Hf. apply in_map_iff in Hf as ([k g] & <- & Hg). exists k.
    assert (Hg' : In (k, g) kl) by (rewrite Hkl'; apply in_or_app; now left).
    split; [apply (Hin (k, g) Hg')|]. split; [apply (Hkind (k, g) Hg')|].
    specialize (H1 _ Hg). unfold key in H1. simpl in H1. apply Z.leb_gt in H1. exact H1.
  - intros f Hf. apply in_map_iff in Hf as ([k g] & <- & Hg). exists k.
    assert (Hg' : In (k, g) kl) by (rewrite Hkl'; apply in_or_app; right; now right).
    split; [apply (Hin (k, g) Hg')|]. split; [apply (Hkind (k, g) Hg')|].
    specialize (H2 _ Hg). unfold key in H2. simpl in H2. now apply Z.leb_le.
Qed.

Lemma pick_latest_image_first_of_latest_witness :
  let twin := Sample.file "i5" "hero_twin.png" "image/png"
                "2024-02-01T08:00:00.000Z" "2024-02-03T09:30:00.000Z" None in
  exists before after d,
    filter is_image_candidate [Sample.I1; Sample.I2; twin] = before ++ Sample.I2 :: after /\
    parse_dt Sample.iso_instant Sample.I2 = Ok d /\
    (forall f, In f before ->
       exists d', parse_dt Sample.iso_instant f = Ok d' /\
                  dt_aware d' = dt_aware d /\ dt_micros d' < dt_micros d) /\
    (forall f, In f after ->
       exists d', parse_dt Sample.iso_instant f = Ok d' /\
                  dt_aware d' = dt_aware d /\ dt_micros d' <= dt_micros d).
Proof.
  intros twin.
  apply (pick_latest_image_first_of_latest Sample.iso_instant [Sample.I1; Sample.I2; twin]).
  vm_compute. reflexivity.
Defined.

(** X7.  The choice of the image fails on the first candidate, in listing
    order, whose time cannot be read, with the error of that candidate: a
    candidate with neither a modification nor a creation time gives the
    attribute error of [None.replace], a time string that is refused by
    [fromisoformat] gives its value error.  Files that are not candidates
    are never looked at. *)
Theorem pick_latest_image_unreadable_time :
  forall (fromiso : string -> option datetime) (files : list RemoteFile),
    (forall before f after e,
        filter is_image_candidate files = before ++ f :: after ->
        (forall g, In g before -> exists d, parse_dt fromiso g = Ok d) ->
        parse_dt fromiso f = Raise e ->
        pick_latest_image fromiso files = Raise e) /\
    (forall f,
        PyStr.truthy (rf_modifiedTime f) = false -> rf_createdTime f = None ->
        parse_dt fromiso f = Raise (AttributeError "replace")) /\
    (forall f t,
        PyStr.or_ (rf_modifiedTime f) (rf_createdTime f) = Some t ->
        fromiso (PyStr.replace_char "Z" "+00:00" t) = None ->
        parse_dt fromiso f = Raise (ValueError "fromisoformat")).
Proof.
  intros fromiso files. split; [|split].
  - intros before f after e Hc Hb Hf. unfold pick_latest_image. rewrite Hc.
    assert (K : keyed fromiso (before ++ f :: after) = Raise e).
    { clear Hc. induction before as [|g before IH]; simpl.
      - now rewrite Hf.
      - destruct (Hb g (or_introl eq_refl)) as [d ->].
        rewrite IH; [reflexivity|]. intros g' Hg'. apply Hb. now right. }
    rewrite K. now destruct before.
  - intros f Hm Hc. unfold parse_dt, PyStr.or_. now rewrite Hm, Hc.
  - intros f t Ht Hn. unfold parse_dt. now rewrite Ht, Hn.
Qed.

Lemma pick_latest_image_unreadable_time_witness :
  let untimed := mkFile (Some "i9") (Some "scan.png") (Some "image/png") None None None in
  pick_latest_image Sample.iso_instant [Sample.V1; Sample.I1; untimed; Sample.I2] =
  Raise (AttributeError "replace").
Proof.
  intros untimed.
  apply (proj1 (pick_latest_image_unreadable_time Sample.iso_instant
                  [Sample.V1; Sample.I1; untimed; Sample.I2])
           [Sample.I1] untimed [Sample.I2]).
  - reflexivity.
  - intros g [<-|[]]. eexists. vm_compute. reflexivity.
  - apply (proj1 (proj2 (pick_latest_image_unreadable_time Sample.iso_instant []))); reflexivity.
Defined.

(** * Further properties of the calls *)

(** ** The generation call, for every environment *)

Lemma normalize_result_exists ex res p :
  normalize_result ex res = Ok p -> ex p = true.
Proof.
  unfold normalize_result.
  destruct (existing_str ex res) as [q|] eqn:E.
  { intros [= <-]. now apply existing_str_Some in E. }
  destruct (match res with PyList l | PyTuple l => first_existing ex l | _ => None end)
    as [q|] eqn:El.
  { intros [= <-]. destruct res; try discriminate;
      now apply first_existing_Some in El as (_ & _ & _ & Hp & _). }
  destruct (match res with PyDict d => first_under_keys ex d RESULT_KEYS | _ => None end)
    as [q|] eqn:Ed; [|discriminate].
  intros [= <-]. destruct res; try discriminate.
  now apply first_under_keys_Some in Ed as (_ & _ & _ & _ & _ & Hp & _).
Qed.

Lemma predict_count_app a b :
  predict_count (a ++ b) = (predict_count a + predict_count b)%nat.
Proof.
  induction a as [|e a IH]; [reflexivity|]. destruct e; simpl; rewrite IH; reflexivity.
Qed.

Lemma sleeps_newest_first_app a b :
  sleeps_newest_first (a ++ b) = sleeps_newest_first a ++ sleeps_newest_first b.
Proof.
  induction a as [|e a IH]; [reflexivity|]. destruct e; simpl; rewrite IH; reflexivity.
Qed.

Lemma attempts_outcome env retries api img vid n a last h :
  1 <= a ->
  exists added,
    fst (attempts retries api img vid n a last env h) = added ++ h /\
    (predict_count added <= n)%nat /\
    (List.length (sleeps_newest_first added) <= predict_count added)%nat /\
    Forall (fun s => 5 <= s <= 60) (sleeps_newest_first added) /\
    snd (attempts retries api img vid n a last env h) <> Diverge /\
    (forall e, snd (attempts retries api img vid n a last env h) = Raise e ->
               exists l, e = HFCallFailed retries l) /\
    (forall p, snd (attempts retries api img vid n a last env h) = Ok p ->
               path_exists env (fst (attempts retries api img vid n a last env h)) p = true).
Proof.
  revert a last h. induction n as [|n IH]; intros a last h Ha.
  - exists []. cbn. repeat split; try lia; try constructor; try discriminate.
    intros e [= <-]. now exists last.
  - cbn [attempts]. unfold attempt_once.
    set (r := predict env h api img vid WAN_MODE WAN_QUALITY).
    set (ev := EvPredict api img vid WAN_MODE WAN_QUALITY r).
    assert (Hretry : forall e,
      exists added,
        fst ((sleep (Z.min 60 (5 * a));;
              attempts retries api img vid n (a + 1) (Some e))%py env (ev :: h)) = added ++ h /\
        (predict_count added <= S n)%nat /\
        (List.length (sleeps_newest_first added) <= predict_count added)%nat /\
        Forall (fun s => 5 <= s <= 60) (sleeps_newest_first added) /\
        snd ((sleep (Z.min 60 (5 * a));;
              attempts retries api img vid n (a + 1) (Some e))%py env (ev :: h)) <> Diverge /\
        (forall e', snd ((sleep (Z.min 60 (5 * a));;
              attempts retries api img vid n (a + 1) (Some e))%py env (ev :: h)) = Raise e' ->
                    exists l, e' = HFCallFailed retries l) /\
        (forall p, snd ((sleep (Z.min 60 (5 * a));;
              attempts retries api img vid n (a + 1) (Some e))%py env (ev :: h)) = Ok p ->
           path_exists env (fst ((sleep (Z.min 60 (5 * a));;
              attempts retries api img vid n (a + 1) (Some e))%py env (ev :: h))) p = true)).
    { intros e. unfold bind, sleep.
      destruct (IH (a + 1) (Some e) (EvSleep (Z.min 60 (5 * a)) :: ev :: h))
        as (added & Hadd & Hc & Hl & Hs & Hd & Hr & Hp); [lia|].
      exists (added ++ [EvSleep (Z.min 60 (5 * a)); ev]).
      rewrite predict_count_app, sleeps_newest_first_app.
      split; [rewrite <- app_assoc; exact Hadd|].
      split; [subst ev; simpl; lia|].
      split; [rewrite length_app; subst ev; simpl; lia|].
      split; [apply Forall_app; split; [exact Hs|]; subst ev; cbn [sleeps_newest_first];
              constructor; [lia | constructor]|].
      now repeat split. }
    destruct r as [e|res] eqn:Er.
    + apply Hretry.
    + destruct (normalize_result (path_exists env (ev :: h)) res) as [p|e|] eqn:En.
      * exists [ev]. subst ev. cbn.
        repeat split; try lia; try constructor; try discriminate.
        intros p' [= <-]. now apply normalize_result_exists in En.
      * apply Hretry.
      * exfalso. unfold normalize_result in En.
        repeat match type of En with
               | match ?x with _ => _ end = _ => destruct x; try discriminate
               end.
Qed.

Lemma call_wan2_2_ends env api img vid retries h :
  snd (call_wan2_2 api img vid retries env h) <> Diverge.
Proof.
  unfold call_wan2_2.
  destruct (attempts_outcome env retries api img vid (Z.to_nat retries) 1 None h)
    as (_ & _ & _ & _ & _ & Hd & _); [lia | exact Hd].
Qed.

(** X8.  Whatever the Space and the file system do, the generation call ends:
    it makes at most [retries] attempts, pauses at most once per attempt and
    each time between 5 and 60 seconds, raises no other error than its final
    failure, and a path it returns was seen to exist when the call returned.
    With no attempt allowed it fails at once, without any call. *)
Theorem call_wan2_2_outcome :
  forall (env : Env) (api img vid : string) (retries : Z) (h0 : history),
    exists added,
      fst (call_wan2_2 api img vid retries env h0) = added ++ h0 /\
      Z.of_nat (predict_count added) <= Z.max 0 retries /\
      (List.length (sleeps_newest_first added) <= predict_count added)%nat /\
      Forall (fun s => 5 <= s <= 60) (sleeps_newest_first added) /\
      snd (call_wan2_2 api img vid retries env h0) <> Diverge /\
      (forall e, snd (call_wan2_2 api img vid retries env h0) = Raise e ->
                 exists last, e = HFCallFailed retries last) /\
      (forall p, snd (call_wan2_2 api img vid retries env h0) = Ok p ->
                 path_exists env (fst (call_wan2_2 api img vid retries env h0)) p = true) /\
      (retries <= 0 ->
       call_wan2_2 api img vid retries env h0 = (h0, Raise (HFCallFailed retries None))).
Proof.
  intros env api img vid retries h0. unfold call_wan2_2.
  destruct (attempts_outcome env retries api img vid (Z.to_nat retries) 1 None h0)
    as (added & Hadd & Hc & Hl & Hs & Hd & Hr & Hp); [lia|].
  exists added. repeat split; try assumption; [lia|].
  intros Hle. replace (Z.to_nat retries) with O by lia. reflexivity.
Qed.

Lemma call_wan2_2_outcome_witness :
  call_wan2_2 "/predict" "img.png" "vid.mp4" (-2) Sample.flaky [] =
  ([], Raise (HFCallFailed (-2) None)).
Proof.
  destruct (call_wan2_2_outcome Sample.flaky "/predict" "img.png" "vid.mp4" (-2) [])
    as (added & _ & _ & _ & _ & _ & _ & _ & H).
  apply H. lia.
Defined.

(** ** Endpoint resolution on unusual descriptors *)

Lemma scan_endpoints_member eps name :
  scan_endpoints eps = Ok (Some name) -> exists meta, In (name, meta) eps.
Proof.
  induction eps as [|[k m] eps IH]; [discriminate|].
  cbn [scan_endpoints]. destruct m; try discriminate.
  destruct (py_len _) as [n|]; [|discriminate].
  destruct (Nat.eqb n 4).
  - intros [= <-]. eexists. now left.
  - intros H. destruct (IH H) as [meta Hm]. exists meta. now right.
Qed.

(** X9.  Endpoint resolution asks for the descriptor once.  A descriptor that
    is not a mapping, that has no [named_endpoints] entry, or whose entry is
    empty gives the default [/predict]; an entry that is not empty and not a
    mapping makes the resolution raise, since only the descriptor request is
    guarded.  A name that is returned is [/predict] or the name of an
    endpoint of the descriptor. *)
Theorem find_best_api_name_fallbacks :
  forall (env : Env) (h : history),
    fst (find_best_api_name env h) = EvViewApi (view_api env h) :: h /\
    (forall api,
        view_api env h = inr api ->
        (forall d, api <> PyDict d) ->
        snd (find_best_api_name env h) = Ok "/predict") /\
    (forall d,
        view_api env h = inr (PyDict d) ->
        dict_get d "named_endpoints" = None ->
        snd (find_best_api_name env h) = Ok "/predict") /\
    (forall d v,
        view_api env h = inr (PyDict d) ->
        dict_get d "named_endpoints" = Some v ->
        py_truthy v = false ->
        snd (find_best_api_name env h) = Ok "/predict") /\
    (forall d v,
        view_api env h = inr (PyDict d) ->
        dict_get d "named_endpoints" = Some v ->
        py_truthy v = true ->
        (forall eps, v <> PyDict eps) ->
        snd (find_best_api_name env h) = Raise (AttributeError "items")) /\
    (forall name,
        snd (find_best_api_name env h) = Ok name ->
        name = "/predict" \/
        exists d eps meta,
          view_api env h = inr (PyDict d) /\
          dict_get d "named_endpoints" = Some (PyDict eps) /\
          In (name, meta) eps).
Proof.
  intros env h. unfold find_best_api_name.
  split; [now destruct (view_api env h)|].
  split; [|split; [|split; [|split]]].
  - intros api -> Hnd. cbn [snd]. unfold pick_endpoint.
    destruct api; try reflexivity. now destruct (Hnd d).
  - intros d -> Hg. cbn [snd]. unfold pick_endpoint. now rewrite Hg.
  - intros d v -> Hg Hv. cbn [snd]. unfold pick_endpoint. now rewrite Hg, Hv.
  - intros d v -> Hg Hv Hnd. cbn [snd]. unfold pick_endpoint. rewrite Hg, Hv. cbn [negb].
    destruct v; try reflexivity. now destruct (Hnd d0).
  - intros name. destruct (view_api env h) as [e|api] eqn:Ev; cbn [snd].
    { intros [= <-]. now left. }
    unfold pick_endpoint.
    destruct api as [| | | | | |d]; try (intros [= <-]; now left).
    destruct (dict_get d "named_endpoints") as [v|] eqn:Eg; [|intros [= <-]; now left].
    destruct (negb (py_truthy v)); [intros [= <-]; now left|].
    destruct v as [| | | | | |eps]; try discriminate.
    destruct (scan_endpoints eps) as [best| |] eqn:Es; try discriminate.
    destruct (negb (PyStr.truthy best)) eqn:Eb.
    + destruct eps as [|[first meta] eps']; [discriminate|].
      intros [= <-]. right. exists d, ((first, meta) :: eps'), meta.
      repeat split; [exact Eg | now left].
    + destruct best as [b|]; [|discriminate]. cbn [PyStr.get_default].
      intros [= <-]. right.
      destruct (scan_endpoints_member _ _ Es) as [meta Hm].
      now exists d, eps, meta.
Qed.

Lemma find_best_api_name_fallbacks_witness :
  snd (find_best_api_name Sample.broken []) = Raise (AttributeError "items") /\
  (snd (find_best_api_name Sample.good []) = Ok "/animate" ->
   "/animate" = "/predict" \/
   exists d eps meta,
     view_api Sample.good [] = inr (PyDict d) /\
     dict_get d "named_endpoints" = Some (PyDict eps) /\
     In ("/animate", meta) eps).
Proof.
  split.
  - apply (proj1 (proj2 (proj2 (proj2 (proj2 (find_best_api_name_fallbacks Sample.broken [])))))
             [("named_endpoints", PyList [PyStr "/run"])] (PyList [PyStr "/run"]));
      try reflexivity.
    intros eps. discriminate.
  - apply (proj2 (proj2 (proj2 (proj2 (proj2 (find_best_api_name_fallbacks Sample.good [])))))).
Defined.

(** ** The loop over the queue *)

Section Loop.
Variables (env : Env) (fuel : nat) (out_folder api tmp img : string).

(** The body of the loop runs on only inside the download of its item. *)
Lemma main_item_diverges f h h1 :
  main_item fuel out_folder api tmp img f env h = (h1, Diverge) ->
  exists name file_id,
    rf_name f = Some name /\ rf_id f = Some file_id /\
    download_file fuel file_id (OsPath.join tmp (safe_filename name)) env h = (h1, Diverge).
Proof.
  destruct (rf_name f) as [name|] eqn:Hn;
    [|unfold main_item, bind, lift; rewrite Hn; discriminate].
  destruct (declared_size f) as [size|e|] eqn:Hs.
  - destruct (too_large size) eqn:Ht;
      [rewrite (main_item_skip env fuel out_folder api tmp img f name size h Hn Hs Ht);
       discriminate|].
    destruct (rf_id f) as [file_id|] eqn:Hi;
      [|unfold main_item, bind, lift; rewrite Hn, Hs; cbn [getitem];
        rewrite Ht, Hi; discriminate].
    rewrite (main_item_run env fuel out_folder api tmp img f name size file_id h Hn Hs Ht Hi).
    cbv zeta.
    destruct (download_file fuel file_id _ env h) as [hd [[]|e|]] eqn:Ed;
      [|discriminate|intros [= <-]; exists name, file_id; repeat split; exact Ed].
    pose proof (call_wan2_2_ends env api img (OsPath.join tmp (safe_filename name)) 5 hd)
      as Hd.
    destruct (call_wan2_2 api img _ 5 env _) as [h2 [p|e|]]; [|discriminate|now destruct Hd].
    destruct (files_create env h2 p out_folder (out_name_of name)); [discriminate|].
    now destruct (files_update env _ file_id (processed_name_of name)).
  - unfold main_item, bind, lift. rewrite Hn, Hs. discriminate.
  - unfold declared_size in Hs. destruct (PyStr.truthy (rf_size f)); [|discriminate].
    destruct (int_of_str _); discriminate.
Qed.

Lemma main_loop_app done_ rest h :
  main_loop fuel out_folder api tmp img (done_ ++ rest) env h =
  match main_loop fuel out_folder api tmp img done_ env h with
  | (h', Ok _) => main_loop fuel out_folder api tmp img rest env h'
  | (h', Raise e) => (h', Raise e)
  | (h', Diverge) => (h', Diverge)
  end.
Proof.
  revert h. induction done_ as [|f done_ IH]; intros h; [reflexivity|].
  cbn [app main_loop]. unfold bind.
  destruct (main_item fuel out_folder api tmp img f env h) as [h1 [[]|e|]]; try reflexivity.
  apply IH.
Qed.

(** A loop that does not return normally stopped in its first item that did
    not. *)
Lemma main_loop_first todo h r :
  snd (main_loop fuel out_folder api tmp img todo env h) = r ->
  r <> Ok tt ->
  exists done_ f rest h',
    todo = done_ ++ f :: rest /\
    main_loop fuel out_folder api tmp img done_ env h = (h', Ok tt) /\
    main_item fuel out_folder api tmp img f env h' =
    (fst (main_loop fuel out_folder api tmp img todo env h), r).
Proof.
  revert h. induction todo as [|f todo IH]; intros h.
  - intros <- H. now destruct H.
  - cbn [main_loop]. unfold bind.
    destruct (main_item fuel out_folder api tmp img f env h) as [h1 [[]|e1|]] eqn:Ei.
    + intros Hr Hne. destruct (IH h1 Hr Hne) as (done_ & g & rest & h' & -> & Hdone & Hg).
      exists (f :: done_), g, rest, h'. repeat split; [|exact Hg].
      cbn [main_loop]. unfold bind. now rewrite Ei.
    + intros <- _. exists [], f, todo, h. now repeat split.
    + intros <- _. exists [], f, todo, h. now repeat split.
Qed.

Lemma main_loop_diverges todo h h1 :
  main_loop fuel out_folder api tmp img todo env h = (h1, Diverge) ->
  exists f h' name file_id,
    In f todo /\ rf_name f = Some name /\ rf_id f = Some file_id /\
    download_file fuel file_id (OsPath.join tmp (safe_filename name)) env h' = (h1, Diverge).
Proof.
  intros H.
  destruct (main_loop_first todo h Diverge) as (done_ & f & rest & h' & -> & _ & Hf);
    [now rewrite H | discriminate|].
  rewrite H in Hf. cbn [fst] in Hf.
  apply main_item_diverges in Hf as (name & file_id & Hn & Hi & Hd).
  exists f, h', name, file_id. repeat split; try assumption.
  apply in_or_app. right. now left.
Qed.

End Loop.

(** X10.  The loop over the queue stops at the first item whose processing
    does not return: the items before it were processed, the outcome and the
    history are those of that item, and no call is made for the items after
    it.  The loop runs on without end only inside the download of one of its
    items, when the transfer never finishes. *)
Theorem main_loop_stops_at_first_failure :
  forall (env : Env) (fuel : nat) (out_folder api tmp img : string)
         (todo : list RemoteFile) (h : history),
    (forall r,
        snd (main_loop fuel out_folder api tmp img todo env h) = r ->
        r <> Ok tt ->
        exists done_ f rest h',
          todo = done_ ++ f :: rest /\
          main_loop fuel out_folder api tmp img done_ env h = (h', Ok tt) /\
          main_item fuel out_folder api tmp img f env h' =
          (fst (main_loop fuel out_folder api tmp img todo env h), r)) /\
    (snd (main_loop fuel out_folder api tmp img todo env h) = Diverge ->
     exists f h' name file_id,
       In f todo /\ rf_name f = Some name /\ rf_id f = Some file_id /\
       download_file fuel file_id (OsPath.join tmp (safe_filename name)) env h' =
       (fst (main_loop fuel out_folder api tmp img todo env h), Diverge)).
Proof.
  intros env fuel out_folder api tmp img todo h. split.
  - intros r. apply main_loop_first.
  - intros H. apply (main_loop_diverges env fuel out_folder api tmp img todo h).
    rewrite <- H. now destruct (main_loop fuel out_folder api tmp img todo env h).
Qed.

Lemma main_loop_stops_at_first_failure_witness :
  let nameless := mkFile (Some "v9") None (Some "video/mp4") None None None in
  (exists done_ f rest h',
    [Sample.V4; nameless; Sample.V1] = done_ ++ f :: rest /\
    main_loop 3 "out" "/animate" "/tmp/t" "/tmp/t/hero.png" done_ Sample.good [] = (h', Ok tt) /\
    main_item 3 "out" "/animate" "/tmp/t" "/tmp/t/hero.png" f Sample.good h' =
    (fst (main_loop 3 "out" "/animate" "/tmp/t" "/tmp/t/hero.png"
            [Sample.V4; nameless; Sample.V1] Sample.good []),
     Raise (KeyError "name"))) /\
  (exists f h' name file_id,
    In f [Sample.V4; Sample.V1; Sample.V2] /\ rf_name f = Some name /\
    rf_id f = Some file_id /\
    download_file 3 file_id (OsPath.join "/tmp/t" (safe_filename name)) Sample.stalled h' =
    (fst (main_loop 3 "out" "/animate" "/tmp/t" "/tmp/t/hero.png"
            [Sample.V4; Sample.V1; Sample.V2] Sample.stalled []),
     Diverge)).
Proof.
  intros nameless. split.
  - apply (proj1 (main_loop_stops_at_first_failure Sample.good 3 "out" "/animate" "/tmp/t"
                    "/tmp/t/hero.png" [Sample.V4; nameless; Sample.V1] [])
             (Raise (KeyError "name"))).
    + reflexivity.
    + discriminate.
  - apply (proj2 (main_loop_stops_at_first_failure Sample.stalled 3 "out" "/animate" "/tmp/t"
                    "/tmp/t/hero.png" [Sample.V4; Sample.V1; Sample.V2] [])).
    reflexivity.
Defined.

(** X11.  An ill-formed item stops the loop before any call is made for it:
    an item without a name, which the filter on the marker lets through,
    raises the key error of [f["name"]]; a size that is not an integer
    raises the value error of [int]; an item without an id raises the key
    error of [f["id"]]. *)
Theorem main_item_malformed :
  forall (env : Env) (fuel : nat) (out_folder api tmp img : string) (f : RemoteFile)
         (h : history),
    (rf_name f = None ->
     unprocessed f = true /\
     main_item fuel out_folder api tmp img f env h = (h, Raise (KeyError "name"))) /\
    (forall name size,
        rf_name f = Some name -> rf_size f = Some size -> size <> "" ->
        int_of_str size = None ->
        main_item fuel out_folder api tmp img f env h = (h, Raise (ValueError "int"))) /\
    (forall name size,
        rf_name f = Some name -> declared_size f = Ok size -> too_large size = false ->
        rf_id f = None ->
        main_item fuel out_folder api tmp img f env h = (h, Raise (KeyError "id"))).
Proof.
  intros env fuel out_folder api tmp img f h. split; [|split].
  - intros Hn. split.
    + unfold unprocessed. now rewrite Hn.
    + unfold main_item, bind, lift. now rewrite Hn.
  - intros name size Hn Hs Hne Hi.
    unfold main_item, bind, lift, declared_size. rewrite Hn, Hs.
    destruct size; [congruence|]. cbn [getitem PyStr.truthy PyStr.get_default].
    now rewrite Hi.
  - intros name size Hn Hs Ht Hi.
    unfold main_item, bind, lift. rewrite Hn, Hs. cbn [getitem]. now rewrite Ht, Hi.
Qed.

Lemma main_item_malformed_witness :
  let odd := mkFile (Some "v8") (Some "odd.mp4") (Some "video/mp4") None None (Some "12 MB") in
  main_item 3 "out" "/animate" "/tmp/t" "/tmp/t/hero.png" odd Sample.good [] =
  ([], Raise (ValueError "int")).
Proof.
  intros odd.
  apply (proj1 (proj2 (main_item_malformed Sample.good 3 "out" "/animate" "/tmp/t"
                         "/tmp/t/hero.png" odd [])) "odd.mp4" "12 MB");
    try reflexivity.
  discriminate.
Defined.

(** ** Listing a folder *)

Lemma list_pages_served_run env q h tok pages :
  served env q h tok pages ->
  forall fuel files,
    (List.length pages <= fuel)%nat ->
    list_pages fuel q tok files env h =
    (listing_history q h tok pages, Ok (files ++ concat (map page_files pages))).
Proof.
  induction 1 as [h tok resp Hr Hn | h tok resp rest Hr Hn _ IH]; intros fuel files Hf.
  - destruct fuel as [|fuel]; [simpl in Hf; lia|].
    cbn [list_pages]. unfold bind, call. rewrite Hr, Hn. cbn.
    now rewrite app_nil_r.
  - destruct fuel as [|fuel]; [simpl in Hf; lia|].
    cbn [list_pages]. unfold bind, call. rewrite Hr, Hn. cbn [negb].
    rewrite IH by (simpl in Hf; lia).
    cbn [map concat listing_history]. now rewrite app_assoc.
Qed.

Lemma list_pages_raise env fuel q tok files h e :
  snd (list_pages fuel q tok files env h) = Raise e ->
  exists tok' rest, fst (list_pages fuel q tok files env h) = EvList q tok' (inl e) :: rest.
Proof.
  revert tok files h. induction fuel as [|fuel IH]; intros tok files h; [discriminate|].
  cbn [list_pages]. unfold bind, call.
  destruct (files_list env h q tok) as [e'|resp].
  - intros [= <-]. now exists tok, h.
  - destruct (negb (PyStr.truthy (resp_nextPageToken resp))); [discriminate|].
    apply IH.
Qed.

(** X12.  Listing a folder makes one request per page, each with the token of
    the page before, and returns the files of the pages in order; an error of
    the drive is raised as it is, by the request that met it, and nothing is
    asked after it.  Without a mime prefix the query has no mime clause. *)
Theorem list_files_in_folder_requests :
  forall (env : Env) (fuel : nat) (folder : string) (mime : option string) (h : history),
    (forall pages,
        served env (list_query folder mime) h None pages ->
        (List.length pages <= fuel)%nat ->
        list_files_in_folder fuel folder mime env h =
        (listing_history (list_query folder mime) h None pages,
         Ok (concat (map page_files pages)))) /\
    (forall e,
        snd (list_files_in_folder fuel folder mime env h) = Raise e ->
        exists tok rest,
          fst (list_files_in_folder fuel folder mime env h) =
          EvList (list_query folder mime) tok (inl e) :: rest) /\
    (PyStr.truthy mime = false ->
     list_query folder mime = ("'" ++ folder ++ "' in parents and trashed = false")%string).
Proof.
  intros env fuel folder mime h. unfold list_files_in_folder. split; [|split].
  - intros pages Hs Hf. now rewrite (list_pages_served_run _ _ _ _ _ Hs fuel [] Hf).
  - intros e. apply list_pages_raise.
  - intros Hm. unfold list_query. now rewrite Hm.
Qed.

Lemma list_files_in_folder_requests_witness :
  list_files_in_folder 2 "refs" (Some "video/") Sample.all_done [] =
    (listing_history (list_query "refs" (Some "video/")) [] None
       [mkResp (Some [Sample.V3]) (Some "page2"); mkResp None None],
     Ok (concat (map page_files [mkResp (Some [Sample.V3]) (Some "page2"); mkResp None None]))) /\
  (exists tok rest,
      fst (list_files_in_folder 5 "pics" None Sample.drive_down []) =
      EvList (list_query "pics" None) tok (inl (ExternalError "503")) :: rest).
Proof.
  split.
  - apply (proj1 (list_files_in_folder_requests Sample.all_done 2 "refs" (Some "video/") [])).
    + apply served_more; [reflexivity | reflexivity |].
      apply served_last; reflexivity.
    + simpl. lia.
  - apply (proj1 (proj2 (list_files_in_folder_requests Sample.drive_down 5 "pics" None []))).
    reflexivity.
Defined.

(** * Further properties of the run *)

(** X13.  A run fails at once, before any call, when a required setting is
    absent or empty: the error names the first missing one among the image
    folder, the video folder and the output folder, in that order, and then
    the service account. *)
Theorem main_fails_fast_on_configuration :
  forall (env : Env) (fuel : nat) (h : history),
    let given name := PyStr.truthy (environ env name) in
    (given "PIC_FOLDER_ID" = false ->
     main fuel env h = (h, Raise (MissingEnvVar "PIC_FOLDER_ID"))) /\
    (given "PIC_FOLDER_ID" = true -> given "REF_FOLDER_ID" = false ->
     main fuel env h = (h, Raise (MissingEnvVar "REF_FOLDER_ID"))) /\
    (given "PIC_FOLDER_ID" = true -> given "REF_FOLDER_ID" = true ->
     given "OUT_FOLDER_ID" = false ->
     main fuel env h = (h, Raise (MissingEnvVar "OUT_FOLDER_ID"))) /\
    (given "PIC_FOLDER_ID" = true -> given "REF_FOLDER_ID" = true ->
     given "OUT_FOLDER_ID" = true -> given "GDRIVE_SA_JSON" = false ->
     main fuel env h = (h, Raise (MissingEnvVar "GDRIVE_SA_JSON"))).
Proof.
  intros env fuel h given. subst given. cbv beta. unfold main.
  split; [|split; [|split]].
  - intros H1. rewrite bind_run, env_required_run, H1. reflexivity.
  - intros H1 H2. rewrite bind_run, env_required_run, H1. cbn [negb].
    rewrite bind_run, env_required_run, H2. reflexivity.
  - intros H1 H2 H3. rewrite bind_run, env_required_run, H1. cbn [negb].
    rewrite bind_run, env_required_run, H2. cbn [negb].
    rewrite bind_run, env_required_run, H3. reflexivity.
  - intros H1 H2 H3 H4. rewrite bind_run, env_required_run, H1. cbn [negb].
    rewrite bind_run, env_required_run, H2. cbn [negb].
    rewrite bind_run, env_required_run, H3. cbn [negb].
    rewrite bind_run. unfold build_drive. rewrite bind_run, env_required_run, H4.
    reflexivity.
Qed.

Lemma main_fails_fast_on_configuration_witness :
  let env := {|
    environ := fun name => if (name =? "PIC_FOLDER_ID")%string then Some "pics"
                           else if (name =? "REF_FOLDER_ID")%string then Some ""
                           else None;
    fromisoformat := Sample.iso_instant;
    path_exists := fun _ _ => false;
    build_service := fun _ _ => None;
    files_list := fun _ _ _ => inr (mkResp None None);
    get_media := fun _ _ _ => None;
    next_chunk := fun _ _ _ => inr true;
    close_file := fun _ _ => None;
    files_create := fun _ _ _ _ => inr "id";
    files_update := fun _ _ _ => None;
    new_client := fun _ _ _ => None;
    view_api := fun _ => inr PyNone;
    predict := fun _ _ _ _ _ _ => inr PyNone;
    mkdtemp := fun _ => inr "/tmp/x" |} in
  main 3 env [] = ([], Raise (MissingEnvVar "REF_FOLDER_ID")).
Proof.
  intros env.
  apply (proj1 (proj2 (main_fails_fast_on_configuration env 3 []))); reflexivity.
Defined.

(** The run up to the choice of the reference image *)
Lemma main_after_image_listing env fuel pic_pages :
  PyStr.truthy (environ env "PIC_FOLDER_ID") = true ->
  PyStr.truthy (environ env "REF_FOLDER_ID") = true ->
  PyStr.truthy (environ env "OUT_FOLDER_ID") = true ->
  PyStr.truthy (environ env "GDRIVE_SA_JSON") = true ->
  build_service env [] (PyStr.get_default (environ env "GDRIVE_SA_JSON")) = None ->
  served env (list_query (PyStr.get_default (environ env "PIC_FOLDER_ID")) (Some "image/"))
    [EvBuildDrive (PyStr.get_default (environ env "GDRIVE_SA_JSON")) None] None pic_pages ->
  (List.length pic_pages <= fuel)%nat ->
  main fuel env [] =
  match pick_latest_image (fromisoformat env) (concat (map page_files pic_pages)) with
  | Ok None =>
      ((listing_history
         (list_query (PyStr.get_default (environ env "PIC_FOLDER_ID")) (Some "image/"))
         [EvBuildDrive (PyStr.get_default (environ env "GDRIVE_SA_JSON")) None] None pic_pages),
       Raise NoImageFound)
  | Ok (Some latest_img) =>
      (ref_files <- list_files_in_folder fuel
                      (PyStr.get_default (environ env "REF_FOLDER_ID")) (Some "video/") ;;
       match todo_of ref_files with
       | [] => ret tt
       | _ =>
           (fun env h =>
              let hf_token := environ env "HF_TOKEN" in
              call_unit (fun env h =>
                           new_client env h SPACE_ID
                             (if PyStr.truthy hf_token then hf_token else None))
                        (EvClient SPACE_ID (if PyStr.truthy hf_token then hf_token else None))
                        env h) ;;
           api_name <- find_best_api_name ;;
           with_tmp (fun tmp =>
             img_name <- lift (getitem "name" (rf_name latest_img)) ;;
             let img_path := OsPath.join tmp (safe_filename img_name) in
             img_id <- lift (getitem "id" (rf_id latest_img)) ;;
             download_file fuel img_id img_path ;;
             main_loop fuel (PyStr.get_default (environ env "OUT_FOLDER_ID")) api_name tmp
               img_path (todo_of ref_files))
       end)%py env
        (listing_history
         (list_query (PyStr.get_default (environ env "PIC_FOLDER_ID")) (Some "image/"))
         [EvBuildDrive (PyStr.get_default (environ env "GDRIVE_SA_JSON")) None] None pic_pages)
  | Raise e =>
      ((listing_history
         (list_query (PyStr.get_default (environ env "PIC_FOLDER_ID")) (Some "image/"))
         [EvBuildDrive (PyStr.get_default (environ env "GDRIVE_SA_JSON")) None] None pic_pages),
       Raise e)
  | Diverge =>
      ((listing_history
         (list_query (PyStr.get_default (environ env "PIC_FOLDER_ID")) (Some "image/"))
         [EvBuildDrive (PyStr.get_default (environ env "GDRIVE_SA_JSON")) None] None pic_pages),
       Diverge)
  end.
Proof.
  intros pic_given ref_given out_given sa_given drive_built Hs Hf. unfold main.
  rewrite bind_run, env_required_run, pic_given. cbn [negb].
  rewrite bind_run, env_required_run, ref_given. cbn [negb].
  rewrite bind_run, env_required_run, out_given. cbn [negb].
  rewrite bind_run. unfold build_drive. rewrite bind_run, env_required_run, sa_given.
  cbn [negb]. unfold call_unit. rewrite drive_built.
  rewrite bind_run. unfold list_files_in_folder at 1.
  rewrite (list_pages_served_run _ _ _ _ _ Hs fuel [] Hf). cbn [app].
  rewrite bind_run.
  destruct (pick_latest_image (fromisoformat env) (concat (map page_files pic_pages)))
    as [[latest_img|]|e|]; reflexivity.
Qed.

(** X14.  When the image folder holds no usable image, the run stops with the
    no-image error right after the listing of that folder: the videos are not
    listed, no client is created, nothing is downloaded, generated, uploaded
    or renamed. *)
Theorem main_without_image :
  forall (env : Env) (fuel : nat) (pic_pages : list ListResponse),
    PyStr.truthy (environ env "PIC_FOLDER_ID") = true ->
    PyStr.truthy (environ env "REF_FOLDER_ID") = true ->
    PyStr.truthy (environ env "OUT_FOLDER_ID") = true ->
    PyStr.truthy (environ env "GDRIVE_SA_JSON") = true ->
    build_service env [] (PyStr.get_default (environ env "GDRIVE_SA_JSON")) = None ->
    served env (list_query (PyStr.get_default (environ env "PIC_FOLDER_ID")) (Some "image/"))
      [EvBuildDrive (PyStr.get_default (environ env "GDRIVE_SA_JSON")) None] None pic_pages ->
    (List.length pic_pages <= fuel)%nat ->
    (forall f, In f (concat (map page_files pic_pages)) -> ~ image_candidate f) ->
    main fuel env [] =
    (listing_history
       (list_query (PyStr.get_default (environ env "PIC_FOLDER_ID")) (Some "image/"))
       [EvBuildDrive (PyStr.get_default (environ env "GDRIVE_SA_JSON")) None] None pic_pages,
     Raise NoImageFound).
Proof.
  intros env fuel pic_pages H1 H2 H3 H4 Hb Hs Hf Hnone.
  rewrite (main_after_image_listing env fuel pic_pages H1 H2 H3 H4 Hb Hs Hf).
  now rewrite (pick_none (fromisoformat env) _ Hnone).
Qed.

Lemma main_without_image_witness :
  main 1 Sample.no_image [] =
  ([EvList "'pics' in parents and trashed = false and mimeType contains 'image/'" None
      (inr (mkResp (Some [Sample.HIDDEN]) None));
    EvBuildDrive "{}" None],
   Raise NoImageFound).
Proof.
  apply (main_without_image Sample.no_image 1 [mkResp (Some [Sample.HIDDEN]) None]);
    try reflexivity.
  - apply served_last; reflexivity.
  - intros f [<-|[]] [_ H]. discriminate.
Defined.

Lemma todo_of_all_marked ref_files :
  (forall f, In f ref_files -> occurs_in PROCESSED_TAG (PyStr.get_default (rf_name f))) ->
  todo_of ref_files = [].
Proof.
  intros H. unfold todo_of. rewrite filter_none; [reflexivity|].
  intros f Hf. unfold unprocessed. apply negb_false_iff, is_processed_spec, H, Hf.
Qed.

(** X15.  When an image is found and every listed video already carries the
    marker, the run ends normally right after the listing of the videos: no
    client is created, nothing is downloaded, generated, uploaded or renamed. *)
Theorem main_with_nothing_to_do :
  forall (env : Env) (fuel : nat) (pic_pages ref_pages : list ListResponse)
         (latest_img : RemoteFile),
    PyStr.truthy (environ env "PIC_FOLDER_ID") = true ->
    PyStr.truthy (environ env "REF_FOLDER_ID") = true ->
    PyStr.truthy (environ env "OUT_FOLDER_ID") = true ->
    PyStr.truthy (environ env "GDRIVE_SA_JSON") = true ->
    build_service env [] (PyStr.get_default (environ env "GDRIVE_SA_JSON")) = None ->
    served env (list_query (PyStr.get_default (environ env "PIC_FOLDER_ID")) (Some "image/"))
      [EvBuildDrive (PyStr.get_default (environ env "GDRIVE_SA_JSON")) None] None pic_pages ->
    (List.length pic_pages <= fuel)%nat ->
    pick_latest_image (fromisoformat env) (concat (map page_files pic_pages)) =
      Ok (Some latest_img) ->
    served env (list_query (PyStr.get_default (environ env "REF_FOLDER_ID")) (Some "video/"))
      (listing_history
         (list_query (PyStr.get_default (environ env "PIC_FOLDER_ID")) (Some "image/"))
         [EvBuildDrive (PyStr.get_default (environ env "GDRIVE_SA_JSON")) None] None pic_pages)
      None ref_pages ->
    (List.length ref_pages <= fuel)%nat ->
    (forall f, In f (concat (map page_files ref_pages)) ->
               occurs_in PROCESSED_TAG (PyStr.get_default (rf_name f))) ->
    main fuel env [] =
    (listing_history
       (list_query (PyStr.get_default (environ env "REF_FOLDER_ID")) (Some "video/"))
       (listing_history
          (list_query (PyStr.get_default (environ env "PIC_FOLDER_ID")) (Some "image/"))
          [EvBuildDrive (PyStr.get_default (environ env "GDRIVE_SA_JSON")) None] None pic_pages)
       None ref_pages,
     Ok tt).
Proof.
  intros env fuel pic_pages ref_pages latest_img H1 H2 H3 H4 Hb Hs Hf Hpick Hrs Hrf Hall.
  rewrite (main_after_image_listing env fuel pic_pages H1 H2 H3 H4 Hb Hs Hf), Hpick.
  rewrite bind_run. unfold list_files_in_folder.
  rewrite (list_pages_served_run _ _ _ _ _ Hrs fuel [] Hrf). cbn [app].
  now rewrite (todo_of_all_marked _ Hall).
Qed.

Lemma main_with_nothing_to_do_witness :
  main 2 Sample.all_done [] =
  ([EvList "'refs' in parents and trashed = false and mimeType contains 'video/'"
      (Some "page2") (inr (mkResp None None));
    EvList "'refs' in parents and trashed = false and mimeType contains 'video/'"
      None (inr (mkResp (Some [Sample.V3]) (Some "page2")));
    EvList "'pics' in parents and trashed = false and mimeType contains 'image/'" None
      (inr (mkResp (Some [Sample.I1; Sample.I2]) None));
    EvBuildDrive "{}" None],
   Ok tt).
Proof.
  apply (main_with_nothing_to_do Sample.all_done 2
           [mkResp (Some [Sample.I1; Sample.I2]) None]
           [mkResp (Some [Sample.V3]) (Some "page2"); mkResp None None]
           Sample.I2); try reflexivity.
  - apply served_last; reflexivity.
  - simpl. lia.
  - apply served_more; [reflexivity | reflexivity |]. apply served_last; reflexivity.
  - intros f [<-|[]]. exists "jump", ".mp4". reflexivity.
Defined.

(** ** Downloads *)

Lemma next_chunks_completes env file_id path h n :
  completes env file_id path h n ->
  forall fuel, (n <= fuel)%nat ->
    next_chunks fuel file_id path env h = (chunk_history file_id path h n, Ok tt).
Proof.
  induction 1 as [h Hc | h n Hc Hrest IH]; intros fuel Hf.
  - destruct fuel as [|fuel]; [lia|].
    cbn [next_chunks]. unfold bind, call. now rewrite Hc.
  - destruct fuel as [|fuel]; [lia|].
    cbn [next_chunks]. unfold bind, call. rewrite Hc. cbn [negb].
    rewrite IH by lia. destruct n as [|n]; [inversion Hrest | reflexivity].
Qed.

Lemma next_chunks_raise env fuel file_id path h e :
  snd (next_chunks fuel file_id path env h) = Raise e ->
  exists rest, fst (next_chunks fuel file_id path env h) = EvChunk file_id path (inl e) :: rest.
Proof.
  revert h. induction fuel as [|fuel IH]; intros h; [discriminate|].
  cbn [next_chunks]. unfold bind, call.
  destruct (next_chunk env h file_id path) as [e'|[|]].
  - intros [= <-]. now exists h.
  - discriminate.
  - apply IH.
Qed.

Lemma next_chunks_diverge env fuel file_id path h :
  snd (next_chunks fuel file_id path env h) = Diverge ->
  exists chunks,
    fst (next_chunks fuel file_id path env h) = chunks ++ h /\
    List.length chunks = fuel /\
    Forall (fun ev => ev = EvChunk file_id path (inr false)) chunks.
Proof.
  revert h. induction fuel as [|fuel IH]; intros h.
  - intros _. exists []. now repeat split.
  - cbn [next_chunks]. unfold bind, call.
    destruct (next_chunk env h file_id path) as [e'|[|]]; try discriminate.
    cbn [negb]. intros H. destruct (IH _ H) as (chunks & Hc & Hl & Hall).
    exists (chunks ++ [EvChunk file_id path (inr false)]).
    rewrite <- app_assoc. split; [exact Hc|]. split.
    + rewrite length_app. simpl. lia.
    + apply Forall_app. split; [exact Hall | now repeat constructor].
Qed.

(** A download runs on only as long as every chunk answers that the
    transfer is not done. *)
Lemma download_file_diverges env fuel file_id path h h1 :
  download_file fuel file_id path env h = (h1, Diverge) ->
  exists chunks,
    h1 = chunks ++ EvDownload file_id path None :: h /\
    get_media env h file_id path = None /\
    List.length chunks = fuel /\
    Forall (fun ev => ev = EvChunk file_id path (inr false)) chunks.
Proof.
  unfold download_file, bind, call_unit.
  destruct (get_media env h file_id path) as [e0|]; [discriminate|].
  destruct (next_chunks fuel file_id path env _) as [h2 [[]|e1|]] eqn:En.
  - now destruct (close_file env h2 path).
  - discriminate.
  - intros [= <-].
    destruct (next_chunks_diverge env fuel file_id path
                (EvDownload file_id path None :: h)) as (chunks & Hc & Hl & Hall);
      [now rewrite En|].
    rewrite En in Hc. exists chunks. now repeat split.
Qed.

(** X17.  A download opens the transfer, asks for chunks until the drive
    answers that the transfer is done, and then closes the local file.  When
    the opening fails no chunk is asked; when the drive completes the
    transfer in [n] chunks and [n] rounds are allowed, the download makes
    exactly these [n] requests and ends with the closing of the file; an
    error is raised as it is by the call that met it, so that after a failed
    chunk the file is not closed; the download runs on only as long as every
    chunk answers that the transfer is not done. *)
Theorem download_file_correct :
  forall (env : Env) (fuel : nat) (file_id path : string) (h : history),
    let dl := EvDownload file_id path (get_media env h file_id path) in
    (forall e, get_media env h file_id path = Some e ->
               download_file fuel file_id path env h = (dl :: h, Raise e)) /\
    (get_media env h file_id path = None ->
     forall n, completes env file_id path (dl :: h) n -> (n <= fuel)%nat ->
       let hc := chunk_history file_id path (dl :: h) n in
       download_file fuel file_id path env h =
       (EvClose path (close_file env hc path) :: hc,
        match close_file env hc path with Some e => Raise e | None => Ok tt end)) /\
    (forall e, snd (download_file fuel file_id path env h) = Raise e ->
       exists rest,
         fst (download_file fuel file_id path env h) = EvDownload file_id path (Some e) :: rest \/
         fst (download_file fuel file_id path env h) = EvChunk file_id path (inl e) :: rest \/
         fst (download_file fuel file_id path env h) = EvClose path (Some e) :: rest) /\
    (snd (download_file fuel file_id path env h) = Diverge ->
     exists chunks,
       fst (download_file fuel file_id path env h) = chunks ++ dl :: h /\
       List.length chunks = fuel /\
       Forall (fun ev => ev = EvChunk file_id path (inr false)) chunks).
Proof.
  intros env fuel file_id path h dl.
  assert (E : download_file fuel file_id path env h =
              match get_media env h file_id path with
              | Some e => (dl :: h, Raise e)
              | None =>
                  match next_chunks fuel file_id path env (dl :: h) with
                  | (h1, Ok _) =>
                      (EvClose path (close_file env h1 path) :: h1,
                       match close_file env h1 path with
                       | Some e => Raise e
                       | None => Ok tt
                       end)
                  | (h1, Raise e) => (h1, Raise e)
                  | (h1, Diverge) => (h1, Diverge)
                  end
              end).
  { unfold download_file, bind, call_unit. fold dl.
    destruct (get_media env h file_id path); [reflexivity|].
    now destruct (next_chunks fuel file_id path env (dl :: h)) as [h1 [[]|e|]]. }
  rewrite E. clear E.
  split; [|split; [|split]].
  - now intros e ->.
  - intros Hg n Hc Hf hc. rewrite Hg.
    now rewrite (next_chunks_completes _ _ _ _ _ Hc fuel Hf).
  - intros e. subst dl. destruct (get_media env h file_id path) as [e0|].
    + intros [= <-]. exists h. now left.
    + destruct (next_chunks fuel file_id path env _) as [h1 [[]|e1|]] eqn:En.
      * destruct (close_file env h1 path) as [e2|]; [|discriminate].
        intros [= <-]. exists h1. right. right. reflexivity.
      * intros [= <-].
        destruct (next_chunks_raise env fuel file_id path
                    (EvDownload file_id path None :: h) e1) as [rest Hr];
          [now rewrite En|].
        rewrite En in Hr. exists rest. right. left. exact Hr.
      * discriminate.
  - subst dl. destruct (get_media env h file_id path) as [e0|]; [discriminate|].
    destruct (next_chunks fuel file_id path env _) as [h1 [[]|e1|]] eqn:En.
    + now destruct (close_file env h1 path).
    + discriminate.
    + intros _. destruct (next_chunks_diverge env fuel file_id path
                            (EvDownload file_id path None :: h)) as (chunks & Hc & Hl & Hall);
        [now rewrite En|].
      rewrite En in Hc. exists chunks. now repeat split.
Qed.

Lemma download_file_correct_witness :
  download_file 5 "v1" "/tmp/t/dance.mov" Sample.chunked [] =
    ([EvClose "/tmp/t/dance.mov" None;
      EvChunk "v1" "/tmp/t/dance.mov" (inr true);
      EvChunk "v1" "/tmp/t/dance.mov" (inr false);
      EvChunk "v1" "/tmp/t/dance.mov" (inr false);
      EvDownload "v1" "/tmp/t/dance.mov" None],
     Ok tt) /\
  (exists chunks,
     fst (download_file 2 "v1" "/tmp/t/dance.mov" Sample.stalled []) =
       chunks ++ [EvDownload "v1" "/tmp/t/dance.mov" None] /\
     List.length chunks = 2%nat /\
     Forall (fun ev => ev = EvChunk "v1" "/tmp/t/dance.mov" (inr false)) chunks).
Proof.
  split.
  - apply (proj1 (proj2 (download_file_correct Sample.chunked 5 "v1" "/tmp/t/dance.mov" []))
             eq_refl 3%nat).
    + apply completes_more; [reflexivity|].
      apply completes_more; [reflexivity|].
      apply completes_last. reflexivity.
    + lia.
  - apply (proj2 (proj2 (proj2
             (download_file_correct Sample.stalled 2 "v1" "/tmp/t/dance.mov" [])))).
    reflexivity.
Defined.

(** ** The temporary directory *)

Lemma list_pages_not_entered env fuel q tok files h :
  Forall not_entered h ->
  Forall not_entered (fst (list_pages fuel q tok files env h)).
Proof.
  revert tok files h. induction fuel as [|fuel IH]; intros tok files h Hh; [exact Hh|].
  cbn [list_pages]. rewrite bind_run. unfold call.
  destruct (files_list env h q tok) as [e|resp].
  - constructor; [exact I | exact Hh].
  - destruct (negb (PyStr.truthy (resp_nextPageToken resp))).
    + constructor; [exact I | exact Hh].
    + apply IH. constructor; [exact I | exact Hh].
Qed.

Lemma main_body_diverges env fuel out_folder api tmp latest_img todo h h1 :
  (img_name <- lift (getitem "name" (rf_name latest_img)) ;;
   let img_path := OsPath.join tmp (safe_filename img_name) in
   img_id <- lift (getitem "id" (rf_id latest_img)) ;;
   download_file fuel img_id img_path ;;
   main_loop fuel out_folder api tmp img_path todo)%py env h = (h1, Diverge) ->
  exists file_id path h',
    download_file fuel file_id path env h' = (h1, Diverge).
Proof.
  rewrite bind_run. unfold lift at 1.
  destruct (getitem "name" (rf_name latest_img)) as [img_name|e|] eqn:E1;
    [|discriminate|now destruct (rf_name latest_img)].
  cbv zeta. rewrite bind_run. unfold lift at 1.
  destruct (getitem "id" (rf_id latest_img)) as [img_id|e|] eqn:E2;
    [|discriminate|now destruct (rf_id latest_img)].
  rewrite bind_run.
  destruct (download_file fuel img_id (OsPath.join tmp (safe_filename img_name)) env h)
    as [h7 [[]|e|]] eqn:Ed; [|discriminate|].
  - intros H. apply main_loop_diverges in H as (f & h' & name & file_id & _ & _ & _ & H).
    now exists file_id, (OsPath.join tmp (safe_filename name)), h'.
  - intros [= <-]. now exists img_id, (OsPath.join tmp (safe_filename img_name)), h.
Qed.

Lemma main_workspace env fuel :
  Forall not_entered (fst (main fuel env [])) \/
  (snd (main fuel env []) <> Diverge /\
   exists h', fst (main fuel env []) = EvTmpExit :: h') \/
  (snd (main fuel env []) = Diverge /\
   exists file_id path h',
     download_file fuel file_id path env h' = (fst (main fuel env []), Diverge)).
Proof.
  set (G := fun x : history * result unit =>
              Forall not_entered (fst x) \/
              (snd x <> Diverge /\ exists h', fst x = EvTmpExit :: h') \/
              (snd x = Diverge /\
               exists file_id path h',
                 download_file fuel file_id path env h' = (fst x, Diverge))).
  change (G (main fuel env [])).
  assert (Hl : forall h r, Forall not_entered h -> G (h, r)) by (intros; now left).
  assert (Hr : forall h r, r <> Diverge -> G (EvTmpExit :: h, r))
    by (intros h r Hd; right; left; split; [exact Hd | now exists h]).
  assert (Hd : forall h,
             (exists file_id path h', download_file fuel file_id path env h' = (h, Diverge)) ->
             G (h, Diverge))
    by (intros h H; right; right; split; [reflexivity | exact H]).
  clearbody G.
  unfold main.
  rewrite bind_run, env_required_run.
  destruct (negb (PyStr.truthy (environ env "PIC_FOLDER_ID"))); [apply Hl; constructor|].
  rewrite bind_run, env_required_run.
  destruct (negb (PyStr.truthy (environ env "REF_FOLDER_ID"))); [apply Hl; constructor|].
  rewrite bind_run, env_required_run.
  destruct (negb (PyStr.truthy (environ env "OUT_FOLDER_ID"))); [apply Hl; constructor|].
  rewrite bind_run. unfold build_drive at 1. rewrite bind_run, env_required_run.
  destruct (negb (PyStr.truthy (environ env "GDRIVE_SA_JSON"))); [apply Hl; constructor|].
  unfold call_unit at 1.
  set (h1 := [EvBuildDrive _ _]).
  assert (N1 : Forall not_entered h1) by (repeat constructor).
  destruct (build_service env [] _) as [e|]; [now apply Hl|].
  clearbody h1.
  rewrite bind_run. unfold list_files_in_folder at 1.
  pose proof (list_pages_not_entered env fuel
                (list_query (PyStr.get_default (environ env "PIC_FOLDER_ID")) (Some "image/"))
                None [] h1 N1) as N2.
  destruct (list_pages fuel _ None [] env h1) as [h2 r2]. cbn [fst] in N2.
  destruct r2 as [pic_files|e|]; [|now apply Hl ..].
  rewrite bind_run.
  destruct (pick_latest_image (fromisoformat env) pic_files) as [[latest_img|]|e|];
    [|now apply Hl ..].
  rewrite bind_run. unfold list_files_in_folder at 1.
  pose proof (list_pages_not_entered env fuel
                (list_query (PyStr.get_default (environ env "REF_FOLDER_ID")) (Some "video/"))
                None [] h2 N2) as N3.
  destruct (list_pages fuel _ None [] env h2) as [h3 r3]. cbn [fst] in N3.
  destruct r3 as [ref_files|e|]; [|now apply Hl ..].
  destruct (todo_of ref_files) as [|t0 todo'] eqn:Etodo; [now apply Hl|].
  rewrite <- Etodo.
  rewrite bind_run. unfold call_unit at 1.
  set (h4 := EvClient _ _ _ :: h3).
  assert (N4 : Forall not_entered h4) by (constructor; [exact I | exact N3]).
  destruct (new_client env h3 _ _) as [e|]; [now apply Hl|].
  clearbody h4.
  rewrite bind_run.
  destruct (find_best_api_name_run env h4) as [r5 ->].
  set (h5 := EvViewApi (view_api env h4) :: h4).
  assert (N5 : Forall not_entered h5) by (constructor; [exact I | exact N4]).
  clearbody h5.
  destruct r5 as [api_name|e|]; [|now apply Hl ..].
  unfold with_tmp.
  destruct (mkdtemp env h5) as [e|tmp].
  { apply Hl. constructor; [exact I | exact N5]. }
  pose proof (main_body_diverges env fuel (PyStr.get_default (environ env "OUT_FOLDER_ID"))
                api_name tmp latest_img (todo_of ref_files)
                (EvTmpEnter (inr tmp) :: h5)) as Hbody.
  destruct ((img_name <- lift (getitem "name" (rf_name latest_img));;
             (let img_path := OsPath.join tmp (safe_filename img_name) in
              img_id <- lift (getitem "id" (rf_id latest_img));;
              download_file fuel img_id img_path;;
              main_loop fuel (PyStr.get_default (environ env "OUT_FOLDER_ID")) api_name tmp
                img_path (todo_of ref_files)))%py
              env (EvTmpEnter (inr tmp) :: h5)) as [h8 [[]|e|]];
    [apply Hr; discriminate ..|].
  apply Hd. now apply Hbody.
Qed.

(** X16.  A run that has created its temporary directory and ends, with or
    without an error, removes the directory as the last thing it does.  A
    run that does not end is inside a download whose transfer never
    finishes: its history ends with the opening of that download and the
    chunks asked since, none of which answered that the transfer is done. *)
Theorem main_removes_workspace :
  forall (env : Env) (fuel : nat) (tmp : string),
    In (EvTmpEnter (inr tmp)) (fst (main fuel env [])) ->
    (snd (main fuel env []) <> Diverge ->
     exists h', fst (main fuel env []) = EvTmpExit :: h') /\
    (snd (main fuel env []) = Diverge ->
     exists file_id path h' chunks,
       download_file fuel file_id path env h' = (fst (main fuel env []), Diverge) /\
       fst (main fuel env []) = chunks ++ EvDownload file_id path None :: h' /\
       List.length chunks = fuel /\
       Forall (fun ev => ev = EvChunk file_id path (inr false)) chunks).
Proof.
  intros env fuel tmp Hin.
  destruct (main_workspace env fuel) as [Hn|[[Hnd He]|[Hd (file_id & path & h' & Hdl)]]].
  - exfalso. rewrite Forall_forall in Hn. exact (Hn _ Hin).
  - split; [intros _; exact He | intros H; now destruct Hnd].
  - split; [intros H; now destruct H|]. intros _.
    destruct (download_file_diverges _ _ _ _ _ _ Hdl) as (chunks & Hc & _ & Hl & Hall).
    exists file_id, path, h', chunks. now repeat split.
Qed.

Lemma main_removes_workspace_witness :
  (exists h', fst (main 3 Sample.url_world []) = EvTmpExit :: h') /\
  (exists file_id path h' chunks,
     download_file 3 file_id path Sample.stalled h' =
       (fst (main 3 Sample.stalled []), Diverge) /\
     fst (main 3 Sample.stalled []) = chunks ++ EvDownload file_id path None :: h' /\
     List.length chunks = 3%nat /\
     Forall (fun ev => ev = EvChunk file_id path (inr false)) chunks).
Proof.
  split.
  - apply (proj1 (main_removes_workspace Sample.url_world 3 "/tmp/tmpabc"
                    ltac:(vm_compute; repeat (first [left; reflexivity | right])))).
    vm_compute. discriminate.
  - apply (proj2 (main_removes_workspace Sample.stalled 3 "/tmp/tmpabc"
                    ltac:(vm_compute; repeat (first [left; reflexivity | right])))).
    vm_compute. reflexivity.
Defined.
